(** * Texas Hold'em engine: card model, hand evaluator, equity estimator,
      bot policy and betting state machine of [texas_holdem.py].

    The Python program is embedded shallowly: integers are [Z], Python
    lists are [list], the player dictionaries are records, the players
    table is a list updated by index, and the calls to the [random] module
    are taken as explicit inputs of the functions that make them. *)

From Stdlib Require Import ZArith QArith List Permutation Lia.
From stdpp Require Import base option list strings.

Local Open Scope Z_scope.
Local Open Scope list_scope.

(** ** Python helpers *)

Module Py.

(** [sorted(l, key=key, reverse=True)]: a stable sort into descending key
    order; elements with equal keys keep their original relative order.
    [ltb] is [<] on keys. *)
Section Sorted.
Context {A K : Type} (ltb : K → K → bool) (key : A → K).

Fixpoint insert_desc (x : A) (l : list A) : list A :=
  match l with
  | [] => [x]
  | y :: ys => if ltb (key x) (key y) then y :: insert_desc x ys
               else x :: y :: ys
  end.

Definition sorted_rev (l : list A) : list A := foldr insert_desc [] l.
End Sorted.

(** [list(range(a, a-n, -1))] *)
Fixpoint range_down (a : Z) (n : nat) : list Z :=
  match n with
  | O => []
  | S n' => a :: range_down (a - 1) n'
  end.

(** Comparison of two lists of integers, as Python compares lists: the
    first position where they differ decides, a proper prefix is smaller. *)
Fixpoint list_cmp (a b : list Z) : comparison :=
  match a, b with
  | [], [] => Eq
  | [], _ :: _ => Lt
  | _ :: _, [] => Gt
  | x :: a', y :: b' =>
      match x ?= y with
      | Eq => list_cmp a' b'
      | c => c
      end
  end.

(** Comparison of the pairs [(count, value)] used as a sort key. *)
Definition pair_ltb (a b : Z * Z) : bool :=
  (a.1 <? b.1) || ((a.1 =? b.1) && (a.2 <? b.2)).

(** [Counter(vals)]: value/count pairs in order of first occurrence. *)
Fixpoint counter_add (v : Z) (c : list (Z * Z)) : list (Z * Z) :=
  match c with
  | [] => [(v, 1)]
  | (k, n) :: c' => if k =? v then (k, n + 1) :: c'
                    else (k, n) :: counter_add v c'
  end.

Definition Counter (vals : list Z) : list (Z * Z) :=
  fold_left (λ c v, counter_add v c) vals [].

(** [counts[v]] for a key of the counter ([0] stands for a missing key,
    which the callers never ask for). *)
Fixpoint counter_get (c : list (Z * Z)) (v : Z) : Z :=
  match c with
  | [] => 0
  | (k, n) :: c' => if k =? v then n else counter_get c' v
  end.

(** [len(set(l))]: the number of distinct elements. *)
Fixpoint distinct `{EqDecision A} (l : list A) : list A :=
  match l with
  | [] => []
  | x :: xs => if decide (x ∈ xs) then distinct xs else x :: distinct xs
  end.

(** [itertools.combinations(l, k)], in the order itertools yields them. *)
Fixpoint combinations {A} (l : list A) (k : nat) : list (list A) :=
  match k with
  | O => [[]]
  | S k' =>
      match l with
      | [] => []
      | x :: xs => map (cons x) (combinations xs k') ++ combinations xs k
      end
  end.

(** Slices [l[:n]] and [l[a:b]] with Python's treatment of negative and
    out-of-range bounds. *)
Definition clamp_index {A} (l : list A) (i : Z) : nat :=
  let n := Z.of_nat (length l) in
  Z.to_nat (Z.min n (if i <? 0 then Z.max 0 (n + i) else i)).

Definition slice {A} (l : list A) (a b : Z) : list A :=
  let lo := clamp_index l a in
  let hi := clamp_index l b in
  take (hi - lo)%nat (drop lo l).

Definition slice_to {A} (l : list A) (b : Z) : list A := slice l 0 b.

End Py.

(** ** Card engine *)

Inductive Suit := Spade | Heart | Diamond | Club.
Inductive Rank := R2 | R3 | R4 | R5 | R6 | R7 | R8 | R9 | R10 | RJ | RQ | RK | RA.

#[global] Instance Suit_eq_dec : EqDecision Suit.
Proof. solve_decision. Defined.
#[global] Instance Rank_eq_dec : EqDecision Rank.
Proof. solve_decision. Defined.

(** A card is the pair [(rank, suit)]. *)
Definition Card : Type := Rank * Suit.

Definition SUITS : list Suit := [Spade; Heart; Diamond; Club].
Definition RANKS : list Rank := [R2; R3; R4; R5; R6; R7; R8; R9; R10; RJ; RQ; RK; RA].

(** [RANK_VAL = {r:i for i,r in enumerate(RANKS,2)}] *)
Definition RANK_VAL (r : Rank) : Z :=
  match r with
  | R2 => 2 | R3 => 3 | R4 => 4 | R5 => 5 | R6 => 6 | R7 => 7 | R8 => 8
  | R9 => 9 | R10 => 10 | RJ => 11 | RQ => 12 | RK => 13 | RA => 14
  end.

(** [[(r,s) for s in SUITS for r in RANKS]] *)
Definition make_deck : list Card :=
  flat_map (λ s, map (λ r, (r, s)) RANKS) SUITS.

(** The value [score_five] returns: [(category, tie-break list)]. *)
Definition HandRank : Type := Z * list Z.

(** Python's tuple comparison on [HandRank]. *)
Definition hr_cmp (a b : HandRank) : comparison :=
  match a.1 ?= b.1 with
  | Eq => Py.list_cmp a.2 b.2
  | c => c
  end.

Definition hr_gtb (a b : HandRank) : bool :=
  match hr_cmp a b with Gt => true | _ => false end.
Definition hr_ltb (a b : HandRank) : bool := hr_gtb b a.
Definition hr_geb (a b : HandRank) : bool := negb (hr_ltb a b).
Definition hr_le (a b : HandRank) : Prop := hr_cmp a b ≠ Gt.
Definition hr_lt (a b : HandRank) : Prop := hr_cmp a b = Lt.

Definition list_Z_eqb (a b : list Z) : bool := bool_decide (a = b).

(** [len(set(suits))==1] *)
Definition is_flush (cards : list Card) : bool :=
  bool_decide (length (Py.distinct (map (λ c : Card, c.2) cards)) = 1%nat).

(** [sorted([RANK_VAL[c[0]] for c in cards], reverse=True)] *)
Definition sorted_vals (cards : list Card) : list Z :=
  Py.sorted_rev Z.ltb id (map (λ c : Card, RANK_VAL c.1) cards).

(** [score_five(cards)].  [vals[0]] and [freq[0]] raise [IndexError] on an
    empty hand; the embedding reads [0] there.  Every caller passes the
    5-tuples of [combinations(hand, 5)]. *)
Definition score_five (cards : list Card) : HandRank :=
  let vals := sorted_vals cards in
  let flush := is_flush cards in
  let wheel := list_Z_eqb vals [14; 5; 4; 3; 2] in
  let st := list_Z_eqb vals (Py.range_down (hd 0 vals) 5) || wheel in
  let vals := if st && wheel then [5; 4; 3; 2; 1] else vals in
  let counts := Py.Counter vals in
  let freq := Py.sorted_rev Z.ltb id (map snd counts) in
  let grp := Py.sorted_rev Py.pair_ltb (λ v, (Py.counter_get counts v, v))
               (map fst counts) in
  if st && flush then (8, vals)
  else if list_Z_eqb freq [4; 1] then (7, grp)
  else if list_Z_eqb freq [3; 2] then (6, grp)
  else if flush then (5, vals)
  else if st then (4, vals)
  else if hd 0 freq =? 3 then (3, grp)
  else if list_Z_eqb (take 2 freq) [2; 2] then (2, grp)
  else if hd 0 freq =? 2 then (1, grp)
  else (0, vals).

(** One iteration of the loop of [hand_rank]. *)
Definition hand_rank_step (best : option HandRank) (five : list Card)
  : option HandRank :=
  let s := score_five five in
  match best with
  | None => Some s
  | Some b => if hr_gtb s b then Some s else Some b
  end.

(** [hand_rank(hand)]; [None] is Python's [None], returned when the hand
    has fewer than five cards. *)
Definition hand_rank (hand : list Card) : option HandRank :=
  fold_left hand_rank_step (Py.combinations hand 5) None.

(** ** Equity estimator *)

(** [a >= b] on two results of [hand_rank]; [None] is the [TypeError]
    Python raises when either side is [None]. *)
Definition ranks_ge (a b : option HandRank) : option bool :=
  match a, b with
  | Some x, Some y => Some (hr_geb x y)
  | _, _ => None
  end.

(** The deck [estimate_strength] draws from. *)
Definition strength_deck (hole comm : list Card) : list Card :=
  filter (λ c, (c ∉ hole) ∧ (c ∉ comm)) make_deck.

(** [deck[:needed]], the cards that complete the board. *)
Definition trial_drawn (comm deck : list Card) : list Card :=
  Py.slice_to deck (5 - Z.of_nat (length comm)).

Definition trial_board (comm deck : list Card) : list Card :=
  comm ++ trial_drawn comm deck.

Definition trial_opp (comm deck : list Card) : list Card :=
  let needed := 5 - Z.of_nat (length comm) in
  Py.slice deck needed (needed + 2).

(** The comparison of one trial, on the deck as shuffled for it. *)
Definition trial_win (hole comm deck : list Card) : option bool :=
  let board := trial_board comm deck in
  let opp := trial_opp comm deck in
  ranks_ge (hand_rank (hole ++ board)) (hand_rank (opp ++ board)).

(** The loop of [estimate_strength].  [shuffle k d] is what the [k]-th call
    of [random.shuffle] leaves in the list that held [d]; the deck is
    shuffled in place, so each trial starts from the previous order. *)
Fixpoint strength_loop (shuffle : nat → list Card → list Card)
    (hole comm : list Card) (n k : nat) (deck : list Card) (wins : Z)
  : option Z :=
  match n with
  | O => Some wins
  | S n' =>
      let deck' := shuffle k deck in
      b ← trial_win hole comm deck';
      strength_loop shuffle hole comm n' (S k) deck'
        (if b : bool then wins + 1 else wins)
  end.

(** The deck as the trial number [k] (from 0) sees it. *)
Fixpoint deck_at (shuffle : nat → list Card → list Card) (d0 : list Card)
    (k : nat) : list Card :=
  match k with
  | O => shuffle O d0
  | S k' => shuffle k (deck_at shuffle d0 k')
  end.

Definition strength_wins (shuffle : nat → list Card → list Card)
    (hole comm : list Card) (trials : Z) : option Z :=
  strength_loop shuffle hole comm (Z.to_nat trials) 0 (strength_deck hole comm) 0.

(** [estimate_strength(hole, comm, trials)].  The result is the exact
    quotient [wins/trials]; Python returns the float nearest to it.  [None]
    is an exception: [ZeroDivisionError] for [trials = 0], or the
    [TypeError] of a comparison with [None]. *)
Definition estimate_strength (shuffle : nat → list Card → list Card)
    (hole comm : list Card) (trials : Z) : option Q :=
  wins ← strength_wins shuffle hole comm trials;
  if trials =? 0 then None else Some (inject_Z wins / inject_Z trials)%Q.

(** Whether the trial number [k] is counted as a win. *)
Definition win_at (shuffle : nat → list Card → list Card)
    (hole comm : list Card) (k : nat) : bool :=
  default false
    (trial_win hole comm (deck_at shuffle (strength_deck hole comm) k)).

(** ** Players *)

Record Player := mkPlayer {
  name : string;
  stack : Z;
  human : bool;
  hand : list Card;
  folded : bool;
  bet : Z;
  persona : string;
}.

#[global] Instance Player_eq_dec : EqDecision Player.
Proof. solve_decision. Defined.

Definition set_stack (p : Player) (v : Z) : Player :=
  mkPlayer (name p) v (human p) (hand p) (folded p) (bet p) (persona p).
Definition set_bet (p : Player) (v : Z) : Player :=
  mkPlayer (name p) (stack p) (human p) (hand p) (folded p) v (persona p).
Definition set_folded (p : Player) (v : bool) : Player :=
  mkPlayer (name p) (stack p) (human p) (hand p) v (bet p) (persona p).
Definition set_hand (p : Player) (v : list Card) : Player :=
  mkPlayer (name p) (stack p) (human p) v (folded p) (bet p) (persona p).

(** [p['stack']-=pd; p['bet']+=pd] *)
Definition commit (p : Player) (pd : Z) : Player :=
  set_bet (set_stack p (stack p - pd)) (bet p + pd).

(** ** Bot policy *)

Inductive Action := Fold | Check | Call | Raise.

#[global] Instance Action_eq_dec : EqDecision Action.
Proof. solve_decision. Defined.

(** The float arithmetic [bot_decision] uses.  Nothing is assumed of it.
    An operation that can raise returns [None]: the conversion of an int
    operand ([OverflowError] for an int too large for a float), the
    quotient of two ints ([OverflowError]) and [int(x)] ([OverflowError]
    for an infinity, [ValueError] for a nan).  The int constants [0] and
    [1] of the code convert exactly and are written as literals. *)
Record FloatOps := {
  F : Type;
  f_lit : Q → F;                  (* a float literal, or a rounded quotient *)
  f_of_int : Z → option F;        (* the int operand of [n*x] as a float *)
  f_add : F → F → F;
  f_mul : F → F → F;
  f_int_div : Z → Z → option F;   (* int / int *)
  f_ltb : F → F → bool;
  f_int : F → option Z;           (* int(x) *)
}.

(** The draws [bot_decision] makes from the [random] module. *)
Record BotRandom (fo : FloatOps) := {
  rnd_shuffle : nat → list Card → list Card;
  rnd_bluff : F fo;    (* random.random() compared with d['bluff'] *)
  rnd_raise : F fo;    (* random.random() compared with 0.6 or 0.55 *)
  rnd_size : F fo;     (* random.uniform(0.5,0.75) *)
}.
Arguments rnd_shuffle {fo}.
Arguments rnd_bluff {fo}.
Arguments rnd_raise {fo}.
Arguments rnd_size {fo}.

Record Difficulty := {
  fold_bias : Q;
  bluff : Q;
  raise_cap : Q;
  skill : Q;
}.

Definition difficulty_easy : Difficulty :=
  {| fold_bias := 10 # 100; bluff := 4 # 100; raise_cap := 20 # 100; skill := - (8 # 100) |}.
Definition difficulty_medium : Difficulty :=
  {| fold_bias := 5 # 100; bluff := 6 # 100; raise_cap := 30 # 100; skill := 0 |}.
Definition difficulty_hard : Difficulty :=
  {| fold_bias := 0; bluff := 10 # 100; raise_cap := 45 # 100; skill := 8 # 100 |}.

(** [DIFFICULTY_ADJ.get(difficulty, DIFFICULTY_ADJ['medium'])] *)
Definition DIFFICULTY_ADJ_get (difficulty : string) : Difficulty :=
  if decide (difficulty = "easy"%string) then difficulty_easy
  else if decide (difficulty = "hard"%string) then difficulty_hard
  else difficulty_medium.

Section Bot.
Context (fo : FloatOps).

Definition f_min (a b : F fo) : F fo := if f_ltb fo b a then b else a.
Definition f_max (a b : F fo) : F fo := if f_ltb fo a b then b else a.

(** [persona_adj.get(player.get('persona',''), 0)] *)
Definition persona_adj_get (p : string) : F fo :=
  if decide (p = "aggressive"%string) then f_lit fo (10 # 100)
  else if decide (p = "tight"%string) then f_lit fo (- (12 # 100))
  else if decide (p = "loose"%string) then f_lit fo (4 # 100)
  else f_lit fo 0.

(** [int(n*x)] for an int [n] and a float [x]. *)
Definition int_mul (n : Z) (x : F fo) : option Z :=
  fn ← f_of_int fo n;
  f_int fo (f_mul fo fn x).

(** The inner function [safe_raise()]. *)
Definition safe_raise (rnd : BotRandom fo) (d : Difficulty)
    (pot stack min_raise : Z) : option Z :=
  pot_bet ← int_mul pot (rnd_size rnd);
  cap ← int_mul stack (f_lit fo (raise_cap d));
  Some (Z.max min_raise (Z.min (Z.min pot_bet cap) stack)).

(** [bot_decision(player, comm, pot, call_amt, min_raise, difficulty)];
    [None] is an exception, raised by [estimate_strength] or by the float
    arithmetic. *)
Definition bot_decision (rnd : BotRandom fo) (player : Player)
    (comm : list Card) (pot call_amt min_raise : Z) (difficulty : string)
  : option (Action * Z) :=
  q ← estimate_strength (rnd_shuffle rnd) (hand player) comm 120;
  let d := DIFFICULTY_ADJ_get difficulty in
  let s := f_lit fo q in
  let s := f_max (f_lit fo 0)
             (f_min (f_lit fo 1)
                (f_add fo (f_add fo s (persona_adj_get (persona player)))
                   (f_lit fo (skill d)))) in
  let stack := stack player in
  let bluff := f_ltb fo (rnd_bluff rnd) (f_lit fo (bluff d)) in
  let eff := if bluff then f_min (f_lit fo 1) (f_add fo s (f_lit fo (20 # 100)))
             else s in
  if call_amt =? 0 then
    if f_ltb fo (f_lit fo (72 # 100)) eff && (min_raise <=? stack)
       && f_ltb fo (rnd_raise rnd) (f_lit fo (6 # 10))
    then amt ← safe_raise rnd d pot stack min_raise; Some (Raise, amt)
    else Some (Check, 0)
  else
    pot_odds ← (if 0 <? pot + call_amt
                then f_int_div fo call_amt (pot + call_amt)
                else Some (f_lit fo 1));
    if f_ltb fo eff (f_add fo pot_odds (f_lit fo (fold_bias d))) && negb bluff
    then Some (Fold, 0)
    else if f_ltb fo eff (f_lit fo (55 # 100)) then
      tenth ← int_mul stack (f_lit fo (10 # 100));
      if call_amt <=? tenth
      then Some (Call, Z.min call_amt stack)
      else Some (Fold, 0)
    else if f_ltb fo eff (f_lit fo (75 # 100)) then
      Some (Call, Z.min call_amt stack)
    else
      if (min_raise <=? stack) && f_ltb fo (rnd_raise rnd) (f_lit fo (55 # 100))
      then amt ← safe_raise rnd d pot stack min_raise; Some (Raise, amt)
      else Some (Call, Z.min call_amt stack).

End Bot.

(** ** Betting state machine (class [App])

    The fields of [App] that the game logic reads and writes.  The widgets,
    the log and history texts, [last_action], [active_idx], the hand counter
    and the statistics are display state and are left out.  A handler ends
    by scheduling the next one with [root.after]; here it returns the state
    it leaves together with the handler it schedules.  [None] is a Python
    exception. *)

Record State := mkState {
  players : list Player;
  comm : list Card;
  pot : Z;
  dealer : nat;
  hbet : Z;
  aq : list nat;
  deck : list Card;
  SB : Z;
  BB : Z;
}.

Definition set_players (st : State) (v : list Player) : State :=
  mkState v (comm st) (pot st) (dealer st) (hbet st) (aq st) (deck st) (SB st) (BB st).
Definition set_comm (st : State) (v : list Card) : State :=
  mkState (players st) v (pot st) (dealer st) (hbet st) (aq st) (deck st) (SB st) (BB st).
Definition set_pot (st : State) (v : Z) : State :=
  mkState (players st) (comm st) v (dealer st) (hbet st) (aq st) (deck st) (SB st) (BB st).
Definition set_dealer (st : State) (v : nat) : State :=
  mkState (players st) (comm st) (pot st) v (hbet st) (aq st) (deck st) (SB st) (BB st).
Definition set_hbet (st : State) (v : Z) : State :=
  mkState (players st) (comm st) (pot st) (dealer st) v (aq st) (deck st) (SB st) (BB st).
Definition set_aq (st : State) (v : list nat) : State :=
  mkState (players st) (comm st) (pot st) (dealer st) (hbet st) v (deck st) (SB st) (BB st).
Definition set_deck (st : State) (v : list Card) : State :=
  mkState (players st) (comm st) (pot st) (dealer st) (hbet st) (aq st) v (SB st) (BB st).

(** The handler a handler schedules before it returns. *)
Inductive Next :=
  | GoGameOver
  | GoPreflop
  | GoNextAction
  | GoTurn (idx : nat) (call mr : Z)   (* a decision is awaited, then [apply] *)
  | GoAdvance
  | GoEndHand
  | GoDealBtn.

(** [deck.pop()] *)
Definition pop {A} (l : list A) : option (A * list A) :=
  match reverse l with
  | [] => None
  | x :: r => Some (x, reverse r)
  end.

(** [next(p for p in self.players if p['human'])] *)
Definition find_human (ps : list Player) : option Player :=
  head (filter (λ p, human p = true) ps).

(** The dealing loop of [start_hand]. *)
Fixpoint deal_hands (ps : list Player) (d : list Card)
  : option (list Player * list Card) :=
  match ps with
  | [] => Some ([], d)
  | p :: ps' =>
      if 0 <? stack p then
        '(c1, d1) ← pop d;
        '(c2, d2) ← pop d1;
        '(ps2, d3) ← deal_hands ps' d2;
        Some (set_bet (set_folded (set_hand p [c1; c2]) false) 0 :: ps2, d3)
      else
        '(ps2, d3) ← deal_hands ps' d;
        Some (set_bet (set_folded (set_hand p []) true) 0 :: ps2, d3)
  end.

(** [start_hand]; [shuffled] is [make_deck()] after [random.shuffle]. *)
Definition start_hand (st : State) (shuffled : list Card) : option (State * Next) :=
  me ← find_human (players st);
  if stack me =? 0 then Some (st, GoGameOver)
  else
    let alive := filter (λ p, 0 < stack p) (players st) in
    if bool_decide (length alive = 1%nat) && from_option human false (head alive)
    then Some (st, GoGameOver)
    else
      let st := set_pot (set_comm st []) 0 in
      '(ps, d) ← deal_hands (players st) shuffled;
      Some (set_deck (set_players st ps) d, GoPreflop).

(** The inner function [next_alive] of [preflop]; it returns [None] (and
    the caller then fails on indexing with it) when nobody has chips.  The
    table has four seats; a seat missing from a shorter list reads as one
    without chips. *)
Definition next_alive (ps : list Player) (after : nat) : option nat :=
  head (filter (λ i, from_option (λ p, bool_decide (0 < stack p)) false (ps !! i) = true)
          (map (λ off, (after + off) `mod` 4)%nat [1; 2; 3; 4]%nat)).

(** One pass of the blinds loop of [preflop], for the player at seat [i]. *)
Definition post_blind (st : State) (i : nat) (a : Z) : option State :=
  p ← players st !! i;
  let pd := Z.min a (stack p) in
  Some (set_pot (set_players st (<[i := commit p pd]> (players st))) (pot st + pd)).

(** The loop of [preflop] that builds the first action queue. *)
Fixpoint preflop_order (ps : list Player) (n i : nat) (order : list nat)
  : option (list nat) :=
  match n with
  | O => Some order
  | S n' =>
      p ← ps !! i;
      let order' :=
        if bool_decide (0 < stack p) && negb (folded p) && bool_decide (i ∉ order)
        then order ++ [i] else order in
      preflop_order ps n' ((i + 1) `mod` 4)%nat order'
  end.

(** [preflop] *)
Definition preflop (st : State) : option (State * Next) :=
  let st := set_hbet st 0 in
  seats ← mapM (λ i, players st !! i) [0; 1; 2; 3]%nat;
  let alive_idxs := filter (λ p, 0 < stack p) seats in
  if bool_decide (length alive_idxs < 2)%nat then Some (st, GoEndHand)
  else
    sbi ← next_alive (players st) (dealer st);
    bbi ← next_alive (players st) sbi;
    st ← post_blind st sbi (SB st);
    st ← post_blind st bbi (BB st);
    bb ← players st !! bbi;
    let st := set_hbet st (bet bb) in
    start ← next_alive (players st) bbi;
    order ← preflop_order (players st) 4 start [];
    Some (set_aq st order, GoNextAction).

(** The queue built by [street]. *)
Definition street_queue (ps : list Player) (start : nat) : option (list nat) :=
  seats ← mapM (λ i, let j := ((start + i) `mod` 4)%nat in
                     p ← ps !! j; Some (j, p)) [0; 1; 2; 3]%nat;
  Some (map fst (filter (λ jp, folded jp.2 = false ∧ 0 < stack jp.2) seats)).

(** [street(name, cards)] *)
Definition street (st : State) (cards : list Card) : option (State * Next) :=
  let st := set_comm st (comm st ++ cards) in
  let st := set_players st (map (λ p, set_bet p 0) (players st)) in
  let st := set_hbet st 0 in
  let start := ((dealer st + 1) `mod` 4)%nat in
  q ← street_queue (players st) start;
  Some (set_aq st q, GoNextAction).

(** [[p for p in self.players if not p['folded']]] *)
Definition active (ps : list Player) : list Player :=
  filter (λ p, folded p = false) ps.

(** [next_action] up to the point where it asks for a decision. *)
Definition next_action (st : State) : option (State * Next) :=
  if bool_decide (length (active (players st)) ≤ 1)%nat then Some (st, GoEndHand)
  else
    match aq st with
    | [] => Some (st, GoAdvance)
    | idx :: rest =>
        let st := set_aq st rest in
        p ← players st !! idx;
        if folded p || (stack p =? 0) then Some (st, GoNextAction)
        else
          let call := Z.max 0 (hbet st - bet p) in
          let mr := Z.max (BB st) (hbet st * 2) - bet p in
          Some (st, GoTurn idx call mr)
    end.

(** [n] times [self.deck.pop()], in the order of the calls. *)
Fixpoint pop_n {A} (n : nat) (d : list A) : option (list A * list A) :=
  match n with
  | O => Some ([], d)
  | S n' =>
      '(c, d1) ← pop d;
      '(cs, d2) ← pop_n n' d1;
      Some (c :: cs, d2)
  end.

(** [advance], with the [street] call it schedules. *)
Definition advance (st : State) : option (State * Next) :=
  if bool_decide (length (active (players st)) ≤ 1)%nat then Some (st, GoEndHand)
  else
    let n := length (comm st) in
    let deal k := '(cs, d) ← pop_n k (deck st); street (set_deck st d) cs in
    if bool_decide (n = 0)%nat then deal 3%nat
    else if bool_decide (n = 3)%nat then deal 1%nat
    else if bool_decide (n = 4)%nat then deal 1%nat
    else Some (st, GoEndHand).

(** One pass of the loop of [apply] that reopens the action after a raise:
    seat [i] holds [q], [p] is the raiser. *)
Definition reopen_step (p : Player) (hb : Z) (queue : list nat)
    (iq : nat * Player) : list nat :=
  let '(i, q) := iq in
  if negb (folded q) && bool_decide (q ≠ p) && bool_decide (0 < stack q)
     && bool_decide (bet q < hb) && bool_decide (i ∉ queue)
  then queue ++ [i] else queue.

Definition reopen (ps : list Player) (p : Player) (hb : Z) (queue : list nat)
  : list nat :=
  fold_left (reopen_step p hb) (imap (λ i q, (i, q)) ps) queue.

(** The test of the reopening loop against the queue as it was before the
    loop, for the seat/player pair [iq]. *)
Definition reopen_wanted (p : Player) (hb : Z) (queue : list nat)
    (iq : nat * Player) : Prop :=
  folded iq.2 = false ∧ iq.2 ≠ p ∧ 0 < stack iq.2 ∧ bet iq.2 < hb ∧ (iq.1 ∉ queue).

#[global] Instance reopen_wanted_dec p hb queue iq :
  Decision (reopen_wanted p hb queue iq).
Proof. unfold reopen_wanted. apply _. Defined.

(** [apply(idx, p, act, amt, call, mr)] where [p] is [self.players[idx]]. *)
Definition apply (st : State) (idx : nat) (act : Action) (amt call mr : Z)
  : option (State * Next) :=
  p ← players st !! idx;
  match act with
  | Fold =>
      Some (set_players st (<[idx := set_folded p true]> (players st)), GoNextAction)
  | Check => Some (st, GoNextAction)
  | Call =>
      let pd := Z.min call (stack p) in
      let st := set_players st (<[idx := commit p pd]> (players st)) in
      Some (set_pot st (pot st + pd), GoNextAction)
  | Raise =>
      let pd := Z.min (call + amt) (stack p) in
      let p' := commit p pd in
      let st := set_players st (<[idx := p']> (players st)) in
      let st := set_pot st (pot st + pd) in
      if bet p' >? hbet st then
        let st := set_hbet st (bet p') in
        Some (set_aq st (reopen (players st) p' (hbet st) (aq st)), GoNextAction)
      else Some (st, GoNextAction)
  end.

(** The seats of the players still in the hand. *)
Definition active_seats (ps : list Player) : list (nat * Player) :=
  filter (λ ip, folded ip.2 = false) (imap (λ i p, (i, p)) ps).

(** [w['stack']+=v] for the player at seat [i]. *)
Definition award (ps : list Player) (i : nat) (v : Z) : list Player :=
  match ps !! i with
  | Some w => <[i := set_stack w (stack w + v)]> ps
  | None => ps
  end.

(** The ranking of a showdown: [sorted([(hand_rank(...), p) ...],
    reverse=True, key=...)].  With two or more entries the sort compares
    the keys, which raises [TypeError] when one is [None]. *)
Definition showdown_ranked (ps : list Player) (cm : list Card)
  : option (list (HandRank * nat)) :=
  let entries := (λ ip : nat * Player, (hand_rank (hand ip.2 ++ cm), ip.1))
                   <$> active_seats ps in
  keyed ← mapM (λ e : option HandRank * nat, r ← e.1; Some (r, e.2)) entries;
  Some (Py.sorted_rev hr_ltb fst keyed).

(** The seats of the winners of a showdown, in ranking order. *)
Definition showdown_winners (ps : list Player) (cm : list Card)
  : option (list nat) :=
  ranked ← showdown_ranked ps cm;
  best ← head ranked;
  Some ((filter (λ rp, rp.1 = best.1) ranked).*2).

(** The rotation of the dealer button at the end of [end_hand]. *)
Definition rotate_dealer (st : State) : State :=
  match next_alive (players st) (dealer st) with
  | Some nxt => set_dealer st nxt
  | None => st
  end.

(** [end_hand]: the payout and the rotation of the dealer button.  The
    statistics, the log and history texts and the drawing are not modelled,
    nor is the lookup of the human for the statistics of a showdown; the
    refresh of the hand panel it calls after the payout is
    [update_hand_info] below.  Both need the human [App] seats. *)
Definition end_hand (st : State) : option (State * Next) :=
  match active_seats (players st) with
  | [(i, w)] =>
      let st := set_players st (award (players st) i (pot st)) in
      Some (rotate_dealer st, GoDealBtn)
  | _ =>
      winners ← showdown_winners (players st) (comm st);
      let split := pot st `div` Z.of_nat (length winners) in
      let ps := fold_left (λ ps i, award ps i split) winners (players st) in
      Some (rotate_dealer (set_players st ps), GoDealBtn)
  end.

(** The seats [end_hand] pays: the one player left, or the winners of the
    showdown. *)
Definition hand_winners (st : State) : option (list nat) :=
  match active_seats (players st) with
  | [(i, w)] => Some [i]
  | _ => showdown_winners (players st) (comm st)
  end.

(** [Σ p['stack'] + self.pot] *)
Definition sum_stacks (ps : list Player) : Z :=
  foldr (λ p acc, stack p + acc) 0 ps.

Definition chips (st : State) : Z := sum_stacks (players st) + pot st.

(** The handlers a hand goes through before the pot is distributed, as
    events, and the state a sequence of them leaves. *)
Inductive Event :=
  | EvPreflop
  | EvNextAction
  | EvApply (idx : nat) (act : Action) (amt call mr : Z)
  | EvAdvance
  | EvStreet (cards : list Card).

Definition handle (st : State) (ev : Event) : option (State * Next) :=
  match ev with
  | EvPreflop => preflop st
  | EvNextAction => next_action st
  | EvApply idx act amt call mr => apply st idx act amt call mr
  | EvAdvance => advance st
  | EvStreet cards => street st cards
  end.

Fixpoint run (st : State) (evs : list Event) : option State :=
  match evs with
  | [] => Some st
  | ev :: evs' => '(st', _) ← handle st ev; run st' evs'
  end.

(** ** Sample tables *)

Definition seat (nm : string) (chips : Z) (hum : bool) (cards : list Card)
    (fd : bool) (b : Z) (pers : string) : Player :=
  mkPlayer nm chips hum cards fd b pers.

(** The table as [App.__init__] builds it, with stacks of 1000. *)
Definition table0 : State :=
  mkState [ seat "You" 1000 true [] false 0 "";
            seat "Ann" 1000 false [] false 0 "aggressive";
            seat "Bob" 1000 false [] false 0 "tight";
            seat "Cy" 1000 false [] false 0 "loose" ]
    [] 0 0 0 [] [] 10 20.

(** [table0] after [start_hand] on the unshuffled deck. *)
Definition table1 : State :=
  Eval vm_compute in from_option fst table0 (start_hand table0 make_deck).

(** A preflop round: blinds, a raise, a call, a fold, a call, then the flop. *)
Definition sample_events : list Event :=
  [ EvPreflop;
    EvNextAction; EvApply 3 Raise 40 20 40;
    EvNextAction; EvApply 0 Call 0 60 120;
    EvNextAction; EvApply 1 Fold 0 50 110;
    EvNextAction; EvApply 2 Call 0 40 100;
    EvNextAction; EvAdvance;
    EvNextAction; EvApply 2 Check 0 0 20 ].

Definition table2 : State :=
  Eval vm_compute in default table1 (run table1 sample_events).

(** [table1] after [preflop]: the blinds are in and the queue is set. *)
Definition table_preflop : State :=
  Eval vm_compute in default table1 (run table1 [EvPreflop]).

(** [table1] at the end of the preflop betting round, before the flop. *)
Definition table_before_flop : State :=
  Eval vm_compute in default table1 (run table1 (take 10 sample_events)).

(** Four players with equal bets of 20 and an empty queue; seat 1 is to act. *)
Definition table_equal_bets : State :=
  mkState [ seat "You" 980 true [] false 20 "";
            seat "Ann" 980 false [] false 20 "aggressive";
            seat "Bob" 980 false [] false 20 "tight";
            seat "Cy" 980 false [] false 20 "loose" ]
    [] 80 0 20 [] [] 10 20.

(** A bet to match of 200 and a player at seat 1 with 50 chips left. *)
Definition table_short_stack : State :=
  mkState [ seat "You" 800 true [] false 200 "";
            seat "Ann" 50 false [] false 20 "aggressive";
            seat "Bob" 980 false [] false 20 "tight";
            seat "Cy" 980 false [] true 0 "loose" ]
    [] 240 0 200 [2%nat] [] 10 20.

(** A big blind posted short: seat 1 had 5 chips left for the big blind of
    20, so the bet to match is 5 while the human at seat 0 has the small
    blind of 10 in; seats 2 and 3 have called 5. *)
Definition table_short_blind : State :=
  mkState [ seat "You" 990 true [] false 10 "";
            seat "Ann" 0 false [] false 5 "aggressive";
            seat "Bob" 995 false [] false 5 "tight";
            seat "Cy" 995 false [] false 5 "loose" ]
    [] 25 3 5 [] [] 10 20.

(** Everybody but seat 2 has folded; the pot holds 30. *)
Definition table_uncontested : State :=
  mkState [ seat "You" 1000 true [] true 0 "";
            seat "Ann" 990 false [] true 10 "aggressive";
            seat "Bob" 980 false [] false 20 "tight";
            seat "Cy" 1000 false [] true 0 "loose" ]
    [] 30 0 20 [] [] 10 20.

(** A showdown: seats 0 and 2 both hold a ten for the same straight, seat 3
    holds two pair, seat 1 has folded; the pot holds 101. *)
Definition table_showdown : State :=
  mkState [ seat "You" 950 true [(R10, Spade); (R2, Club)] false 0 "";
            seat "Ann" 1000 false [(R7, Club); (R8, Club)] true 0 "aggressive";
            seat "Bob" 950 false [(R10, Heart); (R2, Diamond)] false 0 "tight";
            seat "Cy" 999 false [(RA, Heart); (R3, Club)] false 0 "loose" ]
    [(RA, Spade); (RK, Diamond); (RQ, Club); (RJ, Heart); (R3, Diamond)]
    101 0 0 [] [] 10 20.

(** ** Sample inputs *)

Definition sample_seven : list Card :=
  [(R5, Spade); (RK, Heart); (R5, Diamond); (R2, Club); (RK, Spade);
   (R5, Club); (R9, Club)].

Definition sample_wheel : list Card :=
  [(R5, Spade); (R4, Heart); (R3, Diamond); (R2, Club); (RA, Spade)].

Definition sample_six_high : list Card :=
  [(R6, Spade); (R5, Heart); (R4, Diamond); (R3, Club); (R2, Spade)].

Definition sample_hole : list Card := [(RA, Spade); (RK, Spade)].
Definition sample_flop : list Card := [(RQ, Spade); (R7, Heart); (R2, Diamond)].

(** A shuffle that reverses the deck. *)
Definition reverse_shuffle (k : nat) (d : list Card) : list Card := reverse d.

(** Exact rational arithmetic standing in for the floats: an int converts
    when it is below [2^1024] in absolute value, quotients are exact and
    [int(x)] truncates towards zero. *)
Definition rational_floats : FloatOps :=
  {| F := Q;
     f_lit := λ q, q;
     f_of_int := λ n, if Z.abs n <? 2 ^ 1024 then Some (inject_Z n) else None;
     f_add := Qplus;
     f_mul := Qmult;
     f_int_div := λ a b, Some (inject_Z a / inject_Z b)%Q;
     f_ltb := λ a b, if Qlt_le_dec a b then true else false;
     f_int := λ q, Some (Qnum q ÷ Z.pos (Qden q)) |}.

Definition sample_random : BotRandom rational_floats :=
  Build_BotRandom rational_floats reverse_shuffle (1 # 2)%Q (1 # 4)%Q (6 # 10)%Q.

Definition sample_bot : Player :=
  seat "Ann" 980 false sample_hole false 20 "aggressive".

(** ** The rest of the card engine and of [App] *)

(** [HNAMES[c]]; [None] is the [KeyError] of a missing key. *)
Definition HNAMES (c : Z) : option string :=
  if c =? 8 then Some "Straight Flush"%string
  else if c =? 7 then Some "Four of a Kind"%string
  else if c =? 6 then Some "Full House"%string
  else if c =? 5 then Some "Flush"%string
  else if c =? 4 then Some "Straight"%string
  else if c =? 3 then Some "Three of a Kind"%string
  else if c =? 2 then Some "Two Pair"%string
  else if c =? 1 then Some "Pair"%string
  else if c =? 0 then Some "High Card"%string
  else None.

(** [best_hand_name(hole, comm)]; [None] is an exception: the [TypeError]
    of [r[0]] on [None], or a [KeyError]. *)
Definition best_hand_name (hole comm : list Card) : option string :=
  r ← hand_rank (hole ++ comm);
  HNAMES r.1.

(** The number of times the value [v] occurs among [vals]. *)
Definition occurrences (v : Z) (vals : list Z) : nat :=
  length (filter (λ x, x = v) vals).

(** The rank values of a hand, in the order of the cards. *)
Definition rank_vals (cards : list Card) : list Z :=
  map (λ c : Card, RANK_VAL c.1) cards.

(** Five values that are consecutive, or the wheel. *)
Definition straight_vals (vals : list Z) : Prop :=
  (∃ h, vals ≡ₚ [h; h - 1; h - 2; h - 3; h - 4]) ∨ vals ≡ₚ [14; 5; 4; 3; 2].

(** [standings=sorted(self.players,key=lambda p:p['stack'],reverse=True)]
    of [game_over]. *)
Definition standings (ps : list Player) : list Player :=
  Py.sorted_rev Z.ltb stack ps.

(** [winner=standings[0]]; [None] is the [IndexError] of an empty table. *)
Definition game_winner (ps : list Player) : option Player :=
  head (standings ps).

(** The test of [deal_btn]: [true] when it calls [game_over], [false] when
    it shows the button that starts the next hand. *)
Definition deal_btn (st : State) : option bool :=
  me ← find_human (players st);
  if stack me =? 0 then Some true
  else Some (bool_decide (length (filter (λ p, 0 < stack p) (players st)) = 1%nat)).

(** What [update_hand_info] puts in the hand panel: nothing for a human
    without cards, the name and the category of the best hand once the flop
    is out, the two hole cards with the "suited" and "Pocket Pair" marks
    before. *)
Inductive HandInfo :=
  | NoHand
  | MadeHand (hn : string) (category : Z)
  | HoleCards (c1 c2 : Card) (suited pair : bool).

(** [update_hand_info], up to the text of the strength label; [None] is an
    exception: no human, the [TypeError] of [best_hand_name] on fewer than
    five cards, or the [IndexError] of a hand of one card.  The odds are
    computed in a thread of their own, once the flop is out, and an
    exception there does not reach the caller. *)
Definition update_hand_info (st : State) : option HandInfo :=
  me ← find_human (players st);
  match hand me with
  | [] => Some NoHand
  | _ =>
      if (3 <=? length (comm st))%nat then
        hn ← best_hand_name (hand me) (comm st);
        rank ← hand_rank (hand me ++ comm st);
        Some (MadeHand hn rank.1)
      else
        c1 ← hand me !! 0%nat;
        c2 ← hand me !! 1%nat;
        Some (HoleCards c1 c2 (bool_decide (c1.2 = c2.2))
                (bool_decide (c1.1 = c2.1)))
  end.

(** What the human can submit on a turn: the three buttons, or the raise
    entry with what [int(self.rv.get())] makes of it ([None] when it
    raises). *)
Inductive HumanInput :=
  | BtnFold
  | BtnCheckCall
  | BtnAllIn
  | BtnRaise (entry : option Z).

(** Why [do_raise] rejects an entry, with the bound it reports. *)
Inductive Rejection :=
  | NotANumber                 (* "Enter a valid number!" *)
  | BelowMinimum (rmin : Z)    (* "Minimum raise is $rmin!" *)
  | AboveStack (rmax : Z).     (* "You only have $rmax!" *)

(** [human_turn] for the player at seat [idx], with the input that
    follows: either the rejection [do_raise] logs, which changes nothing,
    or the result of the [apply] call. *)
Definition human_turn (st : State) (idx : nat) (call mr : Z) (inp : HumanInput)
  : option (Rejection + State * Next) :=
  p ← players st !! idx;
  match inp with
  | BtnFold => inr <$> apply st idx Fold 0 call mr
  | BtnCheckCall =>
      inr <$> apply st idx (if call =? 0 then Check else Call) 0 call mr
  | BtnAllIn => inr <$> apply st idx Raise (stack p - call) call mr
  | BtnRaise entry =>
      let rmin := Z.max mr 1 in
      let rmax := stack p in
      match entry with
      | None => Some (inl NotANumber)
      | Some amt =>
          if amt <? rmin then Some (inl (BelowMinimum rmin))
          else if rmax <? amt then Some (inl (AboveStack rmax))
          else inr <$> apply st idx Raise amt call mr
      end
  end.


(** The table [App.__init__] builds from the setup: [nm] and [stk], [sb],
    [bb] come from the dialog, [b1], [b2], [b3] are the names drawn for the
    bots and [d] is [random.randint(0,3)]. *)
Definition init_table (nm b1 b2 b3 : string) (stk sb bb : Z) (d : nat) : State :=
  mkState [ mkPlayer nm stk true [] false 0 "";
            mkPlayer b1 stk false [] false 0 "aggressive";
            mkPlayer b2 stk false [] false 0 "tight";
            mkPlayer b3 stk false [] false 0 "loose" ]
    [] 0 d 0 [] [] sb bb.

(** The check of [start] in [setup_dialog], on what [int()] makes of the
    two entries: the stack, the small blind and the big blind of the
    configuration, or [None] for "Invalid numbers!". *)
Definition setup_start (stack_entry sb_entry : option Z) : option (Z * Z * Z) :=
  match stack_entry, sb_entry with
  | Some stk, Some sb =>
      if (0 <? stk) && (0 <? sb) then Some (stk, sb, sb * 2) else None
  | _, _ => None
  end.

(** [p['name']=nm] *)
Definition set_name (p : Player) (nm : string) : Player :=
  mkPlayer nm (stack p) (human p) (hand p) (folded p) (bet p) (persona p).

(** [for i,nm in enumerate(bot_names): self.players[i+1]['name']=nm], from
    the index [i]; [None] is the [IndexError] of a seat that does not
    exist. *)
Fixpoint rename_bots (i : nat) (names : list string) (ps : list Player)
  : option (list Player) :=
  match names with
  | [] => Some ps
  | nm :: names' =>
      p ← ps !! i;
      rename_bots (S i) names' (<[i := set_name p nm]> ps)
  end.

(** [reset], the "Play Again" of the game-over screen: [start_stack] is
    [self.start_stack], [bot_names] the names [_pick_bot_names] draws and
    [d] is [random.randint(0,3)].  [hbet], [aq] and the deck are left to
    the next [start_hand] and [preflop]. *)
Definition reset (st : State) (start_stack : Z) (bot_names : list string)
    (d : nat) : option State :=
  let ps := map (λ p, mkPlayer (name p) start_stack (human p) [] false 0
                        (persona p)) (players st) in
  _ ← ps !! 0%nat;
  ps ← rename_bots 1 bot_names ps;
  Some (mkState ps [] 0 d (hbet st) (aq st) (deck st) (SB st) (BB st)).

(** A seat of the same player: name, kind and persona. *)
Definition same_player (p q : Player) : Prop :=
  name q = name p ∧ human q = human p ∧ persona q = persona p.

(** A seat whose player has chips, the test of [next_alive]. *)
Definition seat_funded (ps : list Player) (i : nat) : bool :=
  from_option (λ p, bool_decide (0 < stack p)) false (ps !! i).

(** A seat that can still act: not folded, with chips. *)
Definition seat_live (ps : list Player) (i : nat) : bool :=
  from_option (λ p, negb (folded p) && bool_decide (0 < stack p)) false (ps !! i).

(** The shape every table of the game has: four seats, pairwise distinct
    personas, no negative stack, pot or blind. *)
Definition table_ok (st : State) : Prop :=
  length (players st) = 4%nat ∧
  NoDup (persona <$> players st) ∧
  Forall (λ p, 0 ≤ stack p) (players st) ∧
  0 ≤ pot st ∧ 0 ≤ SB st ∧ 0 ≤ BB st.

(** An event that moves no chips out of the pot: the amount to call is
    not negative, and neither is what a raise commits. *)
Definition event_ok (ev : Event) : Prop :=
  match ev with
  | EvApply _ Call _ call _ => 0 ≤ call
  | EvApply _ Raise amt call _ => 0 ≤ call + amt
  | _ => True
  end.

(** What [start_hand] makes of a player: it keeps who the player is and
    the stack, clears the bet, and deals two cards to a player with chips
    or folds a player without. *)
Definition dealt (p p' : Player) : Prop :=
  name p' = name p ∧ stack p' = stack p ∧ human p' = human p ∧
  persona p' = persona p ∧ bet p' = 0 ∧
  if decide (0 < stack p)
  then length (hand p') = 2%nat ∧ folded p' = false
  else hand p' = [] ∧ folded p' = true.

(** What a handler keeps of a player: who it is, its hole cards unless a
    new hand is dealt, and a fold once made. *)
Definition seat_kept (p p' : Player) : Prop :=
  name p' = name p ∧ human p' = human p ∧ persona p' = persona p ∧
  hand p' = hand p ∧ (folded p = true → folded p' = true).

(** One handler's effect on a player: the player is kept, and a stack
    that was not negative is not negative afterwards. *)
Definition seat_step (p p' : Player) : Prop :=
  seat_kept p p' ∧ (0 ≤ stack p → 0 ≤ stack p').

(** ** The evaluator on sorted values

    What [score_five] computes once [vals] is sorted and [flush] is known,
    and the tests used to check its category over all sorted value
    lists. *)

Definition score_of (vals : list Z) (flush : bool) : HandRank :=
  let wheel := list_Z_eqb vals [14; 5; 4; 3; 2] in
  let st := list_Z_eqb vals (Py.range_down (hd 0 vals) 5) || wheel in
  let vals := if st && wheel then [5; 4; 3; 2; 1] else vals in
  let counts := Py.Counter vals in
  let freq := Py.sorted_rev Z.ltb id (map snd counts) in
  let grp := Py.sorted_rev Py.pair_ltb (λ v, (Py.counter_get counts v, v))
               (map fst counts) in
  if st && flush then (8, vals)
  else if list_Z_eqb freq [4; 1] then (7, grp)
  else if list_Z_eqb freq [3; 2] then (6, grp)
  else if flush then (5, vals)
  else if st then (4, vals)
  else if hd 0 freq =? 3 then (3, grp)
  else if list_Z_eqb (take 2 freq) [2; 2] then (2, grp)
  else if hd 0 freq =? 2 then (1, grp)
  else (0, vals).

(** Some value occurs exactly [k] times. *)
Definition has_count (k : nat) (vals : list Z) : Prop :=
  ∃ v, occurrences v vals = k.

(** Two different values occur exactly twice each. *)
Definition has_two_pairs (vals : list Z) : Prop :=
  ∃ v w, v ≠ w ∧ occurrences v vals = 2%nat ∧ occurrences w vals = 2%nat.

Definition has_countb (k : nat) (sv : list Z) : bool :=
  bool_decide (Exists (λ v, occurrences v sv = k) sv).

Definition has_two_pairsb (sv : list Z) : bool :=
  bool_decide (Exists (λ v, occurrences v sv = 2%nat ∧
                            Exists (λ w, v ≠ w ∧ occurrences w sv = 2%nat) sv) sv).

Definition straightb (sv : list Z) : bool :=
  bool_decide (sv = Py.range_down (hd 0 sv) 5 ∨ sv = [14; 5; 4; 3; 2]).

(** The category of [score_of] against the poker ranking table, on a
    sorted value list. *)
Definition class_check (sv : list Z) (fl : bool) : bool :=
  let c := (score_of sv fl).1 in
  let st := straightb sv in
  let h4 := has_countb 4 sv in
  let h3 := has_countb 3 sv in
  let h2 := has_countb 2 sv in
  let tp := has_two_pairsb sv in
  (c =? 8) && st && fl
  || (c =? 7) && h4
  || (c =? 6) && h3 && h2
  || (c =? 5) && fl && negb st && negb h4 && negb (h3 && h2)
  || (c =? 4) && st && negb fl
  || (c =? 3) && h3 && negb h2 && negb fl
  || (c =? 2) && tp && negb fl
  || (c =? 1) && h2 && negb tp && negb h3 && negb fl
  || (c =? 0) && negb h2 && negb h3 && negb h4 && negb st && negb fl.

Fixpoint descending (l : list Z) : Prop :=
  match l with
  | [] => True
  | x :: t => Forall (λ y, y ≤ x) t ∧ descending t
  end.

(** * Properties *)

(** ** Chip conservation *)

Lemma sum_stacks_insert (ps : list Player) (i : nat) (p p' : Player) :
  ps !! i = Some p →
  sum_stacks (<[i := p']> ps) = sum_stacks ps - stack p + stack p'.
Proof.
  revert i. induction ps as [|q ps IH]; intros [|i] Hi; simplify_eq/=.
  - lia.
  - rewrite (IH _ Hi). lia.
Qed.

Lemma sum_stacks_set_bet (ps : list Player) (v : Z) :
  sum_stacks (map (λ p, set_bet p v) ps) = sum_stacks ps.
Proof. induction ps as [|q ps IH]; simpl; [done | by rewrite IH]. Qed.

Lemma post_blind_chips (st st' : State) (i : nat) (a : Z) :
  post_blind st i a = Some st' → chips st' = chips st.
Proof.
  unfold post_blind. intros H.
  destruct (players st !! i) as [p|] eqn:Hp; simplify_eq/=.
  unfold chips; simpl. rewrite (sum_stacks_insert _ _ p) by done. simpl. lia.
Qed.

Lemma preflop_chips (st st' : State) (nx : Next) :
  preflop st = Some (st', nx) → chips st' = chips st.
Proof.
  unfold preflop. intros H.
  apply bind_Some in H as (seats & _ & H).
  case_bool_decide; [by simplify_eq|].
  apply bind_Some in H as (sbi & _ & H).
  apply bind_Some in H as (bbi & _ & H).
  apply bind_Some in H as (st1 & H1 & H).
  apply bind_Some in H as (st2 & H2 & H).
  apply bind_Some in H as (bb & _ & H).
  apply bind_Some in H as (start & _ & H).
  apply bind_Some in H as (order & _ & H).
  apply post_blind_chips in H1, H2. simplify_eq.
  unfold chips in *; simpl in *. lia.
Qed.

Lemma street_chips (st st' : State) (cards : list Card) (nx : Next) :
  street st cards = Some (st', nx) → chips st' = chips st.
Proof.
  unfold street. intros H.
  apply bind_Some in H as (q & _ & H). simplify_eq.
  unfold chips; simpl. by rewrite sum_stacks_set_bet.
Qed.

Lemma next_action_chips (st st' : State) (nx : Next) :
  next_action st = Some (st', nx) → chips st' = chips st.
Proof.
  unfold next_action. intros H.
  case_bool_decide; [by simplify_eq|].
  destruct (aq st) as [|idx rest]; [by simplify_eq|].
  apply bind_Some in H as (p & _ & H).
  destruct (folded p || (stack p =? 0)); by simplify_eq.
Qed.

Lemma advance_chips (st st' : State) (nx : Next) :
  advance st = Some (st', nx) → chips st' = chips st.
Proof.
  unfold advance. intros H.
  repeat (case_bool_decide; [try by simplify_eq|]); try by simplify_eq.
  all: apply bind_Some in H as ([cs d] & _ & H);
    apply street_chips in H; by rewrite H.
Qed.

Lemma apply_chips (st st' : State) (idx : nat) (act : Action)
    (amt call mr : Z) (nx : Next) :
  apply st idx act amt call mr = Some (st', nx) → chips st' = chips st.
Proof.
  unfold apply. intros H.
  apply bind_Some in H as (p & Hp & H).
  destruct act; [| by simplify_eq | |].
  - simplify_eq. unfold chips; simpl.
    rewrite (sum_stacks_insert _ _ p) by done. simpl. lia.
  - simplify_eq. unfold chips; simpl.
    rewrite (sum_stacks_insert _ _ p) by done. simpl. lia.
  - cbn zeta in H. destruct (_ >? _); simplify_eq;
      unfold chips; simpl; rewrite (sum_stacks_insert _ _ p) by done; simpl; lia.
Qed.

Lemma handle_chips (st st' : State) (ev : Event) (nx : Next) :
  handle st ev = Some (st', nx) → chips st' = chips st.
Proof.
  destruct ev; simpl; eauto using preflop_chips, next_action_chips,
    apply_chips, advance_chips, street_chips.
Qed.

(** ** The hand before distribution *)

Lemma deal_hands_stacks (ps ps' : list Player) (d d' : list Card) :
  deal_hands ps d = Some (ps', d') → sum_stacks ps' = sum_stacks ps.
Proof.
  revert ps' d d'. induction ps as [|p ps IH]; intros ps' d d' H; simpl in H.
  - by simplify_eq.
  - destruct (0 <? stack p).
    + apply bind_Some in H as ([c1 d1] & _ & H).
      apply bind_Some in H as ([c2 d2] & _ & H).
      apply bind_Some in H as ([ps2 d3] & Hrec & H).
      simplify_eq. simpl. by rewrite (IH _ _ _ Hrec).
    + apply bind_Some in H as ([ps2 d3] & Hrec & H).
      simplify_eq. simpl. by rewrite (IH _ _ _ Hrec).
Qed.

Lemma start_hand_deals (st st' : State) (shuffled : list Card) :
  start_hand st shuffled = Some (st', GoPreflop) →
  pot st' = 0 ∧ sum_stacks (players st') = sum_stacks (players st).
Proof.
  unfold start_hand. intros H.
  apply bind_Some in H as (me & _ & H).
  destruct (stack me =? 0); [by simplify_eq|].
  destruct (_ && _); [by simplify_eq|].
  apply bind_Some in H as ([ps d] & Hd & H). simplify_eq. simpl in *.
  split; [done|]. by apply deal_hands_stacks in Hd.
Qed.

Lemma run_chips (st st' : State) (evs : list Event) :
  run st evs = Some st' → chips st' = chips st.
Proof.
  revert st. induction evs as [|ev evs IH]; intros st H; simpl in H.
  - by simplify_eq.
  - apply bind_Some in H as ([st1 nx] & H1 & H).
    rewrite (IH _ H). by apply handle_chips in H1.
Qed.

(** C1.  From the state [start_hand] leaves (pot 0, stacks as they were),
    after any sequence of the handlers that run before the pot is
    distributed (the blind posts of [preflop], [next_action], [apply] with
    a fold, check, call or raise, [advance], [street]), the players' stacks
    plus the pot add up to the chips the players held when the hand
    started. *)
Theorem betting_invariant (st0 st st' : State) (shuffled : list Card)
    (evs : list Event) :
  start_hand st0 shuffled = Some (st, GoPreflop) →
  run st evs = Some st' →
  sum_stacks (players st') + pot st' = sum_stacks (players st0).
Proof.
  intros Hs Hr. apply start_hand_deals in Hs as [Hp Hsum].
  apply run_chips in Hr. unfold chips in Hr. lia.
Qed.

(** ** Raises and the action queue *)

Lemma filter_ext_elem {A} (P Q : A → Prop) `{∀ x, Decision (P x)}
    `{∀ x, Decision (Q x)} (l : list A) :
  (∀ x, x ∈ l → P x ↔ Q x) → filter P l = filter Q l.
Proof.
  induction l as [|x l IH]; intros HPQ; [done|].
  rewrite !filter_cons.
  rewrite IH by (intros y Hy; apply HPQ; by right).
  assert (P x ↔ Q x) as Hx by (apply HPQ; by left).
  destruct (decide (P x)) as [HP|HP], (decide (Q x)) as [HQ|HQ]; tauto.
Qed.

Lemma reopen_fold (p : Player) (hb : Z) (l : list (nat * Player))
    (queue : list nat) :
  NoDup (l.*1) →
  fold_left (reopen_step p hb) l queue
  = queue ++ (filter (reopen_wanted p hb queue) l).*1.
Proof.
  revert queue. induction l as [|[i q] l IH]; intros queue Hnd; simpl.
  - by rewrite app_nil_r.
  - apply NoDup_cons in Hnd as [Hi Hnd].
    rewrite filter_cons.
    destruct (decide (reopen_wanted p hb queue (i, q))) as [Hw|Hw].
    + destruct Hw as (Hf & Hne & Hs & Hb & Hq); simpl in *.
      rewrite Hf. simpl.
      rewrite !bool_decide_eq_true_2 by done. simpl.
      rewrite IH by done. rewrite <-app_assoc. simpl. do 3 f_equal.
      apply filter_ext_elem. intros [j r] Hj. unfold reopen_wanted; simpl.
      assert (j ≠ i).
      { intros ->. apply Hi. apply list_elem_of_fmap. by exists (i, r). }
      rewrite elem_of_app, list_elem_of_singleton. tauto.
    + assert (negb (folded q) && bool_decide (q ≠ p) && bool_decide (0 < stack q)
              && bool_decide (bet q < hb) && bool_decide (i ∉ queue) = false) as ->.
      { apply not_true_is_false. intros Ht. apply Hw.
        rewrite !andb_true_iff, !bool_decide_eq_true, negb_true_iff in Ht.
        unfold reopen_wanted; simpl. tauto. }
      by apply IH.
Qed.

Lemma imap_pair_fst {A} (l : list A) :
  (imap (λ i x, (i, x)) l).*1 = seq 0 (length l).
Proof.
  apply list_eq. intros i. rewrite list_lookup_fmap, list_lookup_imap.
  destruct (l !! i) as [x|] eqn:E; simpl; symmetry.
  - apply lookup_seq. split; [done|]. by eapply lookup_lt_Some.
  - apply lookup_seq_ge. by apply lookup_ge_None in E.
Qed.

Lemma reopen_spec (ps : list Player) (p : Player) (hb : Z) (queue : list nat) :
  reopen ps p hb queue
  = queue ++ (filter (reopen_wanted p hb queue) (imap (λ i q, (i, q)) ps)).*1.
Proof.
  unfold reopen. apply reopen_fold. rewrite imap_pair_fst. apply NoDup_seq.
Qed.

Lemma reopen_added_NoDup (ps : list Player) (p : Player) (hb : Z)
    (queue : list nat) :
  NoDup ((filter (reopen_wanted p hb queue) (imap (λ i q, (i, q)) ps)).*1).
Proof.
  apply (sublist_NoDup _ (seq 0 (length ps))); [apply NoDup_seq|].
  rewrite <-(imap_pair_fst ps). apply fmap_sublist, sublist_filter.
Qed.

Lemma reopen_added_elem (ps : list Player) (p : Player) (hb : Z)
    (queue : list nat) (i : nat) :
  i ∈ (filter (reopen_wanted p hb queue) (imap (λ i q, (i, q)) ps)).*1 ↔
  ∃ q, ps !! i = Some q ∧ reopen_wanted p hb queue (i, q).
Proof.
  rewrite list_elem_of_fmap. split.
  - intros ([j q] & -> & Hin). apply list_elem_of_filter in Hin as [Hw Hin].
    apply elem_of_lookup_imap in Hin as (k & r & Heq & Hk). simplify_eq.
    by exists r.
  - intros (q & Hq & Hw). exists (i, q). split; [done|].
    apply list_elem_of_filter. split; [done|].
    apply elem_of_lookup_imap. by exists i, q.
Qed.

(** What [apply] does with a raise, in both outcomes of its test. *)
Lemma apply_raise (st : State) (idx : nat) (p : Player) (amt call mr : Z) :
  players st !! idx = Some p →
  let pd := Z.min (call + amt) (stack p) in
  let p' := commit p pd in
  let ps' := <[idx := p']> (players st) in
  apply st idx Raise amt call mr =
    Some (if bet p' >? hbet st
          then mkState ps' (comm st) (pot st + pd) (dealer st) (bet p')
                 (reopen ps' p' (bet p') (aq st)) (deck st) (SB st) (BB st)
          else mkState ps' (comm st) (pot st + pd) (dealer st) (hbet st)
                 (aq st) (deck st) (SB st) (BB st),
          GoNextAction).
Proof.
  intros Hp. unfold apply. rewrite Hp. simpl.
  by destruct (_ >? _).
Qed.

Lemma distinct_personas (ps : list Player) (i j : nat) (q p : Player) :
  NoDup (persona <$> ps) → ps !! i = Some q → ps !! j = Some p → i ≠ j →
  persona q ≠ persona p.
Proof.
  intros Hnd Hi Hj Hij Heq. apply Hij.
  apply (NoDup_lookup _ i j (persona q) Hnd); rewrite list_lookup_fmap.
  - by rewrite Hi.
  - rewrite Hj. simpl. by rewrite Heq.
Qed.

(** C2.  A raise whose resulting bet exceeds the bet to match sets the bet
    to match to that bet and appends to the action queue exactly the other
    seats that are not folded, have a non-zero stack, have a bet below the
    new bet to match and are not already queued, each once. *)
Theorem raise_reopens_action (st : State) (idx : nat) (p : Player)
    (amt call mr : Z) :
  players st !! idx = Some p →
  NoDup (persona <$> players st) →
  (∀ q, q ∈ players st → 0 ≤ stack q) →
  hbet st < bet p + Z.min (call + amt) (stack p) →
  ∃ st' added,
    apply st idx Raise amt call mr = Some (st', GoNextAction) ∧
    hbet st' = bet p + Z.min (call + amt) (stack p) ∧
    aq st' = aq st ++ added ∧
    NoDup added ∧
    ∀ i, i ∈ added ↔
         i ≠ idx ∧ (i ∉ aq st) ∧
         ∃ q, players st !! i = Some q ∧ folded q = false ∧ stack q ≠ 0 ∧
              bet q < hbet st'.
Proof.
  intros Hp Hnd Hpos Hgt.
  rewrite (apply_raise st idx p amt call mr Hp). cbn zeta.
  set (pd := Z.min (call + amt) (stack p)) in *.
  assert (bet (commit p pd) = bet p + pd) as Hbet by done.
  rewrite Hbet. replace (bet p + pd >? hbet st) with true
    by (symmetry; apply Z.gtb_lt; lia).
  eexists _, _. split; [done|]. simpl.
  split; [done|]. split; [apply reopen_spec|].
  split; [apply reopen_added_NoDup|].
  intros i. rewrite reopen_added_elem. unfold reopen_wanted; simpl. split.
  - intros (q & Hq & Hf & Hne & Hs & Hb & Hnq).
    destruct (decide (i = idx)) as [->|Hi].
    + rewrite list_lookup_insert_eq in Hq by (by eapply lookup_lt_Some).
      by simplify_eq.
    + rewrite list_lookup_insert_ne in Hq by done.
      split; [done|]. split; [done|]. exists q. repeat split; try done. lia.
  - intros (Hi & Hnq & q & Hq & Hf & Hs & Hb).
    exists q. rewrite list_lookup_insert_ne by done.
    repeat split; try done.
    + intros ->. by apply (distinct_personas _ _ _ _ _ Hnd Hq Hp Hi).
    + assert (0 ≤ stack q) by (apply Hpos; by eapply list_elem_of_lookup_2).
      lia.
Qed.

(** C10.  A raise that leaves the player's bet at or below the bet to match
    (an all-in for less) keeps the bet to match and the action queue as
    they were; only the chips move. *)
Theorem under_raise_keeps_queue (st : State) (idx : nat) (p : Player)
    (amt call mr : Z) :
  players st !! idx = Some p →
  bet p + Z.min (call + amt) (stack p) ≤ hbet st →
  ∃ st',
    apply st idx Raise amt call mr = Some (st', GoNextAction) ∧
    hbet st' = hbet st ∧
    aq st' = aq st ∧
    pot st' = pot st + Z.min (call + amt) (stack p) ∧
    players st' = <[idx := commit p (Z.min (call + amt) (stack p))]> (players st).
Proof.
  intros Hp Hle.
  rewrite (apply_raise st idx p amt call mr Hp). cbn zeta.
  set (pd := Z.min (call + amt) (stack p)) in *.
  assert (bet (commit p pd) = bet p + pd) as Hbet by done.
  rewrite Hbet. replace (bet p + pd >? hbet st) with false.
  - by eexists.
  - symmetry. apply not_true_is_false. rewrite Z.gtb_lt. lia.
Qed.

(** C9, as the code has it.  At a table of four [A], [B], [C], [D], none
    folded, all with chips and with equal bets, a raise by [B] (seat 1) that
    commits chips appends each of the seats 0, 2 and 3 that is not already
    queued to the action queue, in seat order: [A] is given the action again
    like [C] and [D]. *)
Theorem raise_requeues_all_others (st : State) (A B C D : Player)
    (amt call mr : Z) :
  players st = [A; B; C; D] →
  NoDup (persona <$> [A; B; C; D]) →
  (∀ q, q ∈ [A; C; D] → folded q = false ∧ 0 < stack q ∧ bet q = bet B) →
  hbet st = bet B →
  0 < Z.min (call + amt) (stack B) →
  ∃ st',
    apply st 1 Raise amt call mr = Some (st', GoNextAction) ∧
    aq st' = aq st ++ filter (λ i, i ∉ aq st) [0; 2; 3]%nat.
Proof.
  intros Hps Hnd Hall Hhb Hpd.
  assert (players st !! 1%nat = Some B) as Hp by (by rewrite Hps).
  rewrite (apply_raise st 1 B amt call mr Hp). cbn zeta.
  set (pd := Z.min (call + amt) (stack B)) in *.
  assert (bet (commit B pd) = bet B + pd) as Hbet by done.
  rewrite Hbet. replace (bet B + pd >? hbet st) with true
    by (symmetry; apply Z.gtb_lt; lia).
  eexists. split; [done|]. simpl.
  rewrite reopen_spec, Hps. f_equal. simpl.
  assert (∀ i q, [A; B; C; D] !! i = Some q → i ≠ 1%nat →
            reopen_wanted (commit B pd) (bet B + pd) (aq st) (i, q) ↔ i ∉ aq st)
    as Hw.
  { intros i q Hq Hi. unfold reopen_wanted; simpl.
    assert (q ∈ [A; C; D]) as Hin.
    { destruct i as [|[|[|[|i]]]]; simplify_eq/=; rewrite !elem_of_cons; tauto. }
    destruct (Hall q Hin) as (Hf & Hs & Hb).
    assert (q ≠ commit B pd).
    { intros ->. simpl in Hb. lia. }
    split; [tauto|]. intros. repeat split; try done. lia. }
  rewrite !filter_cons, !filter_nil.
  rewrite (decide_ext _ (0%nat ∉ aq st)) by (by apply Hw).
  rewrite (decide_ext (reopen_wanted _ _ _ (2%nat, C)) (2%nat ∉ aq st))
    by (by apply Hw).
  rewrite (decide_ext (reopen_wanted _ _ _ (3%nat, D)) (3%nat ∉ aq st))
    by (by apply Hw).
  destruct (decide (reopen_wanted _ _ _ (1%nat, commit B pd))) as [Hb|_].
  { by destruct Hb as (_ & Hne & _). }
  by destruct (decide (0%nat ∉ aq st)), (decide (2%nat ∉ aq st)),
    (decide (3%nat ∉ aq st)).
Qed.

(** ** The order on hand ranks *)

Lemma list_cmp_eq (a b : list Z) : Py.list_cmp a b = Eq ↔ a = b.
Proof.
  revert b. induction a as [|x a IH]; intros [|y b]; simpl; try done.
  destruct (Z.compare_spec x y) as [->|Hlt|Hgt].
  - rewrite IH. split; [by intros -> | by intros [=]].
  - split; [done | intros [=]; lia].
  - split; [done | intros [=]; lia].
Qed.

Lemma list_cmp_antisym (a b : list Z) :
  Py.list_cmp b a = CompOpp (Py.list_cmp a b).
Proof.
  revert b. induction a as [|x a IH]; intros [|y b]; simpl; try done.
  rewrite (Z.compare_antisym x y).
  destruct (x ?= y); simpl; [apply IH | done | done].
Qed.

Ltac decide_compare :=
  first [ rewrite Z.compare_refl
        | rewrite (proj2 (Z.compare_lt_iff _ _)) by lia
        | rewrite (proj2 (Z.compare_gt_iff _ _)) by lia ].

Lemma list_cmp_trans (c : comparison) (a b d : list Z) :
  Py.list_cmp a b = c → Py.list_cmp b d = c → Py.list_cmp a d = c.
Proof.
  revert b d. induction a as [|x a IH]; intros [|y b] [|z d]; simpl;
    try congruence.
  destruct (Z.compare_spec x y) as [->|Hxy|Hxy];
    destruct (Z.compare_spec y z) as [->|Hyz|Hyz];
    intros H1 H2; try congruence; try decide_compare; eauto.
Qed.

Lemma hr_cmp_eq (a b : HandRank) : hr_cmp a b = Eq ↔ a = b.
Proof.
  destruct a as [c1 t1], b as [c2 t2]. unfold hr_cmp; simpl.
  destruct (Z.compare_spec c1 c2) as [->|Hlt|Hgt].
  - rewrite list_cmp_eq. split; [by intros -> | by intros [=]].
  - split; [done | intros [=]; lia].
  - split; [done | intros [=]; lia].
Qed.

Lemma hr_cmp_refl (a : HandRank) : hr_cmp a a = Eq.
Proof. by apply hr_cmp_eq. Qed.

Lemma hr_cmp_antisym (a b : HandRank) : hr_cmp b a = CompOpp (hr_cmp a b).
Proof.
  unfold hr_cmp. rewrite (Z.compare_antisym a.1 b.1).
  destruct (a.1 ?= b.1); simpl; [apply list_cmp_antisym | done | done].
Qed.

Lemma hr_cmp_trans (c : comparison) (a b d : HandRank) :
  hr_cmp a b = c → hr_cmp b d = c → hr_cmp a d = c.
Proof.
  destruct a as [x a], b as [y b], d as [z d]. unfold hr_cmp; simpl.
  destruct (Z.compare_spec x y) as [->|Hxy|Hxy];
    destruct (Z.compare_spec y z) as [->|Hyz|Hyz];
    intros H1 H2; try congruence; try decide_compare;
    eauto using list_cmp_trans.
Qed.

Lemma hr_le_refl (a : HandRank) : hr_le a a.
Proof. unfold hr_le. by rewrite hr_cmp_refl. Qed.

Lemma hr_le_trans (a b d : HandRank) : hr_le a b → hr_le b d → hr_le a d.
Proof.
  unfold hr_le. intros Hab Hbd Had.
  destruct (hr_cmp a b) eqn:E1; [| |done].
  - apply hr_cmp_eq in E1 as ->. done.
  - destruct (hr_cmp b d) eqn:E2; [| |done].
    + apply hr_cmp_eq in E2 as ->. congruence.
    + pose proof (hr_cmp_trans _ _ _ _ E1 E2). congruence.
Qed.

Lemma hr_le_total (a b : HandRank) : hr_le a b ∨ hr_le b a.
Proof.
  unfold hr_le. rewrite (hr_cmp_antisym a b).
  destruct (hr_cmp a b); simpl; auto.
Qed.

Lemma hr_le_antisym (a b : HandRank) : hr_le a b → hr_le b a → a = b.
Proof.
  unfold hr_le. rewrite (hr_cmp_antisym a b). intros H1 H2.
  apply hr_cmp_eq. destruct (hr_cmp a b); simpl in *; done.
Qed.

Lemma hr_gtb_false (a b : HandRank) : hr_gtb a b = false ↔ hr_le a b.
Proof. unfold hr_gtb, hr_le. destruct (hr_cmp a b); naive_solver. Qed.

Lemma hr_gtb_true (a b : HandRank) : hr_gtb a b = true → hr_le b a.
Proof.
  unfold hr_gtb, hr_le. rewrite (hr_cmp_antisym a b).
  destruct (hr_cmp a b); naive_solver.
Qed.


(** ** [hand_rank] is the maximum over the five-card subsets *)

Lemma hand_rank_loop_max (fives : list (list Card)) (b0 : HandRank) :
  ∃ b, fold_left hand_rank_step fives (Some b0) = Some b ∧
       (b = b0 ∨ ∃ five, five ∈ fives ∧ score_five five = b) ∧
       hr_le b0 b ∧
       ∀ five, five ∈ fives → hr_le (score_five five) b.
Proof.
  revert b0. induction fives as [|f fives IH]; intros b0; simpl.
  - exists b0. split_and!; [done | by left | apply hr_le_refl |].
    intros five Hin. by apply elem_of_nil in Hin.
  - destruct (hr_gtb (score_five f) b0) eqn:Hg.
    + destruct (IH (score_five f)) as (b & Hb & Hor & Hle & Hall).
      exists b. split_and!; [done | | |].
      * right. destruct Hor as [->|(five & Hin & Hs)].
        -- exists f. split; [by left | done].
        -- exists five. split; [by right | done].
      * eapply hr_le_trans; [by apply hr_gtb_true | done].
      * intros five [->|Hin]%elem_of_cons; eauto.
    + destruct (IH b0) as (b & Hb & Hor & Hle & Hall).
      exists b. split_and!; [done | | done |].
      * destruct Hor as [->|(five & Hin & Hs)]; [by left|].
        right. exists five. split; [by right | done].
      * intros five [->|Hin]%elem_of_cons; eauto.
        eapply hr_le_trans; [by apply hr_gtb_false | done].
Qed.

Lemma combinations_spec {A} (l five : list A) (k : nat) :
  five ∈ Py.combinations l k ↔ five `sublist_of` l ∧ length five = k.
Proof.
  revert five k. induction l as [|x l IH]; intros five k.
  - destruct k; simpl.
    + rewrite list_elem_of_singleton. split.
      * intros ->. done.
      * intros [_ Hl]. by destruct five.
    + split; [by intros ?%elem_of_nil|].
      intros [Hs Hl]. apply sublist_nil_r in Hs as ->. done.
  - destruct k; simpl.
    + rewrite list_elem_of_singleton. split.
      * intros ->. split; [apply sublist_nil_l | done].
      * intros [_ Hl]. by destruct five.
    + rewrite elem_of_app, (IH five (S k)). split.
      * intros [Hin|[Hs Hl]].
        -- apply list_elem_of_In, in_map_iff in Hin as (t & <- & Hin).
           apply list_elem_of_In, IH in Hin as [Hs Hl].
           split; [by apply sublist_skip | simpl; by rewrite Hl].
        -- split; [by apply sublist_cons | done].
      * intros [Hs Hl]. apply sublist_cons_r in Hs as [Hs|(t & -> & Hs)].
        -- by right.
        -- left. apply list_elem_of_In, in_map_iff. exists t. split; [done|].
           apply list_elem_of_In, IH. split; [done|]. simpl in Hl. lia.
Qed.

Lemma combinations_nonempty {A} (l : list A) (k : nat) :
  (k ≤ length l)%nat → Py.combinations l k ≠ [].
Proof.
  intros Hk Hnil.
  assert (take k l ∈ Py.combinations l k) as Hin.
  { apply combinations_spec. split; [apply sublist_take|].
    rewrite length_take. lia. }
  rewrite Hnil in Hin. by apply elem_of_nil in Hin.
Qed.

(** ** [score_five] does not depend on the order of the cards *)

Lemma insert_desc_comm (x y : Z) (l : list Z) :
  Py.insert_desc Z.ltb id x (Py.insert_desc Z.ltb id y l)
  = Py.insert_desc Z.ltb id y (Py.insert_desc Z.ltb id x l).
Proof.
  induction l as [|h t IH]; simpl; unfold id in *.
  - destruct (Z.ltb_spec x y), (Z.ltb_spec y x); try done; try lia.
    by assert (x = y) as -> by lia.
  - destruct (Z.ltb_spec x h), (Z.ltb_spec y h); simpl; unfold id;
      repeat match goal with
             | |- context [Z.ltb ?a ?b] => destruct (Z.ltb_spec a b)
             end; try lia; try done.
    + by rewrite IH.
    + by assert (x = y) as -> by lia.
Qed.

Lemma sorted_rev_perm (l1 l2 : list Z) :
  l1 ≡ₚ l2 → Py.sorted_rev Z.ltb id l1 = Py.sorted_rev Z.ltb id l2.
Proof.
  induction 1 as [|x l1 l2 _ IH|x y l|l1 l2 l3 _ IH1 _ IH2]; simpl.
  - done.
  - by rewrite IH.
  - apply insert_desc_comm.
  - by rewrite IH1.
Qed.

Lemma sorted_vals_perm (c1 c2 : list Card) :
  c1 ≡ₚ c2 → sorted_vals c1 = sorted_vals c2.
Proof. intros Hp. apply sorted_rev_perm. by apply Permutation_map. Qed.

Lemma distinct_elem `{EqDecision A} (l : list A) (x : A) :
  x ∈ Py.distinct l ↔ x ∈ l.
Proof.
  induction l as [|y l IH]; simpl; [done|].
  destruct (decide (y ∈ l)) as [Hy|Hy]; rewrite !elem_of_cons, ?IH.
  - split; [by right|]. intros [->|?]; done.
  - done.
Qed.

Lemma distinct_NoDup `{EqDecision A} (l : list A) : NoDup (Py.distinct l).
Proof.
  induction l as [|y l IH]; simpl; [constructor|].
  destruct (decide (y ∈ l)); [done|].
  constructor; [by rewrite distinct_elem | done].
Qed.

Lemma distinct_perm `{EqDecision A} (l1 l2 : list A) :
  l1 ≡ₚ l2 → Py.distinct l1 ≡ₚ Py.distinct l2.
Proof.
  intros Hp. apply NoDup_Permutation; [apply distinct_NoDup..|].
  intros x. rewrite !distinct_elem. by rewrite Hp.
Qed.

Lemma is_flush_perm (c1 c2 : list Card) :
  c1 ≡ₚ c2 → is_flush c1 = is_flush c2.
Proof.
  intros Hp. unfold is_flush.
  assert (Py.distinct (map (λ c : Card, c.2) c1)
          ≡ₚ Py.distinct (map (λ c : Card, c.2) c2)) as Hd.
  { apply distinct_perm. by apply Permutation_map. }
  by rewrite (Permutation_length Hd).
Qed.

Lemma score_five_perm (c1 c2 : list Card) :
  c1 ≡ₚ c2 → score_five c1 = score_five c2.
Proof.
  intros Hp. unfold score_five.
  by rewrite (sorted_vals_perm _ _ Hp), (is_flush_perm _ _ Hp).
Qed.

Lemma subset_sublist_perm `{EqDecision A} (five hand : list A) :
  NoDup hand → NoDup five → five ⊆ hand →
  ∃ sub, sub `sublist_of` hand ∧ sub ≡ₚ five.
Proof.
  intros Hh Hf Hsub. exists (filter (λ c, c ∈ five) hand). split.
  - apply sublist_filter.
  - apply NoDup_Permutation; [by apply NoDup_filter | done |].
    intros x. rewrite list_elem_of_filter. split; [tauto|].
    intros Hx. split; [done | by apply Hsub].
Qed.

(** C3.  For a hand of at least five distinct cards (so for 5 to 7),
    [hand_rank] returns a rank that is the score of one of the hand's
    five-card subsets and that no five-card subset of the hand scores
    above, in the order of [hr_cmp]: category first, then the tie-break
    list lexicographically. *)
Theorem hand_rank_is_max (hand : list Card) :
  NoDup hand → (5 ≤ length hand)%nat →
  ∃ best,
    hand_rank hand = Some best ∧
    (∃ five, NoDup five ∧ five ⊆ hand ∧ length five = 5%nat ∧
             score_five five = best) ∧
    (∀ five, NoDup five → five ⊆ hand → length five = 5%nat →
             hr_le (score_five five) best).
Proof.
  intros Hnd Hlen. unfold hand_rank.
  pose proof (combinations_nonempty hand 5 Hlen) as Hne.
  assert (∀ five, five ∈ Py.combinations hand 5 →
            NoDup five ∧ five ⊆ hand ∧ length five = 5%nat) as Hcomb.
  { intros five [Hs Hl]%combinations_spec. split_and!; [|by apply sublist_subseteq|done].
    by eapply sublist_NoDup. }
  destruct (Py.combinations hand 5) as [|f fives] eqn:Hc; [done|]. simpl.
  destruct (hand_rank_loop_max fives (score_five f)) as (b & Hb & Hor & Hle & Hall).
  exists b. split; [done|]. split.
  - destruct Hor as [->|(five & Hin & Hs)].
    + exists f. destruct (Hcomb f) as (? & ? & ?); [by left | done].
    + exists five. destruct (Hcomb five) as (? & ? & ?); [by right | done].
  - intros five Hf Hsub Hl.
    destruct (subset_sublist_perm five hand Hnd Hf Hsub) as (sub & Hs & Hp).
    rewrite <-(score_five_perm _ _ Hp).
    assert (sub ∈ Py.combinations hand 5) as Hin.
    { apply combinations_spec. split; [done|]. by rewrite Hp. }
    rewrite Hc in Hin. apply elem_of_cons in Hin as [->|Hin]; [done|].
    by apply Hall.
Qed.

(** C4.  A hand whose ranks are A, 2, 3, 4, 5 scores as a straight (a
    straight flush when suited) with the tie-break list [5,4,3,2,1], and
    compares strictly below every hand whose ranks are 2..6 and that is a
    flush exactly when it is: a wheel straight flush below a 6-high
    straight flush, a wheel straight below a 6-high straight. *)
Theorem wheel_ranks_lowest (wheel six : list Card) :
  map fst wheel ≡ₚ [RA; R2; R3; R4; R5] →
  map fst six ≡ₚ [R6; R5; R4; R3; R2] →
  score_five wheel = (if is_flush wheel then 8 else 4, [5; 4; 3; 2; 1]) ∧
  score_five six = (if is_flush six then 8 else 4, [6; 5; 4; 3; 2]) ∧
  (is_flush wheel = is_flush six → hr_lt (score_five wheel) (score_five six)).
Proof.
  intros Hw Hs.
  assert (∀ cards ranks, map fst cards ≡ₚ ranks →
            sorted_vals cards = Py.sorted_rev Z.ltb id (map RANK_VAL ranks)) as Hv.
  { intros cards ranks Hp. unfold sorted_vals.
    replace (map (λ c : Card, RANK_VAL c.1) cards)
      with (map RANK_VAL (map fst cards)) by apply map_map.
    apply sorted_rev_perm. by apply Permutation_map. }
  assert (score_five wheel = (if is_flush wheel then 8 else 4, [5; 4; 3; 2; 1]))
    as Hsw.
  { unfold score_five. rewrite (Hv _ _ Hw). by destruct (is_flush wheel). }
  assert (score_five six = (if is_flush six then 8 else 4, [6; 5; 4; 3; 2]))
    as Hss.
  { unfold score_five. rewrite (Hv _ _ Hs). by destruct (is_flush six). }
  split_and!; [done..|].
  intros Hf. rewrite Hsw, Hss, Hf. by destruct (is_flush six).
Qed.

(** ** Distribution of the pot *)

Lemma award_length (ps : list Player) (i : nat) (v : Z) :
  length (award ps i v) = length ps.
Proof. unfold award. destruct (ps !! i); [apply length_insert | done]. Qed.

Lemma award_sum (ps : list Player) (i : nat) (v : Z) :
  (i < length ps)%nat → sum_stacks (award ps i v) = sum_stacks ps + v.
Proof.
  intros Hi. unfold award.
  destruct (lookup_lt_is_Some_2 ps i Hi) as [w Hw]. rewrite Hw.
  rewrite (sum_stacks_insert _ _ w) by done. simpl. lia.
Qed.

Lemma award_lookup (ps : list Player) (i j : nat) (v : Z) (p : Player) :
  ps !! j = Some p →
  ∃ p', award ps i v !! j = Some p' ∧
        stack p' = stack p + (if decide (j = i) then v else 0).
Proof.
  intros Hj. unfold award. destruct (decide (j = i)) as [->|Hne].
  - rewrite Hj. eexists. split.
    + apply list_lookup_insert_eq. by eapply lookup_lt_Some.
    + done.
  - destruct (ps !! i).
    + rewrite list_lookup_insert_ne by done. exists p. split; [done | lia].
    + exists p. split; [done | lia].
Qed.

Lemma awards_sum (ws : list nat) (ps : list Player) (v : Z) :
  (∀ i, i ∈ ws → (i < length ps)%nat) →
  sum_stacks (fold_left (λ ps i, award ps i v) ws ps)
  = sum_stacks ps + Z.of_nat (length ws) * v.
Proof.
  revert ps. induction ws as [|w ws IH]; intros ps Hin; simpl; [lia|].
  rewrite IH.
  - rewrite award_sum by (apply Hin; by left). lia.
  - intros i Hi. rewrite award_length. apply Hin. by right.
Qed.

Lemma awards_lookup (ws : list nat) (ps : list Player) (v : Z) (j : nat)
    (p : Player) :
  NoDup ws → ps !! j = Some p →
  ∃ p', fold_left (λ ps i, award ps i v) ws ps !! j = Some p' ∧
        stack p' = stack p + (if decide (j ∈ ws) then v else 0).
Proof.
  revert ps p. induction ws as [|w ws IH]; intros ps p Hnd Hj; simpl.
  - exists p. split; [done|]. destruct (decide (j ∈ [])) as [Hin|_]; [|lia].
    by apply elem_of_nil in Hin.
  - apply NoDup_cons in Hnd as [Hw Hnd].
    destruct (award_lookup ps w j v p Hj) as (p1 & H1 & Hs1).
    destruct (IH _ _ Hnd H1) as (p2 & H2 & Hs2).
    exists p2. split; [done|]. rewrite Hs2, Hs1.
    destruct (decide (j = w)) as [Heq|Hne], (decide (j ∈ ws)) as [Hin|Hin],
      (decide (j ∈ w :: ws)) as [Hin'|Hin']; subst; try done; try lia.
    + exfalso. apply Hin'. by left.
    + exfalso. apply Hin'. by right.
    + by apply elem_of_cons in Hin' as [?|?].
Qed.

Lemma rotate_dealer_players (st : State) :
  players (rotate_dealer st) = players st ∧ pot (rotate_dealer st) = pot st.
Proof. unfold rotate_dealer. by destruct (next_alive _ _). Qed.

(** [end_hand] pays the seats of [hand_winners], [pot // n] each. *)
Lemma end_hand_pays (st : State) :
  end_hand st =
    ws ← hand_winners st;
    Some (rotate_dealer
            (set_players st
               (fold_left (λ ps i, award ps i (pot st `div` Z.of_nat (length ws)))
                  ws (players st))),
          GoDealBtn).
Proof.
  unfold end_hand, hand_winners.
  destruct (active_seats (players st)) as [|[i w] [|? ?]]; try done.
  simpl. by rewrite Z.div_1_r.
Qed.

Lemma active_seats_elem (ps : list Player) (i : nat) (p : Player) :
  (i, p) ∈ active_seats ps ↔ ps !! i = Some p ∧ folded p = false.
Proof.
  unfold active_seats. rewrite list_elem_of_filter, elem_of_lookup_imap. simpl.
  split.
  - intros (Hf & j & q & Heq & Hq). by simplify_eq.
  - intros [Hp Hf]. split; [done|]. by exists i, p.
Qed.

Lemma active_seats_NoDup (ps : list Player) : NoDup (active_seats ps).*1.
Proof.
  apply (sublist_NoDup _ (seq 0 (length ps))); [apply NoDup_seq|].
  rewrite <-(imap_pair_fst ps). apply fmap_sublist, sublist_filter.
Qed.

Lemma insert_desc_perm {A K} (ltb : K → K → bool) (key : A → K) (x : A)
    (l : list A) :
  Py.insert_desc ltb key x l ≡ₚ x :: l.
Proof.
  induction l as [|y l IH]; simpl; [done|].
  destruct (ltb (key x) (key y)); [|done].
  rewrite IH. apply perm_swap.
Qed.

Lemma sorted_rev_permutation {A K} (ltb : K → K → bool) (key : A → K)
    (l : list A) :
  Py.sorted_rev ltb key l ≡ₚ l.
Proof.
  induction l as [|x l IH]; simpl; [done|].
  by rewrite insert_desc_perm, IH.
Qed.

Lemma insert_desc_head (x h : HandRank * nat) (s : list (HandRank * nat)) :
  head (Py.insert_desc hr_ltb fst x s) = Some h →
  hr_le x.1 h.1 ∧ ∀ y, head s = Some y → hr_le y.1 h.1.
Proof.
  destruct s as [|y ys]; simpl.
  - intros [= <-]. split; [apply hr_le_refl | done].
  - destruct (hr_ltb x.1 y.1) eqn:Hlt; simpl; intros [= <-].
    + split; [by apply hr_gtb_true | intros ? [= <-]; apply hr_le_refl].
    + split; [apply hr_le_refl | intros ? [= <-]; by apply hr_gtb_false].
Qed.

Lemma sorted_rev_head_max (l : list (HandRank * nat)) (h : HandRank * nat) :
  head (Py.sorted_rev hr_ltb fst l) = Some h →
  ∀ x, x ∈ l → hr_le x.1 h.1.
Proof.
  revert h. induction l as [|x l IH]; intros h Hh y Hy.
  - by apply elem_of_nil in Hy.
  - simpl in Hh. apply insert_desc_head in Hh as [Hx Hs].
    apply elem_of_cons in Hy as [->|Hy]; [done|].
    destruct (Py.sorted_rev hr_ltb fst l) as [|h0 s] eqn:Hsort.
    + assert (y ∈ Py.sorted_rev hr_ltb fst l) as Hin
        by (by rewrite sorted_rev_permutation).
      rewrite Hsort in Hin. by apply elem_of_nil in Hin.
    + eapply hr_le_trans; [by apply (IH h0) | by apply Hs].
Qed.

Lemma showdown_keyed (act : list (nat * Player)) (cm : list Card)
    (keyed : list (HandRank * nat)) :
  mapM (λ e : option HandRank * nat, r ← e.1; Some (r, e.2))
    ((λ ip : nat * Player, (hand_rank (hand ip.2 ++ cm), ip.1)) <$> act)
  = Some keyed →
  keyed.*2 = act.*1 ∧
  ∀ r i, (r, i) ∈ keyed ↔
         ∃ p, (i, p) ∈ act ∧ hand_rank (hand p ++ cm) = Some r.
Proof.
  revert keyed. induction act as [|[j q] act IH]; intros keyed H.
  - simpl in H. unfold mret, option_ret in H. simplify_eq.
    split; [done|]. intros r i. split.
    + by intros ?%elem_of_nil.
    + by intros (p & ?%elem_of_nil & _).
  - rewrite fmap_cons in H. cbn [mapM] in H.
    apply bind_Some in H as ([r0 i0] & H0 & H).
    apply bind_Some in H as (k & Hk & H). simpl in H0.
    apply bind_Some in H0 as (r1 & Hr & H0).
    unfold mret, option_ret in H. simplify_eq.
    destruct (IH _ Hk) as [Hfst Hel]. split.
    + rewrite !fmap_cons. simpl. by f_equal.
    + intros r i. rewrite elem_of_cons, Hel. split.
      * intros [[= -> ->]|(p & Hin & Hp)].
        -- exists q. split; [by left | done].
        -- exists p. split; [by right | done].
      * intros (p & [[= -> ->]|Hin]%elem_of_cons & Hp).
        -- left. congruence.
        -- right. by exists p.
Qed.

(** The winners of a showdown are the players still in the hand whose
    rank is the greatest rank among them. *)
Lemma showdown_winners_spec (ps : list Player) (cm : list Card)
    (ws : list nat) :
  showdown_winners ps cm = Some ws →
  NoDup ws ∧ ws ≠ [] ∧
  ∃ top,
    (∀ i, i ∈ ws ↔ ∃ p, ps !! i = Some p ∧ folded p = false ∧
                        hand_rank (hand p ++ cm) = Some top) ∧
    (∀ j q r, ps !! j = Some q → folded q = false →
              hand_rank (hand q ++ cm) = Some r → hr_le r top).
Proof.
  unfold showdown_winners, showdown_ranked. intros H.
  apply bind_Some in H as (ranked & Hr & H).
  apply bind_Some in Hr as (keyed & Hk & Hr).
  apply bind_Some in H as (best & Hh & H). simplify_eq.
  destruct (showdown_keyed _ _ _ Hk) as [Hfst Hel].
  set (ranked := Py.sorted_rev hr_ltb fst keyed) in *.
  assert (ranked ≡ₚ keyed) as Hperm by apply sorted_rev_permutation.
  assert (best ∈ ranked) as Hbest.
  { destruct ranked; simplify_eq/=. by left. }
  split; [|split].
  - apply (sublist_NoDup _ ranked.*2).
    + rewrite Hperm, Hfst. apply active_seats_NoDup.
    + apply fmap_sublist, sublist_filter.
  - intros Hnil. assert (best.2 ∈ (filter (λ rp, rp.1 = best.1) ranked).*2) as Hin.
    { apply list_elem_of_fmap. exists best. split; [done|].
      by apply list_elem_of_filter. }
    rewrite Hnil in Hin. by apply elem_of_nil in Hin.
  - exists best.1. split.
    + intros i. rewrite list_elem_of_fmap. split.
      * intros ([r j] & -> & [Heq Hin]%list_elem_of_filter). simpl in *. subst r.
        rewrite Hperm in Hin. apply Hel in Hin as (p & Hin & Hp).
        apply active_seats_elem in Hin as [? ?]. by exists p.
      * intros (p & Hp & Hf & Hrank). exists (best.1, i). split; [done|].
        apply list_elem_of_filter. split; [done|]. rewrite Hperm.
        apply Hel. exists p. split; [by apply active_seats_elem | done].
    + intros j q r Hq Hf Hrank.
      apply (sorted_rev_head_max keyed best Hh (r, j)).
      apply Hel. exists q. split; [by apply active_seats_elem | done].
Qed.

(** C5.  At a showdown with two or more winners, the winners are the
    players still in the hand whose rank is the greatest; each of them
    gains exactly [pot // n], everybody else's stack stays as it was, so
    the stacks gain [n * (pot // n)] in all, which is at most the pot and
    falls short of it by at most [n - 1] chips that nobody receives. *)
Theorem showdown_split (st : State) (winners : list nat) :
  showdown_winners (players st) (comm st) = Some winners →
  (2 ≤ length winners)%nat →
  ∃ st' top,
    end_hand st = Some (st', GoDealBtn) ∧
    (∀ i, i ∈ winners ↔
          ∃ p, players st !! i = Some p ∧ folded p = false ∧
               hand_rank (hand p ++ comm st) = Some top) ∧
    (∀ j q r, players st !! j = Some q → folded q = false →
              hand_rank (hand q ++ comm st) = Some r → hr_le r top) ∧
    (∀ i p, players st !! i = Some p →
            ∃ p', players st' !! i = Some p' ∧
                  stack p' = stack p +
                    (if decide (i ∈ winners)
                     then pot st `div` Z.of_nat (length winners) else 0)) ∧
    Z.of_nat (length winners) * (pot st `div` Z.of_nat (length winners)) ≤ pot st ∧
    0 ≤ pot st - Z.of_nat (length winners) * (pot st `div` Z.of_nat (length winners))
      ≤ Z.of_nat (length winners) - 1 ∧
    sum_stacks (players st')
    = sum_stacks (players st)
      + Z.of_nat (length winners) * (pot st `div` Z.of_nat (length winners)).
Proof.
  intros Hw Hn.
  destruct (showdown_winners_spec _ _ _ Hw) as (Hnd & _ & top & Hel & Hmax).
  assert (hand_winners st = Some winners) as Hhw.
  { unfold hand_winners.
    destruct (active_seats (players st)) as [|[i w] [|? ?]] eqn:Hact; try done.
    exfalso.
    assert (∀ j, j ∈ winners → j = i) as Hall.
    { intros j (p & Hp & Hf & _)%Hel.
      assert ((j, p) ∈ active_seats (players st)) as Hin
        by (by apply active_seats_elem).
      rewrite Hact in Hin. apply list_elem_of_singleton in Hin. congruence. }
    destruct winners as [|a [|b ws]]; simpl in Hn; try lia.
    apply NoDup_cons in Hnd as [Hab _]. apply Hab.
    rewrite (Hall a) by (by left).
    rewrite <-(Hall b) at 1 by (right; by left). by left. }
  set (n := Z.of_nat (length winners)) in *.
  assert (0 < n) as Hpos by (subst n; lia).
  set (st1 := set_players st
                (fold_left (λ ps i, award ps i (pot st `div` n)) winners
                   (players st))).
  exists (rotate_dealer st1), top.
  destruct (rotate_dealer_players st1) as [Hps _]. rewrite Hps. simpl.
  split; [by rewrite end_hand_pays, Hhw|].
  pose proof (Z.mod_pos_bound (pot st) n Hpos) as Hmod.
  pose proof (Z.div_mod (pot st) n) as Hdiv.
  split; [done|]. split; [done|]. split; [|split; [|split]].
  - intros i p Hp. by apply awards_lookup.
  - lia.
  - lia.
  - apply awards_sum. intros i (p & Hp & _)%Hel. by eapply lookup_lt_Some.
Qed.

(** C8, as the code has it.  When a hand ends, [end_hand] pays the single
    player left the whole pot, or each of the [n] winners of the showdown
    [pot // n], touches no other stack and leaves the pot field as it was;
    the pot is 0 again once the following [start_hand] has dealt the next
    hand. *)
Theorem end_hand_distribution (st st' : State) (nx : Next) :
  end_hand st = Some (st', nx) →
  nx = GoDealBtn ∧
  pot st' = pot st ∧
  (∃ winners,
     hand_winners st = Some winners ∧ NoDup winners ∧ winners ≠ [] ∧
     (length (active_seats (players st)) = 1%nat →
      length winners = 1%nat) ∧
     ∀ i p, players st !! i = Some p →
            ∃ p', players st' !! i = Some p' ∧
                  stack p' = stack p +
                    (if decide (i ∈ winners)
                     then pot st `div` Z.of_nat (length winners) else 0)) ∧
  ∀ shuffled st'', start_hand st' shuffled = Some (st'', GoPreflop) →
                   pot st'' = 0.
Proof.
  rewrite end_hand_pays. intros H.
  apply bind_Some in H as (ws & Hws & H). simplify_eq.
  destruct (rotate_dealer_players
              (set_players st
                 (fold_left
                    (λ ps i, award ps i (pot st `div` Z.of_nat (length ws))) ws
                    (players st)))) as [Hps Hpot].
  rewrite Hps, Hpot. simpl.
  assert (NoDup ws ∧ ws ≠ [] ∧
          (length (active_seats (players st)) = 1%nat → length ws = 1%nat))
    as (Hnd & Hne & Hone).
  { unfold hand_winners in Hws.
    destruct (active_seats (players st)) as [|[i w] [|? ?]] eqn:Hact;
      simplify_eq/=; try (by split_and!; [apply NoDup_singleton|..]);
      destruct (showdown_winners_spec _ _ _ Hws) as (? & ? & _); done. }
  split_and!; [done | done | | ].
  - exists ws. split_and!; try done.
    intros i p Hp. by apply awards_lookup.
  - intros shuffled st'' Hs. by apply start_hand_deals in Hs as [? _].
Qed.

(** ** The equity estimator *)

Lemma make_deck_NoDup : NoDup make_deck.
Proof. apply (bool_decide_unpack _). by vm_compute. Qed.

Lemma make_deck_length : length make_deck = 52%nat.
Proof. reflexivity. Qed.

Lemma strength_deck_NoDup (hole comm : list Card) :
  NoDup (strength_deck hole comm).
Proof. apply NoDup_filter, make_deck_NoDup. Qed.

Lemma strength_deck_elem (hole comm : list Card) (c : Card) :
  c ∈ strength_deck hole comm → (c ∉ hole) ∧ (c ∉ comm).
Proof. unfold strength_deck. rewrite list_elem_of_filter. tauto. Qed.

Lemma strength_deck_length (hole comm : list Card) :
  (52 ≤ length (strength_deck hole comm) + length hole + length comm)%nat.
Proof.
  unfold strength_deck.
  pose proof (filter_app_complement (λ c, (c ∉ hole) ∧ (c ∉ comm)) make_deck)
    as Hp.
  apply Permutation_length in Hp. rewrite length_app, make_deck_length in Hp.
  assert (length (filter (λ c, ¬ ((c ∉ hole) ∧ (c ∉ comm))) make_deck)
          ≤ length (hole ++ comm))%nat as Hle.
  { apply submseteq_length, NoDup_submseteq.
    - apply NoDup_filter, make_deck_NoDup.
    - intros c [Hc _]%list_elem_of_filter. rewrite elem_of_app.
      destruct (decide (c ∈ hole)); [by left|].
      destruct (decide (c ∈ comm)); [by right|]. by destruct Hc. }
  rewrite length_app in Hle. lia.
Qed.

Lemma deck_at_perm (shuffle : nat → list Card → list Card) (d0 : list Card)
    (k : nat) :
  (∀ j d, shuffle j d ≡ₚ d) → deck_at shuffle d0 k ≡ₚ d0.
Proof.
  intros Hs. induction k as [|k IH]; simpl; [apply Hs|].
  by rewrite Hs.
Qed.

Lemma slice_take_drop {A} (l : list A) (a b : nat) :
  (a ≤ b ≤ length l)%nat →
  Py.slice l (Z.of_nat a) (Z.of_nat b) = take (b - a) (drop a l).
Proof.
  intros Hab. unfold Py.slice, Py.clamp_index.
  destruct (Z.ltb_spec (Z.of_nat a) 0), (Z.ltb_spec (Z.of_nat b) 0); try lia.
  rewrite !Z.min_r by lia. by rewrite !Nat2Z.id.
Qed.

Lemma hand_rank_is_Some (hand : list Card) :
  (5 ≤ length hand)%nat → is_Some (hand_rank hand).
Proof.
  intros Hlen. unfold hand_rank.
  pose proof (combinations_nonempty hand 5 Hlen) as Hne.
  destruct (Py.combinations hand 5) as [|f fives]; [done|]. simpl.
  destruct (hand_rank_loop_max fives (score_five f)) as (b & -> & _). by eexists.
Qed.

(** What one trial draws, on a deck that is a rearrangement of the
    estimator's deck. *)
Lemma trial_draws (hole comm deck : list Card) :
  length hole = 2%nat → (length comm ≤ 5)%nat →
  deck ≡ₚ strength_deck hole comm →
  length (trial_board comm deck) = 5%nat ∧
  length (trial_opp comm deck) = 2%nat ∧
  NoDup (trial_drawn comm deck ++ trial_opp comm deck) ∧
  (∀ c, c ∈ trial_drawn comm deck ++ trial_opp comm deck →
        (c ∉ hole) ∧ (c ∉ comm)) ∧
  ∃ h o,
    hand_rank (hole ++ trial_board comm deck) = Some h ∧
    hand_rank (trial_opp comm deck ++ trial_board comm deck) = Some o ∧
    trial_win hole comm deck = Some (hr_geb h o).
Proof.
  intros Hh Hc Hp.
  pose proof (strength_deck_length hole comm) as Hlen.
  rewrite <-(Permutation_length Hp) in Hlen.
  set (m := (5 - length comm)%nat).
  assert (trial_drawn comm deck = take m deck) as Hdrawn.
  { unfold trial_drawn, Py.slice_to.
    replace (5 - Z.of_nat (length comm)) with (Z.of_nat m) by lia.
    change (Py.slice deck 0 (Z.of_nat m))
      with (Py.slice deck (Z.of_nat 0) (Z.of_nat m)).
    rewrite (slice_take_drop deck 0 m) by lia.
    by rewrite Nat.sub_0_r. }
  assert (trial_opp comm deck = take 2 (drop m deck)) as Hopp.
  { unfold trial_opp.
    replace (5 - Z.of_nat (length comm)) with (Z.of_nat m) by lia.
    replace (Z.of_nat m + 2) with (Z.of_nat (m + 2)) by lia.
    rewrite (slice_take_drop deck m (m + 2)) by lia.
    by replace (m + 2 - m)%nat with 2%nat by lia. }
  assert (trial_drawn comm deck ++ trial_opp comm deck = take (m + 2) deck)
    as Happ.
  { rewrite Hdrawn, Hopp. by rewrite <-take_take_drop. }
  assert (length (trial_board comm deck) = 5%nat) as Hboard.
  { unfold trial_board. rewrite length_app, Hdrawn, length_take. lia. }
  assert (length (trial_opp comm deck) = 2%nat) as Hopplen.
  { rewrite Hopp, length_take, length_drop. lia. }
  split; [done|]. split; [done|]. rewrite Happ. split; [|split].
  - apply (sublist_NoDup _ deck); [|apply sublist_take].
    rewrite Hp. apply strength_deck_NoDup.
  - intros c Hin. apply (strength_deck_elem hole comm). rewrite <-Hp.
    by apply (sublist_subseteq _ _ (sublist_take deck (m + 2))).
  - destruct (hand_rank_is_Some (hole ++ trial_board comm deck)) as [h Hhr].
    { rewrite length_app. lia. }
    destruct (hand_rank_is_Some (trial_opp comm deck ++ trial_board comm deck))
      as [o Hor].
    { rewrite length_app. lia. }
    exists h, o. split; [done|]. split; [done|].
    unfold trial_win. by rewrite Hhr, Hor.
Qed.

Lemma strength_loop_count (shuffle : nat → list Card → list Card)
    (hole comm : list Card) (n k : nat) (deck : list Card) (wins : Z) :
  shuffle k deck = deck_at shuffle (strength_deck hole comm) k →
  (∀ j, is_Some (trial_win hole comm
                   (deck_at shuffle (strength_deck hole comm) j))) →
  strength_loop shuffle hole comm n k deck wins
  = Some (wins + Z.of_nat (length (filter (λ j, win_at shuffle hole comm j = true)
                                     (seq k n)))).
Proof.
  intros Hdeck Hsome. revert k deck wins Hdeck.
  induction n as [|n IH]; intros k deck wins Hdeck; cbn [strength_loop seq].
  - simpl. f_equal. lia.
  - rewrite Hdeck. destruct (Hsome k) as [b Hb]. rewrite Hb.
    cbn [mbind option_bind]. rewrite IH by done. f_equal.
    assert (win_at shuffle hole comm k = b) as Hwin
      by (unfold win_at; by rewrite Hb).
    rewrite filter_cons.
    destruct (decide (win_at shuffle hole comm k = true)) as [Ht|Hf];
      destruct b; try congruence; cbn [length]; lia.
Qed.



(** ** The bot policy *)

Lemma safe_raise_bounds (fo : FloatOps) (rnd : BotRandom fo) (d : Difficulty)
    (pot stack min_raise amt : Z) :
  safe_raise fo rnd d pot stack min_raise = Some amt →
  min_raise ≤ stack → min_raise ≤ amt ≤ stack.
Proof.
  unfold safe_raise. intros H.
  apply bind_Some in H as (pot_bet & _ & H).
  apply bind_Some in H as (cap & _ & H). simplify_eq. lia.
Qed.

(** C7.  Whatever the float arithmetic and the random draws, an action
    [bot_decision] returns for a player with a non-negative stack is legal
    and bounded by the stack: the amount never exceeds the stack; a fold or
    a check carries 0; a check is returned only when there is nothing to
    call; a call carries [min(call_amt, stack)]; a raise is returned only
    when the stack covers [min_raise] and carries an amount between
    [min_raise] and the stack. *)
Theorem bot_decision_legal (fo : FloatOps) (rnd : BotRandom fo)
    (player : Player) (comm : list Card) (pot call_amt min_raise : Z)
    (difficulty : string) :
  0 ≤ stack player →
  ∀ act amt,
    bot_decision fo rnd player comm pot call_amt min_raise difficulty
    = Some (act, amt) →
    amt ≤ stack player ∧
    (act = Fold ∨ act = Check → amt = 0) ∧
    (act = Check → call_amt = 0) ∧
    (act = Call → amt = Z.min call_amt (stack player)) ∧
    (act = Raise →
     min_raise ≤ stack player ∧ min_raise ≤ amt ≤ stack player).
Proof.
  intros Hstack act amt H. unfold bot_decision in H.
  apply bind_Some in H as (q & _ & H). cbn zeta in H.
  repeat match type of H with
         | (if ?c then _ else _) = _ => destruct c eqn:?
         | (_ ≫= _) = Some _ => apply bind_Some in H as (? & ? & H)
         end; simplify_eq;
    repeat match goal with
           | Hc : _ && _ = true |- _ => apply andb_true_iff in Hc as [? ?]
           | Hc : (_ <=? _) = true |- _ => apply Z.leb_le in Hc
           | Hc : (_ =? _) = true |- _ => apply Z.eqb_eq in Hc
           | Hs : safe_raise _ _ _ _ _ _ = Some _ |- _ =>
               apply safe_raise_bounds in Hs; [|lia]
           end;
    (split; [lia|]); (split; [intros [?|?]; congruence|]);
    (split; [intros ?; first [congruence | lia]|]);
    split; intros ?; first [congruence | lia].
Qed.

(** * Instances *)

Example score_quads :
  score_five [(RA, Spade); (RA, Heart); (RA, Diamond); (RA, Club); (R2, Spade)]
  = (7, [14; 2]).
Proof. reflexivity. Qed.

Example score_two_pair :
  score_five [(R5, Spade); (RK, Heart); (R5, Diamond); (R2, Club); (RK, Spade)]
  = (2, [13; 5; 2]).
Proof. reflexivity. Qed.

Example hand_rank_full_house : hand_rank sample_seven = Some (6, [5; 13]).
Proof. by vm_compute. Qed.

Example hand_rank_four_cards :
  hand_rank [(R5, Spade); (RK, Heart); (R5, Diamond); (R2, Club)] = None.
Proof. reflexivity. Qed.

(** A stack too large for a float: the raise the bot decides on needs
    [int(stack*raise_cap)], and the conversion of the stack raises. *)
Example bot_decision_overflow :
  bot_decision rational_floats sample_random
    (seat "Ann" (2 ^ 1100) false sample_hole false 20 "aggressive")
    sample_flop 90 20 40 "medium" = None.
Proof. by vm_compute. Qed.

Lemma betting_invariant_witness :
  sum_stacks (players table2) + pot table2 = sum_stacks (players table0).
Proof.
  apply (betting_invariant table0 table1 table2 make_deck sample_events);
    vm_compute; reflexivity.
Defined.

Lemma raise_reopens_action_witness :
  ∃ st', apply table_equal_bets 1 Raise 40 0 20 = Some (st', GoNextAction) ∧
         hbet st' = 60 ∧ aq st' = [0; 2; 3]%nat.
Proof.
  destruct (raise_reopens_action table_equal_bets 1
              (seat "Ann" 980 false [] false 20 "aggressive") 40 0 20)
    as (st' & added & Happ & Hhb & Haq & _).
  - reflexivity.
  - apply (bool_decide_unpack _). vm_compute. exact I.
  - apply Forall_forall. apply (bool_decide_unpack _). vm_compute. exact I.
  - vm_compute. reflexivity.
  - exists st'. split; [exact Happ|]. split; [exact Hhb|].
    vm_compute in Happ. injection Happ as <-. reflexivity.
Defined.

Lemma under_raise_keeps_queue_witness :
  ∃ st', apply table_short_stack 1 Raise (-130) 180 380 = Some (st', GoNextAction) ∧
         hbet st' = 200 ∧ aq st' = [2%nat] ∧ pot st' = 290.
Proof.
  destruct (under_raise_keeps_queue table_short_stack 1
              (seat "Ann" 50 false [] false 20 "aggressive") (-130) 180 380)
    as (st' & Happ & Hhb & Haq & Hpot & _).
  - reflexivity.
  - vm_compute. discriminate.
  - exists st'. split; [exact Happ|]. split; [exact Hhb|].
    split; [exact Haq | exact Hpot].
Defined.

Lemma raise_requeues_all_others_witness :
  ∃ st', apply table_equal_bets 1 Raise 40 0 20 = Some (st', GoNextAction) ∧
         aq st' = [0; 2; 3]%nat.
Proof.
  apply (raise_requeues_all_others table_equal_bets
           (seat "You" 980 true [] false 20 "")
           (seat "Ann" 980 false [] false 20 "aggressive")
           (seat "Bob" 980 false [] false 20 "tight")
           (seat "Cy" 980 false [] false 20 "loose") 40 0 20).
  - reflexivity.
  - apply (bool_decide_unpack _). vm_compute. exact I.
  - apply Forall_forall. apply (bool_decide_unpack _). vm_compute. exact I.
  - reflexivity.
  - vm_compute. reflexivity.
Defined.

(** C9, the claim as stated fails: with four players at equal bets and an
    empty queue, the raise of seat 1 puts seat 0, the raiser's predecessor,
    back in the queue, ahead of seats 2 and 3. *)
Lemma raise_requeues_predecessor :
  ∃ st', apply table_equal_bets 1 Raise 40 0 20 = Some (st', GoNextAction) ∧
         aq table_equal_bets = [] ∧ aq st' = [0; 2; 3]%nat ∧ 0%nat ∈ aq st'.
Proof.
  eexists. split; [vm_compute; reflexivity|]. simpl.
  split; [done|]. split; [done|]. by left.
Qed.

Lemma hand_rank_is_max_witness :
  ∃ best, hand_rank sample_seven = Some best ∧
          ∀ five, NoDup five → five ⊆ sample_seven → length five = 5%nat →
                  hr_le (score_five five) best.
Proof.
  destruct (hand_rank_is_max sample_seven) as (best & Hr & _ & Hmax).
  - apply (bool_decide_unpack _). vm_compute. exact I.
  - simpl. lia.
  - exists best. split; [exact Hr | exact Hmax].
Defined.

Lemma wheel_ranks_lowest_witness :
  score_five sample_wheel = (4, [5; 4; 3; 2; 1]) ∧
  hr_lt (score_five sample_wheel) (score_five sample_six_high).
Proof.
  destruct (wheel_ranks_lowest sample_wheel sample_six_high)
    as (Hw & _ & Hlt).
  - apply (bool_decide_unpack _). vm_compute. exact I.
  - apply (bool_decide_unpack _). vm_compute. exact I.
  - split; [exact Hw | apply Hlt; reflexivity].
Defined.

Lemma showdown_split_witness :
  showdown_winners (players table_showdown) (comm table_showdown) = Some [0; 2]%nat ∧
  ∃ st', end_hand table_showdown = Some (st', GoDealBtn) ∧
         sum_stacks (players st') = sum_stacks (players table_showdown) + 2 * 50.
Proof.
  split; [vm_compute; reflexivity|].
  destruct (showdown_split table_showdown [0; 2]%nat)
    as (st' & top & Hend & _ & _ & _ & _ & _ & Hsum).
  - vm_compute. reflexivity.
  - simpl. lia.
  - exists st'. split; [exact Hend | exact Hsum].
Defined.

(** C8, the claim as stated fails: [end_hand] pays the pot of 30 to the one
    player left and the pot field still holds 30 afterwards. *)
Lemma end_hand_keeps_pot :
  ∃ st', end_hand table_uncontested = Some (st', GoDealBtn) ∧
         stack <$> players st' = [1000; 990; 1010; 1000] ∧
         pot st' = 30 ∧ pot st' ≠ 0.
Proof.
  eexists. split; [vm_compute; reflexivity|]. simpl.
  split; [done|]. split; [done|]. lia.
Qed.

Lemma end_hand_distribution_witness :
  ∃ st', end_hand table_uncontested = Some (st', GoDealBtn) ∧
         pot st' = pot table_uncontested ∧
         ∀ shuffled st'', start_hand st' shuffled = Some (st'', GoPreflop) →
                          pot st'' = 0.
Proof.
  assert (∃ st', end_hand table_uncontested = Some (st', GoDealBtn))
    as [st' Hend] by (eexists; vm_compute; reflexivity).
  exists st'. split; [exact Hend|].
  destruct (end_hand_distribution table_uncontested st' GoDealBtn Hend)
    as (_ & Hpot & _ & Hnext).
  split; [exact Hpot | exact Hnext].
Defined.


Lemma bot_decision_legal_witness :
  ∃ act amt,
    bot_decision rational_floats sample_random sample_bot sample_flop 90 20 40
      "medium" = Some (act, amt) ∧ amt ≤ 980.
Proof.
  assert (0 ≤ stack sample_bot) as Hstack by (simpl; lia).
  assert (∃ act amt,
            bot_decision rational_floats sample_random sample_bot sample_flop
              90 20 40 "medium" = Some (act, amt))
    as (act & amt & Hres) by (eexists _, _; vm_compute; reflexivity).
  exists act, amt. split; [exact Hres|].
  exact (proj1 (bot_decision_legal rational_floats sample_random sample_bot
                  sample_flop 90 20 40 "medium" Hstack act amt Hres)).
Defined.

(** * Further properties *)

(** ** Deck and evaluator *)

(** X1.  The deck [make_deck] builds holds each of the 52 cards exactly
    once. *)
Theorem make_deck_complete :
  NoDup make_deck ∧ length make_deck = 52%nat ∧ ∀ c : Card, c ∈ make_deck.
Proof.
  split; [apply make_deck_NoDup|]. split; [reflexivity|].
  intros [r s]. apply (bool_decide_unpack _). by destruct r, s.
Qed.

Lemma combinations_short {A} (l : list A) (k : nat) :
  (length l < k)%nat → Py.combinations l k = [].
Proof.
  intros Hlt. destruct (Py.combinations l k) as [|x xs] eqn:Hc; [done|].
  assert (x ∈ Py.combinations l k) as Hin by (rewrite Hc; by left).
  apply combinations_spec in Hin as [Hs Hl].
  apply sublist_length in Hs. lia.
Qed.

(** The rank [hand_rank] returns, over the five-card sublists of the
    hand. *)
Lemma hand_rank_sublists (hand : list Card) :
  (5 ≤ length hand)%nat →
  ∃ best,
    hand_rank hand = Some best ∧
    (∃ five, five `sublist_of` hand ∧ length five = 5%nat ∧
             score_five five = best) ∧
    (∀ five, five `sublist_of` hand → length five = 5%nat →
             hr_le (score_five five) best).
Proof.
  intros Hlen. unfold hand_rank.
  pose proof (combinations_nonempty hand 5 Hlen) as Hne.
  pose proof (combinations_spec hand) as Hspec.
  destruct (Py.combinations hand 5) as [|f fives] eqn:Hc; [done|]. simpl.
  destruct (hand_rank_loop_max fives (score_five f))
    as (b & Hb & Hor & Hle & Hall).
  exists b. split; [done|]. split.
  - destruct Hor as [->|(five & Hin & Hs)].
    + exists f. destruct (proj1 (Hspec f 5%nat)) as [? ?]; [|done].
      rewrite Hc. by left.
    + exists five. destruct (proj1 (Hspec five 5%nat)) as [? ?]; [|done].
      rewrite Hc. by right.
  - intros five Hs Hl.
    assert (five ∈ Py.combinations hand 5) as Hin by (by apply Hspec).
    rewrite Hc in Hin. apply elem_of_cons in Hin as [->|Hin]; [done|].
    by apply Hall.
Qed.

Lemma hand_rank_short (hand : list Card) :
  (length hand < 5)%nat → hand_rank hand = None.
Proof. intros Hlt. unfold hand_rank. by rewrite combinations_short. Qed.

Lemma hand_rank_Some_length (hand : list Card) (r : HandRank) :
  hand_rank hand = Some r → (5 ≤ length hand)%nat.
Proof.
  intros Hr. destruct (decide (length hand < 5)%nat) as [Hlt|]; [|lia].
  apply hand_rank_short in Hlt. congruence.
Qed.

(** X2.  [hand_rank] returns [None] exactly for hands of fewer than five
    cards. *)
Theorem hand_rank_None_iff (hand : list Card) :
  hand_rank hand = None ↔ (length hand < 5)%nat.
Proof.
  split.
  - intros Hn. destruct (decide (length hand < 5)%nat) as [|Hge]; [done|].
    destruct (hand_rank_is_Some hand) as [r Hr]; [lia | congruence].
  - intros Hlt. unfold hand_rank. by rewrite combinations_short.
Qed.

(** X3.  More cards never lower the rank: when [h1] is a sub-sequence of
    [h2] and has a rank, [h2] has a rank that is not below it. *)
Theorem hand_rank_monotone (h1 h2 : list Card) (a : HandRank) :
  h1 `sublist_of` h2 → hand_rank h1 = Some a →
  ∃ b, hand_rank h2 = Some b ∧ hr_le a b.
Proof.
  intros Hsub Ha.
  pose proof (hand_rank_Some_length _ _ Ha) as Hl1.
  pose proof (sublist_length _ _ Hsub) as Hl.
  destruct (hand_rank_sublists h1 Hl1) as (a' & Ha' & (five & Hs & Hn & Hsc) & _).
  destruct (hand_rank_sublists h2) as (b & Hb & _ & Hmax); [lia|].
  exists b. split; [done|]. simplify_eq.
  apply Hmax; [|done]. by etrans.
Qed.

(** X4.  The rank of a hand of distinct cards does not depend on the order
    of the cards. *)
Theorem hand_rank_perm (h1 h2 : list Card) :
  NoDup h1 → h1 ≡ₚ h2 → hand_rank h1 = hand_rank h2.
Proof.
  intros Hnd Hp.
  assert (NoDup h2) as Hnd2 by (by rewrite <-Hp).
  destruct (decide (length h1 < 5)%nat) as [Hlt|Hge].
  - rewrite (hand_rank_short h1 Hlt).
    symmetry. apply hand_rank_short. by rewrite <-Hp.
  - assert (∀ x y a b, NoDup x → NoDup y → x ≡ₚ y → (5 ≤ length x)%nat →
              hand_rank x = Some a → hand_rank y = Some b → hr_le a b) as Hle.
    { intros x y a b Hx Hy Hxy Hlx Ha Hb.
      destruct (hand_rank_sublists x Hlx) as (a' & Ha' & (five & Hs & Hn & Hsc) & _).
      destruct (hand_rank_sublists y) as (b' & Hb' & _ & Hmax).
      { by rewrite <-Hxy. }
      simplify_eq.
      destruct (subset_sublist_perm five y) as (sub & Hsy & Hps); [done| | |].
      - by apply (sublist_NoDup five x).
      - intros c Hc. rewrite <-Hxy. by apply (sublist_subseteq five x).
      - rewrite <-(score_five_perm _ _ Hps). apply Hmax; [done|].
        by rewrite Hps. }
    destruct (hand_rank_is_Some h1) as [a Ha]; [lia|].
    destruct (hand_rank_is_Some h2) as [b Hb]; [rewrite <-Hp; lia|].
    rewrite Ha, Hb. f_equal. apply hr_le_antisym.
    + apply (Hle h1 h2); try done. lia.
    + apply (Hle h2 h1); try done. rewrite <-Hp. lia.
Qed.

Lemma score_five_category (cards : list Card) :
  0 ≤ (score_five cards).1 ≤ 8.
Proof.
  unfold score_five.
  repeat match goal with
         | |- context [if ?c then _ else _] => destruct c
         end; simpl; lia.
Qed.

Lemma HNAMES_is_Some (c : Z) : 0 ≤ c ≤ 8 → is_Some (HNAMES c).
Proof.
  intros Hc. unfold HNAMES.
  repeat match goal with
         | |- context [?a =? ?b] => destruct (Z.eqb_spec a b)
         end; try by eexists.
  lia.
Qed.

(** X5.  [best_hand_name] raises exactly when hole and community hold
    fewer than five cards in all; otherwise it returns the name [HNAMES]
    has for the category of [hand_rank], which is between 0 and 8. *)
Theorem best_hand_name_defined (hole comm : list Card) :
  (best_hand_name hole comm = None ↔ (length hole + length comm < 5)%nat) ∧
  ∀ r, hand_rank (hole ++ comm) = Some r →
       0 ≤ r.1 ≤ 8 ∧ best_hand_name hole comm = HNAMES r.1.
Proof.
  assert (∀ r, hand_rank (hole ++ comm) = Some r → 0 ≤ r.1 ≤ 8) as Hcat.
  { intros r Hr.
    pose proof (hand_rank_Some_length _ _ Hr) as Hlen.
    destruct (hand_rank_sublists _ Hlen) as (b & Hb & (five & _ & _ & Hsc) & _).
    simplify_eq. apply score_five_category. }
  split.
  - unfold best_hand_name. rewrite <-length_app.
    destruct (hand_rank (hole ++ comm)) as [r|] eqn:Hr; simpl.
    + destruct (HNAMES_is_Some r.1 (Hcat r eq_refl)) as [nm ->].
      split; [done|]. intros Hlt.
      pose proof (hand_rank_Some_length _ _ Hr). lia.
    + split; [|done]. intros _.
      destruct (decide (length (hole ++ comm) < 5)%nat) as [|Hge]; [done|].
      destruct (hand_rank_is_Some (hole ++ comm)) as [r Hr']; [lia|].
      congruence.
  - intros r Hr. split; [by apply Hcat|].
    unfold best_hand_name. by rewrite Hr.
Qed.

(** ** The categories of [score_five] *)

Lemma score_five_score_of (cards : list Card) :
  score_five cards = score_of (sorted_vals cards) (is_flush cards).
Proof. reflexivity. Qed.

(** [class_check] holds on every list of five values between 2 and 14 in
    descending order, with and without a flush. *)
Lemma all_sorted_checked :
  forallb (λ a,
    forallb (λ b,
      forallb (λ c,
        forallb (λ d,
          forallb (λ e,
            class_check [a; b; c; d; e] true && class_check [a; b; c; d; e] false)
            (seqZ 2 (d - 1)))
          (seqZ 2 (c - 1)))
        (seqZ 2 (b - 1)))
      (seqZ 2 (a - 1)))
    (seqZ 2 13) = true.
Proof. by vm_compute. Qed.

Lemma forallb_seqZ (f : Z → bool) (m n x : Z) :
  forallb f (seqZ m n) = true → m ≤ x < m + n → f x = true.
Proof.
  intros H Hx. rewrite forallb_forall in H. apply H.
  by apply list_elem_of_In, elem_of_seqZ.
Qed.

Lemma class_check_sorted (a b c d e : Z) (fl : bool) :
  2 ≤ e → e ≤ d → d ≤ c → c ≤ b → b ≤ a → a ≤ 14 →
  class_check [a; b; c; d; e] fl = true.
Proof.
  intros He Hd Hc Hb Ha Ha'.
  pose proof all_sorted_checked as H.
  apply (forallb_seqZ _ _ _ a) in H; [|lia].
  apply (forallb_seqZ _ _ _ b) in H; [|lia].
  apply (forallb_seqZ _ _ _ c) in H; [|lia].
  apply (forallb_seqZ _ _ _ d) in H; [|lia].
  apply (forallb_seqZ _ _ _ e) in H; [|lia].
  apply andb_true_iff in H as [Ht Hf].
  destruct fl; [exact Ht | exact Hf].
Qed.

Lemma insert_desc_descending (x : Z) (l : list Z) :
  descending l → descending (Py.insert_desc Z.ltb id x l).
Proof.
  induction l as [|y l IH]; simpl; [by split|].
  intros [Hy Hl]. unfold id. destruct (Z.ltb_spec x y) as [Hlt|Hge]; simpl.
  - split; [|by apply IH].
    rewrite insert_desc_perm. constructor; [lia | done].
  - split; [|by split]. constructor; [done|].
    eapply Forall_impl; [exact Hy|]. simpl. intros z Hz. lia.
Qed.

Lemma sorted_rev_descending (l : list Z) :
  descending (Py.sorted_rev Z.ltb id l).
Proof.
  induction l as [|x l IH]; simpl; [done|]. by apply insert_desc_descending.
Qed.

Lemma rank_vals_range (cards : list Card) :
  Forall (λ v, 2 ≤ v ≤ 14) (rank_vals cards).
Proof.
  unfold rank_vals. induction cards as [|[r s] cards IH]; simpl; constructor;
    [|done]. destruct r; simpl; lia.
Qed.

Lemma sorted_vals_perm_vals (cards : list Card) :
  sorted_vals cards ≡ₚ rank_vals cards.
Proof. apply sorted_rev_permutation. Qed.

(** The sorted values of five cards: five values from 14 down to 2. *)
Lemma sorted_vals_shape (cards : list Card) :
  length cards = 5%nat →
  ∃ a b c d e,
    sorted_vals cards = [a; b; c; d; e] ∧
    2 ≤ e ∧ e ≤ d ∧ d ≤ c ∧ c ≤ b ∧ b ≤ a ∧ a ≤ 14.
Proof.
  intros Hlen.
  pose proof (sorted_rev_descending (rank_vals cards)) as Hdesc.
  pose proof (rank_vals_range cards) as Hrange.
  pose proof (sorted_vals_perm_vals cards) as Hperm.
  rewrite <-Hperm in Hrange.
  assert (length (sorted_vals cards) = 5%nat) as Hl.
  { rewrite Hperm. unfold rank_vals. by rewrite length_map. }
  change (Py.sorted_rev Z.ltb id (rank_vals cards)) with (sorted_vals cards)
    in Hdesc.
  destruct (sorted_vals cards) as [|a [|b [|c [|d [|e [|? ?]]]]]];
    simplify_eq/=.
  exists a, b, c, d, e. split; [done|].
  destruct Hdesc as (Ha & Hb & Hc & Hd & _).
  repeat match goal with
         | H : Forall _ (_ :: _) |- _ => apply Forall_cons in H as [? ?]
         end.
  lia.
Qed.

Lemma occurrences_perm (v : Z) (l1 l2 : list Z) :
  l1 ≡ₚ l2 → occurrences v l1 = occurrences v l2.
Proof. intros Hp. unfold occurrences. by rewrite Hp. Qed.

Lemma occurrences_elem (v : Z) (l : list Z) :
  (0 < occurrences v l)%nat → v ∈ l.
Proof.
  unfold occurrences. intros Hpos.
  destruct (filter (λ x, x = v) l) as [|x t] eqn:Hf; simpl in Hpos; [lia|].
  assert (x ∈ filter (λ x, x = v) l) as Hin by (rewrite Hf; by left).
  by apply list_elem_of_filter in Hin as [-> ?].
Qed.

Lemma has_countb_spec (k : nat) (vals sv : list Z) :
  (0 < k)%nat → sv ≡ₚ vals →
  has_countb k sv = true ↔ has_count k vals.
Proof.
  intros Hk Hp. unfold has_countb, has_count.
  rewrite bool_decide_eq_true, Exists_exists. split.
  - intros (v & _ & Hv). exists v. by rewrite <-(occurrences_perm v _ _ Hp).
  - intros (v & Hv). rewrite <-(occurrences_perm v _ _ Hp) in Hv.
    exists v. split; [|done]. apply occurrences_elem. lia.
Qed.

Lemma has_two_pairsb_spec (vals sv : list Z) :
  sv ≡ₚ vals → has_two_pairsb sv = true ↔ has_two_pairs vals.
Proof.
  intros Hp. unfold has_two_pairsb, has_two_pairs.
  rewrite bool_decide_eq_true, Exists_exists. split.
  - intros (v & _ & Hv & (w & _ & Hne & Hw)%Exists_exists). exists v, w.
    by rewrite <-(occurrences_perm v _ _ Hp), <-(occurrences_perm w _ _ Hp).
  - intros (v & w & Hne & Hv & Hw).
    rewrite <-(occurrences_perm v _ _ Hp) in Hv.
    rewrite <-(occurrences_perm w _ _ Hp) in Hw.
    exists v. split; [apply occurrences_elem; lia|]. split; [done|].
    apply Exists_exists. exists w. split; [apply occurrences_elem; lia|done].
Qed.

Lemma sorted_rev_run (h : Z) :
  Py.sorted_rev Z.ltb id [h; h - 1; h - 2; h - 3; h - 4]
  = [h; h - 1; h - 2; h - 3; h - 4].
Proof.
  cbn. unfold id.
  repeat match goal with
         | |- context [Z.ltb ?a ?b] => destruct (Z.ltb_spec a b); try lia; cbn
         end.
  done.
Qed.

Lemma range_down_five (h : Z) :
  Py.range_down h 5 = [h; h - 1; h - 2; h - 3; h - 4].
Proof. simpl. repeat (f_equal; try lia). Qed.

Lemma straightb_spec (vals : list Z) :
  straightb (Py.sorted_rev Z.ltb id vals) = true ↔ straight_vals vals.
Proof.
  unfold straightb, straight_vals. rewrite bool_decide_eq_true.
  pose proof (sorted_rev_permutation Z.ltb id vals) as Hp.
  rewrite range_down_five. split.
  - intros [Hrun|Hwheel].
    + left. exists (hd 0 (Py.sorted_rev Z.ltb id vals)).
      by rewrite <-Hrun.
    + right. by rewrite <-Hp, Hwheel.
  - intros [[h Hh]|Hw].
    + left. by rewrite (sorted_rev_perm _ _ Hh), sorted_rev_run.
    + right. by rewrite (sorted_rev_perm _ _ Hw).
Qed.

(** X6.  The category [score_five] gives five cards is the one of the
    poker ranking table, read on the rank values whatever the order of the
    cards: 8 for a straight with a flush, 7 when a value occurs four times,
    6 for three of one value and two of another, 5 for a flush that is
    nothing higher, 4 for a straight without flush, 3 for three of a value
    without a pair or flush, 2 for two pairs without flush, 1 for a single
    pair, 0 when nothing applies.  The wheel A-2-3-4-5 counts as a
    straight. *)
Theorem score_five_classifies (cards : list Card) :
  length cards = 5%nat →
  let vals := rank_vals cards in
  let cat := (score_five cards).1 in
  let fl := is_flush cards = true in
  let st := straight_vals vals in
  (cat = 8 ∧ st ∧ fl) ∨
  (cat = 7 ∧ has_count 4 vals) ∨
  (cat = 6 ∧ has_count 3 vals ∧ has_count 2 vals) ∨
  (cat = 5 ∧ fl ∧ ¬ st ∧ ¬ has_count 4 vals ∧
   ¬ (has_count 3 vals ∧ has_count 2 vals)) ∨
  (cat = 4 ∧ st ∧ ¬ fl) ∨
  (cat = 3 ∧ has_count 3 vals ∧ ¬ has_count 2 vals ∧ ¬ fl) ∨
  (cat = 2 ∧ has_two_pairs vals ∧ ¬ fl) ∨
  (cat = 1 ∧ has_count 2 vals ∧ ¬ has_two_pairs vals ∧
   ¬ has_count 3 vals ∧ ¬ fl) ∨
  (cat = 0 ∧ ¬ has_count 2 vals ∧ ¬ has_count 3 vals ∧
   ¬ has_count 4 vals ∧ ¬ st ∧ ¬ fl).
Proof.
  intros Hlen vals cat fl st.
  destruct (sorted_vals_shape cards Hlen)
    as (a & b & c & d & e & Hsv & He & Hd & Hc & Hb & Ha & Ha').
  pose proof (class_check_sorted a b c d e (is_flush cards) He Hd Hc Hb Ha Ha')
    as Hchk.
  rewrite <-Hsv in Hchk. unfold class_check in Hchk.
  rewrite <-score_five_score_of in Hchk. fold cat in Hchk.
  pose proof (sorted_vals_perm_vals cards) as Hperm. fold vals in Hperm.
  pose proof (straightb_spec vals) as Hst.
  change (Py.sorted_rev Z.ltb id vals) with (sorted_vals cards) in Hst.
  fold st in Hst.
  pose proof (has_countb_spec 4 vals _ ltac:(lia) Hperm) as H4.
  pose proof (has_countb_spec 3 vals _ ltac:(lia) Hperm) as H3.
  pose proof (has_countb_spec 2 vals _ ltac:(lia) Hperm) as H2.
  pose proof (has_two_pairsb_spec vals _ Hperm) as Htp.
  cbn zeta in Hchk.
  rewrite !orb_true_iff, !andb_true_iff, !negb_true_iff, !andb_false_iff,
    !Z.eqb_eq, <-!not_true_iff_false in Hchk.
  rewrite Hst, H4, H3, H2, Htp in Hchk. fold fl in Hchk.
  clearbody cat fl st. clear -Hchk.
  generalize dependent (has_count 4 vals).
  generalize dependent (has_count 3 vals).
  generalize dependent (has_count 2 vals).
  generalize dependent (has_two_pairs vals).
  intros. tauto.
Qed.

(** ** Turns *)

(** X7.  When [next_action] hands the turn to a seat, that seat was at the
    head of the queue and is taken off it, its player is not folded and has
    chips, at least two players are still in the hand, the amount to call
    is [max(0, hbet - bet)], which is never negative, and nothing else
    changes. *)
Theorem next_action_turn (st st' : State) (idx : nat) (call mr : Z) :
  next_action st = Some (st', GoTurn idx call mr) →
  ∃ rest p,
    aq st = idx :: rest ∧ st' = set_aq st rest ∧
    players st !! idx = Some p ∧ folded p = false ∧ stack p ≠ 0 ∧
    (2 ≤ length (active (players st)))%nat ∧
    call = Z.max 0 (hbet st - bet p) ∧ 0 ≤ call ∧
    mr = Z.max (BB st) (hbet st * 2) - bet p.
Proof.
  unfold next_action. intros H.
  case_bool_decide as Hact; [by simplify_eq|].
  destruct (aq st) as [|i rest] eqn:Haq; [by simplify_eq|].
  apply bind_Some in H as (p & Hp & H). simpl in Hp.
  destruct (folded p) eqn:Hf; simpl in H; [by simplify_eq|].
  destruct (Z.eqb_spec (stack p) 0) as [|Hs]; simplify_eq.
  exists rest, p. split_and!; try done; lia.
Qed.

(** X8.  A call on one's turn, by a player whose bet does not exceed the
    bet to match, either brings the bet up to the bet to match or puts the
    whole stack in; the chips leave the stack for the bet and the pot, and
    the bet to match and the queue stay as they are. *)
Theorem turn_call_matches (st : State) (idx : nat) (p : Player) (amt mr : Z) :
  players st !! idx = Some p →
  0 ≤ stack p → bet p ≤ hbet st →
  ∃ st' p',
    apply st idx Call amt (Z.max 0 (hbet st - bet p)) mr = Some (st', GoNextAction) ∧
    players st' !! idx = Some p' ∧
    (bet p' = hbet st ∨ (stack p' = 0 ∧ bet p' < hbet st)) ∧
    stack p' + bet p' = stack p + bet p ∧
    pot st' - pot st = stack p - stack p' ∧
    hbet st' = hbet st ∧ aq st' = aq st.
Proof.
  intros Hp Hs Hb. unfold apply. rewrite Hp. simpl.
  eexists _, _. split; [done|]. simpl.
  split; [apply list_lookup_insert_eq; by eapply lookup_lt_Some|].
  simpl. split_and!; try done; lia.
Qed.

(** X9.  The all-in button commits the whole stack: the player is left
    with no chips, bet and pot grow by the stack, and the bet to match
    becomes the new bet when that is higher. *)
Theorem all_in_commits_stack (st : State) (idx : nat) (p : Player)
    (call mr : Z) :
  players st !! idx = Some p →
  ∃ st' p',
    human_turn st idx call mr BtnAllIn = Some (inr (st', GoNextAction)) ∧
    players st' !! idx = Some p' ∧
    stack p' = 0 ∧ bet p' = bet p + stack p ∧
    pot st' = pot st + stack p ∧
    hbet st' = Z.max (hbet st) (bet p + stack p).
Proof.
  intros Hp. unfold human_turn. rewrite Hp. simpl.
  rewrite (apply_raise st idx p (stack p - call) call mr Hp). cbn zeta.
  replace (call + (stack p - call)) with (stack p) by lia.
  rewrite Z.min_id. simpl.
  destruct (Z.gtb_spec (bet p + stack p) (hbet st)) as [Hgt|Hle]; simpl;
    eexists _, _; (split; [done|]); simpl;
    (split; [apply list_lookup_insert_eq; by eapply lookup_lt_Some|]);
    simpl; split_and!; lia.
Qed.

(** X10.  The raise entry of the human, on a turn with the call amount
    [max(0, hbet - bet)] of [next_action]: [do_raise] rejects an entry that
    is no number, is below [max(mr, 1)] or is above the stack, and changes
    nothing then.  An accepted raise by [amt] moves [min(call + amt, stack)]
    from the stack to the bet and makes the bet to match the larger of the
    old one and the player's new bet; unless it puts the whole stack in,
    the new bet is [bet + call + amt], it is the new bet to match, and the
    bet to match has grown by [amt] or more: by exactly [amt] when the
    player's bet did not exceed it, by more after a big blind that was
    posted short. *)
Theorem human_raise_checked (st : State) (idx : nat) (p : Player)
    (mr : Z) (entry : option Z) :
  players st !! idx = Some p →
  let call := Z.max 0 (hbet st - bet p) in
  match entry with
  | None =>
      human_turn st idx call mr (BtnRaise None) = Some (inl NotANumber)
  | Some amt =>
      if decide (amt < Z.max mr 1) then
        human_turn st idx call mr (BtnRaise (Some amt))
        = Some (inl (BelowMinimum (Z.max mr 1)))
      else if decide (stack p < amt) then
        human_turn st idx call mr (BtnRaise (Some amt))
        = Some (inl (AboveStack (stack p)))
      else
        ∃ st' p',
          human_turn st idx call mr (BtnRaise (Some amt))
          = Some (inr (st', GoNextAction)) ∧
          players st' !! idx = Some p' ∧
          stack p' = stack p - Z.min (call + amt) (stack p) ∧
          bet p' = bet p + Z.min (call + amt) (stack p) ∧
          hbet st' = Z.max (hbet st) (bet p') ∧
          (stack p' = 0 ∨
           (bet p' = bet p + call + amt ∧ hbet st' = bet p' ∧
            hbet st + amt ≤ hbet st' ∧
            (bet p ≤ hbet st → hbet st' = hbet st + amt)))
  end.
Proof.
  intros Hp call. unfold human_turn. rewrite Hp. simpl.
  destruct entry as [amt|]; [|done].
  destruct (decide (amt < Z.max mr 1)) as [Hlo|Hlo].
  { by rewrite (proj2 (Z.ltb_lt _ _) Hlo). }
  rewrite (proj2 (Z.ltb_ge _ _)) by lia.
  destruct (decide (stack p < amt)) as [Hhi|Hhi].
  { by rewrite (proj2 (Z.ltb_lt _ _) Hhi). }
  rewrite (proj2 (Z.ltb_ge _ _)) by lia.
  rewrite (apply_raise st idx p amt call mr Hp). cbn zeta.
  simpl.
  destruct (Z.gtb_spec (bet p + (call + amt) `min` stack p)
              (hbet st)) as [Hgt|Hle]; simpl;
    eexists _, _; (split; [done|]); simpl;
    (split; [apply list_lookup_insert_eq; by eapply lookup_lt_Some|]);
    simpl; subst call; lia.
Qed.

(** ** Seats, blinds and queues *)

Lemma head_filter_spec {A} (P : A → Prop) `{∀ x, Decision (P x)} (l : list A) :
  match head (filter P l) with
  | Some x => ∃ l1 l2, l = l1 ++ x :: l2 ∧ P x ∧ Forall (λ y, ¬ P y) l1
  | None => Forall (λ y, ¬ P y) l
  end.
Proof.
  induction l as [|y l IH]; simpl; [done|].
  rewrite filter_cons. destruct (decide (P y)) as [Hy|Hy]; simpl.
  - by exists [], l.
  - destruct (head (filter P l)) as [x|].
    + destruct IH as (l1 & l2 & -> & Hx & Hl1).
      exists (y :: l1), l2. split_and!; [done | done | by constructor].
    + by constructor.
Qed.

Lemma next_alive_scan (ps : list Player) (after : nat) :
  match next_alive ps after with
  | Some i =>
      ∃ off, (1 ≤ off ≤ 4)%nat ∧ i = ((after + off) `mod` 4)%nat ∧
             seat_funded ps i = true ∧
             ∀ off', (1 ≤ off' < off)%nat →
                     seat_funded ps ((after + off') `mod` 4) = false
  | None => ∀ i, (i < 4)%nat → seat_funded ps i = false
  end.
Proof.
  unfold next_alive.
  pose proof (head_filter_spec (λ i, seat_funded ps i = true)
                (map (λ off, (after + off) `mod` 4)%nat [1; 2; 3; 4]%nat)) as H.
  change (λ i, from_option (λ p, bool_decide (0 < stack p)) false (ps !! i) = true)
    with (λ i, seat_funded ps i = true).
  destruct (head _) as [i|].
  - destruct H as (l1 & l2 & Hl & Hi & Hl1). cbn [map] in Hl.
    destruct l1 as [|a1 [|a2 [|a3 [|a4 l1]]]]; cbn [app] in Hl; simplify_eq.
    + exists 1%nat. split_and!; try done; lia.
    + exists 2%nat. split_and!; try done; try lia.
      intros off' Ho. assert (off' = 1%nat) as -> by lia.
      apply not_true_is_false. by apply Forall_cons in Hl1 as [? _].
    + exists 3%nat. split_and!; try done; try lia.
      intros off' Ho.
      apply Forall_cons in Hl1 as [? [? _]%Forall_cons].
      assert (off' = 1 ∨ off' = 2)%nat as [->| ->] by lia;
        by apply not_true_is_false.
    + exists 4%nat. split_and!; try done; try lia.
      intros off' Ho.
      apply Forall_cons in Hl1 as [? [? [? _]%Forall_cons]%Forall_cons].
      assert (off' = 1 ∨ off' = 2 ∨ off' = 3)%nat as [->|[->| ->]] by lia;
        by apply not_true_is_false.
    + by destruct l1.
  - cbn [map] in H.
    apply Forall_cons in H as [? [? [? [? _]%Forall_cons]%Forall_cons]%Forall_cons].
    intros i Hi.
    assert (i = (after + 1) `mod` 4 ∨ i = (after + 2) `mod` 4 ∨
            i = (after + 3) `mod` 4 ∨ i = (after + 4) `mod` 4)%nat
      as [->|[->|[->| ->]]]; try by apply not_true_is_false.
    pose proof (Nat.mod_upper_bound after 4 ltac:(lia)) as Hr.
    rewrite <-!(Nat.Div0.add_mod_idemp_l after _ 4).
    destruct (after `mod` 4)%nat as [|[|[|[|r]]]]; simpl; lia.
Qed.

(** X11.  [next_alive], the scan [preflop] and [end_hand] use, returns the
    seat [i] exactly when [i] is the first seat clockwise after [after]
    whose player has chips, looking at the four seats and at [after]
    itself last; it returns [None] exactly when no seat has chips. *)
Theorem next_alive_spec (ps : list Player) (after : nat) :
  (∀ i, next_alive ps after = Some i ↔
        ∃ off, (1 ≤ off ≤ 4)%nat ∧ i = ((after + off) `mod` 4)%nat ∧
               seat_funded ps i = true ∧
               ∀ off', (1 ≤ off' < off)%nat →
                       seat_funded ps ((after + off') `mod` 4) = false) ∧
  (next_alive ps after = None ↔
   ∀ i, (i < 4)%nat → seat_funded ps i = false).
Proof.
  pose proof (next_alive_scan ps after) as H.
  assert (∀ k, (k `mod` 4 < 4)%nat) as Hmod
    by (intros k; apply Nat.mod_upper_bound; lia).
  split; [intros i|]; split.
  - intros E. by rewrite E in H.
  - intros (off & Ho & -> & Hf & Hmin).
    destruct (next_alive ps after) as [j|].
    + destruct H as (off2 & Ho2 & -> & Hf2 & Hmin2).
      destruct (lt_eq_lt_dec off2 off) as [[Hlt| ->]|Hgt]; [|done|].
      * specialize (Hmin off2 ltac:(lia)). congruence.
      * specialize (Hmin2 off ltac:(lia)). congruence.
    + specialize (H _ (Hmod (after + off)%nat)). congruence.
  - intros E. by rewrite E in H.
  - intros Hall. destruct (next_alive ps after) as [j|]; [|done].
    destruct H as (off2 & _ & -> & Hf2 & _).
    specialize (Hall _ (Hmod (after + off2)%nat)). congruence.
Qed.

Lemma seat_live_lookup (ps : list Player) (k : nat) (p : Player) :
  ps !! k = Some p →
  seat_live ps k = negb (folded p) && bool_decide (0 < stack p).
Proof. intros H. unfold seat_live. by rewrite H. Qed.

Lemma seat_funded_lookup (ps : list Player) (k : nat) (p : Player) :
  ps !! k = Some p → seat_funded ps k = bool_decide (0 < stack p).
Proof. intros H. unfold seat_funded. by rewrite H. Qed.

Lemma four_seats (ps seats : list Player) :
  mapM (λ i, ps !! i) [0; 1; 2; 3]%nat = Some seats →
  ∃ p0 p1 p2 p3,
    seats = [p0; p1; p2; p3] ∧
    ps !! 0%nat = Some p0 ∧ ps !! 1%nat = Some p1 ∧
    ps !! 2%nat = Some p2 ∧ ps !! 3%nat = Some p3.
Proof.
  cbn [mapM]. intros H.
  apply bind_Some in H as (p0 & H0 & H).
  apply bind_Some in H as (t0 & H & Ht0).
  apply bind_Some in H as (p1 & H1 & H).
  apply bind_Some in H as (t1 & H & Ht1).
  apply bind_Some in H as (p2 & H2 & H).
  apply bind_Some in H as (t2 & H & Ht2).
  apply bind_Some in H as (p3 & H3 & H).
  apply bind_Some in H as (t3 & H & Ht3).
  unfold mret, option_ret in *. simplify_eq.
  by exists p0, p1, p2, p3.
Qed.

(** The seats clockwise from [start]: each of the four seats once. *)
Lemma clockwise_seats (start : nat) :
  (start < 4)%nat →
  NoDup (map (λ k, (start + k) `mod` 4)%nat [0; 1; 2; 3]%nat) ∧
  ∀ j, j ∈ map (λ k, (start + k) `mod` 4)%nat [0; 1; 2; 3]%nat ↔ (j < 4)%nat.
Proof.
  intros Hs. destruct start as [|[|[|[|]]]]; try lia; cbn; split;
    try (apply (bool_decide_unpack _); by vm_compute);
    intros j; rewrite !elem_of_cons, elem_of_nil; lia.
Qed.

Lemma preflop_order_spec (ps : list Player) (p0 p1 p2 p3 : Player) (start : nat) :
  ps !! 0%nat = Some p0 → ps !! 1%nat = Some p1 →
  ps !! 2%nat = Some p2 → ps !! 3%nat = Some p3 →
  (start < 4)%nat →
  preflop_order ps 4 start []
  = Some (filter (λ j, seat_live ps j = true)
            (map (λ k, (start + k) `mod` 4)%nat [0; 1; 2; 3]%nat)).
Proof.
  intros H0 H1 H2 H3 Hs.
  pose proof (seat_live_lookup ps 0 p0 H0) as L0.
  pose proof (seat_live_lookup ps 1 p1 H1) as L1.
  pose proof (seat_live_lookup ps 2 p2 H2) as L2.
  pose proof (seat_live_lookup ps 3 p3 H3) as L3.
  destruct start as [|[|[|[|]]]]; try lia;
    cbn -[seat_live]; rewrite ?H0, ?H1, ?H2, ?H3; cbn -[seat_live];
    rewrite ?H0, ?H1, ?H2, ?H3; cbn -[seat_live];
    rewrite !(andb_comm (bool_decide _) (negb _)), <-?L0, <-?L1, <-?L2, <-?L3;
    destruct (seat_live ps 0), (seat_live ps 1), (seat_live ps 2),
      (seat_live ps 3); reflexivity.
Qed.

(** With fewer than two funded seats beside [s], at most one of the four
    players has chips. *)
Lemma lone_funded (ps : list Player) (p0 p1 p2 p3 : Player) (s : nat) :
  ps !! 0%nat = Some p0 → ps !! 1%nat = Some p1 →
  ps !! 2%nat = Some p2 → ps !! 3%nat = Some p3 →
  (s < 4)%nat →
  (∀ off, (1 ≤ off < 4)%nat → seat_funded ps ((s + off) `mod` 4) = false) →
  (length (filter (λ p, (0 < stack p)%Z) [p0; p1; p2; p3]) ≤ 1)%nat.
Proof.
  intros H0 H1 H2 H3 Hs Hoff.
  pose proof (Hoff 1%nat ltac:(lia)) as F1.
  pose proof (Hoff 2%nat ltac:(lia)) as F2.
  pose proof (Hoff 3%nat ltac:(lia)) as F3.
  rewrite !filter_cons, filter_nil.
  pose proof (seat_funded_lookup _ _ _ H0) as E0.
  pose proof (seat_funded_lookup _ _ _ H1) as E1.
  pose proof (seat_funded_lookup _ _ _ H2) as E2.
  pose proof (seat_funded_lookup _ _ _ H3) as E3.
  destruct s as [|[|[|[|]]]]; try lia;
    cbn -[seat_funded] in F1, F2, F3;
    rewrite ?E0, ?E1, ?E2, ?E3 in F1;
    rewrite ?E0, ?E1, ?E2, ?E3 in F2;
    rewrite ?E0, ?E1, ?E2, ?E3 in F3;
    apply bool_decide_eq_false in F1, F2, F3;
    repeat match goal with
           | |- context [decide (0 < ?x)] => destruct (decide (0 < x))
           end; simpl; try lia; done.
Qed.

(** What [preflop] does when it posts the blinds. *)
Lemma preflop_inv (st st' : State) :
  preflop st = Some (st', GoNextAction) →
  ∃ sbi bbi sb bb start,
    next_alive (players st) (dealer st) = Some sbi ∧
    next_alive (players st) sbi = Some bbi ∧
    sbi ≠ bbi ∧ (bbi < 4)%nat ∧
    players st !! sbi = Some sb ∧ players st !! bbi = Some bb ∧
    0 < stack sb ∧ 0 < stack bb ∧
    players st' = <[bbi := commit bb (Z.min (BB st) (stack bb))]>
                    (<[sbi := commit sb (Z.min (SB st) (stack sb))]> (players st)) ∧
    pot st' = pot st + Z.min (SB st) (stack sb) + Z.min (BB st) (stack bb) ∧
    hbet st' = bet bb + Z.min (BB st) (stack bb) ∧
    next_alive (players st') bbi = Some start ∧ (start < 4)%nat ∧
    aq st' = filter (λ j, seat_live (players st') j = true)
               (map (λ k, (start + k) `mod` 4)%nat [0; 1; 2; 3]%nat).
Proof.
  unfold preflop. intros H.
  apply bind_Some in H as (seats & Hseats & H).
  case_bool_decide as Halive; [by simplify_eq|].
  apply bind_Some in H as (sbi & Hsbi & H).
  apply bind_Some in H as (bbi & Hbbi & H).
  apply bind_Some in H as (st1 & H1 & H).
  apply bind_Some in H as (st2 & H2 & H).
  apply bind_Some in H as (bb' & Hbb' & H).
  apply bind_Some in H as (start & Hstart & H).
  apply bind_Some in H as (order & Horder & H).
  change (players (set_hbet st2 (bet bb'))) with (players st2) in Hstart, Horder.
  change (players (set_hbet st 0)) with (players st) in Hseats, Hsbi, Hbbi.
  change (dealer (set_hbet st 0)) with (dealer st) in Hsbi.
  destruct (four_seats _ _ Hseats) as (p0 & p1 & p2 & p3 & -> & L0 & L1 & L2 & L3).
  pose proof (next_alive_scan (players st) (dealer st)) as Ssb.
  rewrite Hsbi in Ssb. destruct Ssb as (o1 & Ho1 & Esb & Fsb & _).
  pose proof (next_alive_scan (players st) sbi) as Sbb.
  rewrite Hbbi in Sbb. destruct Sbb as (o2 & Ho2 & Ebb & Fbb & Mbb).
  assert (sbi < 4)%nat as Hs4 by (rewrite Esb; by apply Nat.mod_upper_bound).
  assert (bbi < 4)%nat as Hb4 by (rewrite Ebb; by apply Nat.mod_upper_bound).
  assert (sbi ≠ bbi) as Hne.
  { intros Heq. assert (o2 = 4%nat) as ->.
    { rewrite <-Heq in Ebb.
      destruct sbi as [|[|[|[|]]]], o2 as [|[|[|[|[|]]]]]; try lia;
        cbn in Ebb; lia. }
    pose proof (lone_funded _ _ _ _ _ sbi L0 L1 L2 L3 Hs4 Mbb). lia. }
  clear Esb Ebb Mbb.
  unfold post_blind in H1, H2. simpl in H1.
  apply bind_Some in H1 as (sb & Hsb & H1).
  apply bind_Some in H2 as (bb & Hbb & H2). simplify_eq.
  cbn [players pot SB BB hbet aq dealer set_pot set_players set_hbet set_aq] in *.
  rewrite list_lookup_insert_ne in Hbb by done.
  rewrite list_lookup_insert_eq in Hbb' by
    (rewrite length_insert; by eapply lookup_lt_Some).
  simplify_eq.
  pose proof (next_alive_scan
                (<[bbi:=commit bb (BB st `min` stack bb)]>
                   (<[sbi:=commit sb (SB st `min` stack sb)]> (players st)))
                bbi) as Sst.
  rewrite Hstart in Sst. destruct Sst as (o3 & Ho3 & Est & _).
  assert (start < 4)%nat as Hst4 by (rewrite Est; by apply Nat.mod_upper_bound).
  clear Est.
  exists sbi, bbi, sb, bb, start.
  rewrite (seat_funded_lookup _ _ _ Hsb) in Fsb.
  rewrite (seat_funded_lookup _ _ _ Hbb) in Fbb.
  apply bool_decide_eq_true in Fsb, Fbb.
  split_and!; try done; try (simpl; lia).
  set (ps := <[bbi:=_]> _) in *.
  assert (∀ k p, (k < 4)%nat → players st !! k = Some p → is_Some (ps !! k))
    as Hk.
  { intros k p _ Hp. apply lookup_lt_is_Some. subst ps.
    rewrite !length_insert. by eapply lookup_lt_Some. }
  destruct (Hk 0%nat p0) as [q0 Q0]; [lia | done |].
  destruct (Hk 1%nat p1) as [q1 Q1]; [lia | done |].
  destruct (Hk 2%nat p2) as [q2 Q2]; [lia | done |].
  destruct (Hk 3%nat p3) as [q3 Q3]; [lia | done |].
  rewrite (preflop_order_spec ps q0 q1 q2 q3 start Q0 Q1 Q2 Q3 Hst4) in Horder.
  by simplify_eq.
Qed.

(** X12.  With at least two players holding chips, [preflop] takes the
    small blind from the first funded seat after the dealer and the big
    blind from the next funded seat, a different one; each posts
    [min(blind, stack)] from its stack into its bet and the pot, nobody
    else's chips move, and the bet to match becomes the big blind's bet. *)
Theorem preflop_posts_blinds (st st' : State) :
  preflop st = Some (st', GoNextAction) →
  ∃ sbi bbi sb bb,
    next_alive (players st) (dealer st) = Some sbi ∧
    next_alive (players st) sbi = Some bbi ∧
    sbi ≠ bbi ∧
    players st !! sbi = Some sb ∧ players st !! bbi = Some bb ∧
    0 < stack sb ∧ 0 < stack bb ∧
    players st' = <[bbi := commit bb (Z.min (BB st) (stack bb))]>
                    (<[sbi := commit sb (Z.min (SB st) (stack sb))]> (players st)) ∧
    pot st' = pot st + Z.min (SB st) (stack sb) + Z.min (BB st) (stack bb) ∧
    hbet st' = bet bb + Z.min (BB st) (stack bb).
Proof.
  intros H. destruct (preflop_inv st st' H)
    as (sbi & bbi & sb & bb & start & ? & ? & ? & ? & ? & ? & ? & ? & ? & ? & ? & _).
  by exists sbi, bbi, sb, bb.
Qed.

(** X13.  The queue [preflop] builds holds exactly the seats whose player,
    after the blinds, is not folded and has chips, each once, clockwise
    from the first funded seat after the big blind. *)
Theorem preflop_queue (st st' : State) :
  preflop st = Some (st', GoNextAction) →
  ∃ sbi bbi start,
    next_alive (players st) (dealer st) = Some sbi ∧
    next_alive (players st) sbi = Some bbi ∧
    next_alive (players st') bbi = Some start ∧
    aq st' = filter (λ j, seat_live (players st') j = true)
               (map (λ k, (start + k) `mod` 4)%nat [0; 1; 2; 3]%nat) ∧
    NoDup (aq st') ∧
    ∀ j, j ∈ aq st' ↔ (j < 4)%nat ∧ seat_live (players st') j = true.
Proof.
  intros H. destruct (preflop_inv st st' H)
    as (sbi & bbi & sb & bb & start & ? & ? & _ & _ & _ & _ & _ & _ & _ & _ & _
        & ? & Hs4 & Haq).
  exists sbi, bbi, start. destruct (clockwise_seats start Hs4) as [Hnd Hel].
  split_and!; try done.
  - rewrite Haq. by apply NoDup_filter.
  - intros j. rewrite Haq, list_elem_of_filter, Hel. tauto.
Qed.

Lemma live_iff (ps : list Player) (j : nat) (p : Player) :
  ps !! j = Some p →
  (folded p = false ∧ 0 < stack p) ↔ seat_live ps j = true.
Proof.
  intros H. rewrite (seat_live_lookup _ _ _ H), andb_true_iff, negb_true_iff,
    bool_decide_eq_true. done.
Qed.

Lemma street_queue_spec (ps : list Player) (start : nat) (q : list nat) :
  (start < 4)%nat → street_queue ps start = Some q →
  q = filter (λ j, seat_live ps j = true)
        (map (λ k, (start + k) `mod` 4)%nat [0; 1; 2; 3]%nat).
Proof.
  intros Hs H. unfold street_queue in H.
  apply bind_Some in H as (seats & Hseats & H). simplify_eq.
  destruct start as [|[|[|[|]]]]; try lia; cbn -[seat_live] in *;
    destruct (ps !! 0%nat) as [p0|] eqn:H0; try discriminate;
    destruct (ps !! 1%nat) as [p1|] eqn:H1; try discriminate;
    destruct (ps !! 2%nat) as [p2|] eqn:H2; try discriminate;
    destruct (ps !! 3%nat) as [p3|] eqn:H3; try discriminate;
    cbn -[seat_live] in Hseats; unfold mret, option_ret in Hseats;
    simplify_eq;
    rewrite !filter_cons, !filter_nil; cbn [fst snd];
    rewrite (decide_ext _ _ _ _ (live_iff ps 0 p0 H0)),
      (decide_ext _ _ _ _ (live_iff ps 1 p1 H1)),
      (decide_ext _ _ _ _ (live_iff ps 2 p2 H2)),
      (decide_ext _ _ _ _ (live_iff ps 3 p3 H3));
    destruct (decide (seat_live ps 0 = true)), (decide (seat_live ps 1 = true)),
      (decide (seat_live ps 2 = true)), (decide (seat_live ps 3 = true));
    reflexivity.
Qed.

Lemma seat_live_set_bet (ps : list Player) (v : Z) (j : nat) :
  seat_live (map (λ p, set_bet p v) ps) j = seat_live ps j.
Proof.
  unfold seat_live.
  change (map (λ p, set_bet p v) ps) with ((λ p, set_bet p v) <$> ps).
  rewrite list_lookup_fmap. by destruct (ps !! j).
Qed.

(** X14.  [street] adds the new cards to the board, sets every bet and the
    bet to match to 0, leaves stacks and pot alone, and queues exactly the
    seats whose player is not folded and has chips, each once, clockwise
    from the seat after the dealer. *)
Theorem street_spec (st st' : State) (cards : list Card) (nx : Next) :
  street st cards = Some (st', nx) →
  nx = GoNextAction ∧
  comm st' = comm st ++ cards ∧
  players st' = map (λ p, set_bet p 0) (players st) ∧
  hbet st' = 0 ∧ pot st' = pot st ∧
  aq st' = filter (λ j, seat_live (players st) j = true)
             (map (λ k, ((dealer st + 1) `mod` 4 + k) `mod` 4)%nat
                [0; 1; 2; 3]%nat) ∧
  NoDup (aq st') ∧
  ∀ j, j ∈ aq st' ↔ (j < 4)%nat ∧ seat_live (players st) j = true.
Proof.
  unfold street. intros H.
  apply bind_Some in H as (q & Hq & H). simplify_eq.
  cbn [players pot hbet aq dealer comm set_comm set_players set_hbet set_aq] in *.
  assert ((dealer st + 1) `mod` 4 < 4)%nat as Hs
    by (by apply Nat.mod_upper_bound).
  apply street_queue_spec in Hq; [|done].
  destruct (clockwise_seats _ Hs) as [Hnd Hel].
  assert (q = filter (λ j, seat_live (players st) j = true)
                (map (λ k, ((dealer st + 1) `mod` 4 + k) `mod` 4)%nat
                   [0; 1; 2; 3]%nat)) as ->.
  { rewrite Hq. apply filter_ext_elem. intros j _.
    by rewrite seat_live_set_bet. }
  split_and!; try done.
  - by apply NoDup_filter.
  - intros j. rewrite list_elem_of_filter, Hel. tauto.
Qed.

Lemma pop_spec {A} (d d' : list A) (c : A) :
  pop d = Some (c, d') → d = d' ++ [c].
Proof.
  unfold pop. destruct (reverse d) as [|x r] eqn:Hr; intros H; simplify_eq.
  rewrite <-(reverse_involutive d), Hr. by rewrite reverse_cons.
Qed.

Lemma pop_n_spec {A} (k : nat) (d d' cs : list A) :
  pop_n k d = Some (cs, d') → d = d' ++ reverse cs ∧ length cs = k.
Proof.
  revert d d' cs. induction k as [|k IH]; intros d d' cs H; simpl in H.
  - simplify_eq. by rewrite app_nil_r.
  - apply bind_Some in H as ([c d1] & Hc & H).
    apply bind_Some in H as ([cs' d2] & Hcs & H). simplify_eq.
    apply pop_spec in Hc as ->. apply IH in Hcs as [-> <-].
    split; [|done]. by rewrite reverse_cons, <-app_assoc.
Qed.

(** X15.  [advance] ends the hand when at most one player is left or the
    board is not at 0, 3 or 4 cards, and changes nothing then.  Otherwise
    it deals the next street from the end of the deck: three cards on an
    empty board, one card on a board of three or four; the cards on the
    board and in the deck together stay the same cards. *)
Theorem advance_spec (st st' : State) (nx : Next) :
  advance st = Some (st', nx) →
  (nx = GoEndHand ∧ st' = st ∧
   ((length (active (players st)) ≤ 1)%nat ∨
    (length (comm st) ≠ 0 ∧ length (comm st) ≠ 3 ∧ length (comm st) ≠ 4)%nat)) ∨
  (nx = GoNextAction ∧ (2 ≤ length (active (players st)))%nat ∧
   ∃ cards,
     comm st' = comm st ++ cards ∧
     deck st = deck st' ++ reverse cards ∧
     length cards = (if decide (length (comm st) = 0%nat) then 3 else 1)%nat ∧
     (length (comm st') = 3 ∨ length (comm st') = 4 ∨ length (comm st') = 5)%nat ∧
     comm st' ++ deck st' ≡ₚ comm st ++ deck st).
Proof.
  unfold advance. intros H.
  case_bool_decide as Hact; [left; simplify_eq; split_and!; try done; by left|].
  assert (∀ k, (cs_d ← pop_n k (deck st);
                let '(cs, d) := cs_d in street (set_deck st d) cs)
               = Some (st', nx) →
               nx = GoNextAction ∧
               ∃ cards, comm st' = comm st ++ cards ∧
                        deck st = deck st' ++ reverse cards ∧
                        length cards = k ∧
                        comm st' ++ deck st' ≡ₚ comm st ++ deck st) as Hdeal.
  { intros k Hk. apply bind_Some in Hk as ([cs d] & Hpop & Hstreet).
    apply pop_n_spec in Hpop as [Hd Hlen].
    unfold street in Hstreet.
    apply bind_Some in Hstreet as (q & _ & Hstreet). simplify_eq.
    cbn [players deck comm set_deck set_comm set_players set_hbet set_aq].
    split; [done|]. exists cs. split_and!; try done.
    rewrite Hd, <-app_assoc. f_equiv.
    rewrite (Permutation_app_comm cs d). f_equiv. by rewrite reverse_Permutation. }
  case_bool_decide as H0.
  { right. destruct (Hdeal _ H) as (-> & cards & Hc & Hd & Hl & Hp).
    split; [done|]. split; [lia|]. exists cards.
    rewrite decide_True by done. split_and!; try done.
    left. rewrite Hc, length_app. lia. }
  case_bool_decide as H3.
  { right. destruct (Hdeal _ H) as (-> & cards & Hc & Hd & Hl & Hp).
    split; [done|]. split; [lia|]. exists cards.
    rewrite decide_False by lia. split_and!; try done.
    right; left. rewrite Hc, length_app. lia. }
  case_bool_decide as H4.
  { right. destruct (Hdeal _ H) as (-> & cards & Hc & Hd & Hl & Hp).
    split; [done|]. split; [lia|]. exists cards.
    rewrite decide_False by lia. split_and!; try done.
    right; right. rewrite Hc, length_app. lia. }
  left. simplify_eq. split_and!; try done. by right.
Qed.

(** ** Starting a hand *)

Lemma deal_hands_spec (ps ps' : list Player) (d d' : list Card) :
  deal_hands ps d = Some (ps', d') →
  Forall2 dealt ps ps' ∧ concat (hand <$> ps') ++ d' ≡ₚ d.
Proof.
  revert ps' d d'. induction ps as [|p ps IH]; intros ps' d d' H; simpl in H.
  - simplify_eq. split; [constructor | done].
  - destruct (Z.ltb_spec 0 (stack p)) as [Hpos|Hneg].
    + apply bind_Some in H as ([c1 d1] & H1 & H).
      apply bind_Some in H as ([c2 d2] & H2 & H).
      apply bind_Some in H as ([ps2 d3] & Hrec & H). simplify_eq.
      apply pop_spec in H1 as ->. apply pop_spec in H2 as ->.
      destruct (IH _ _ _ Hrec) as [Hall Hperm]. split.
      * constructor; [|done]. unfold dealt; simpl.
        rewrite decide_True by done. done.
      * rewrite fmap_cons. simpl. rewrite <-Hperm.
        rewrite (Permutation_app_comm _ [c1]). simpl. f_equiv.
        by rewrite (Permutation_app_comm _ [c2]).
    + apply bind_Some in H as ([ps2 d3] & Hrec & H). simplify_eq.
      destruct (IH _ _ _ Hrec) as [Hall Hperm]. split.
      * constructor; [|done]. unfold dealt; simpl.
        rewrite decide_False by lia. done.
      * by rewrite fmap_cons.
Qed.

(** X16.  When [start_hand] deals, the board and the pot are empty, every
    player keeps name and stack and has a bet of 0, a player with chips
    holds two cards and is in the hand, a player without holds none and is
    folded, and the hole cards together with the deck left are the cards
    of the shuffled deck: no card is dealt twice. *)
Theorem start_hand_deal (st st' : State) (shuffled : list Card) :
  start_hand st shuffled = Some (st', GoPreflop) →
  comm st' = [] ∧ pot st' = 0 ∧ dealer st' = dealer st ∧
  Forall2 dealt (players st) (players st') ∧
  concat (hand <$> players st') ++ deck st' ≡ₚ shuffled ∧
  (NoDup shuffled → NoDup (concat (hand <$> players st') ++ deck st')).
Proof.
  unfold start_hand. intros H.
  apply bind_Some in H as (me & _ & H).
  destruct (stack me =? 0); [by simplify_eq|].
  destruct (_ && _); [by simplify_eq|].
  apply bind_Some in H as ([ps d] & Hd & H). simplify_eq.
  cbn [players pot comm dealer deck set_pot set_comm set_players set_deck] in *.
  destruct (deal_hands_spec _ _ _ _ Hd) as [Hall Hperm].
  split_and!; try done. intros Hnd. by rewrite Hperm.
Qed.

Lemma find_human_spec (ps : list Player) (me : Player) :
  find_human ps = Some me → me ∈ ps ∧ human me = true.
Proof.
  unfold find_human. intros H.
  pose proof (head_filter_spec (λ p, human p = true) ps) as Hs.
  rewrite H in Hs. destruct Hs as (l1 & l2 & -> & Hh & _).
  split; [|done]. apply elem_of_app. right. by left.
Qed.

(** X17.  With no negative stack, the game-over test of [deal_btn] and the
    one of [start_hand] agree, and [start_hand] deals only when at least
    two players have chips; on game over it leaves the table as it is. *)
Theorem game_over_tests_agree (st : State) (shuffled : list Card) :
  Forall (λ p, 0 ≤ stack p) (players st) →
  (deal_btn st = Some true ↔ start_hand st shuffled = Some (st, GoGameOver)) ∧
  ∀ st', start_hand st shuffled = Some (st', GoPreflop) →
         deal_btn st = Some false ∧
         (2 ≤ length (filter (λ p, (0 < stack p)%Z) (players st)))%nat.
Proof.
  intros Hpos. unfold deal_btn, start_hand.
  destruct (find_human (players st)) as [me|] eqn:Hme; simpl; [|done].
  destruct (find_human_spec _ _ Hme) as [Hin Hhum].
  destruct (Z.eqb_spec (stack me) 0) as [Hz|Hnz].
  { split; [done|]. by intros st' H. }
  assert (0 < stack me) as Hfund.
  { rewrite Forall_forall in Hpos. specialize (Hpos me Hin). lia. }
  assert (me ∈ filter (λ p, 0 < stack p) (players st)) as Hmef
    by (by apply list_elem_of_filter).
  destruct (filter (λ p, 0 < stack p) (players st)) as [|x [|y l]] eqn:Hf.
  - by apply elem_of_nil in Hmef.
  - apply list_elem_of_singleton in Hmef as <-. simpl. rewrite Hhum. simpl.
    split; [done|]. by intros st' H.
  - assert (bool_decide (length (x :: y :: l) = 1%nat) = false) as ->
      by (by apply bool_decide_eq_false_2).
    rewrite andb_false_l. split.
    + split; [done|]. intros H.
      apply bind_Some in H as ([ps d] & _ & H). congruence.
    + intros st' H. split; [done | simpl; lia].
Qed.

(** ** What the handlers keep *)

Lemma seat_step_refl (p : Player) : seat_step p p.
Proof. by repeat split. Qed.

Lemma seat_step_trans (p q r : Player) :
  seat_step p q → seat_step q r → seat_step p r.
Proof.
  intros [(? & ? & ? & ? & ?) ?] [(? & ? & ? & ? & ?) ?].
  repeat split; try congruence; auto.
Qed.

Lemma seats_refl (ps : list Player) : Forall2 seat_step ps ps.
Proof. apply Forall_Forall2_diag, Forall_forall. intros. apply seat_step_refl. Qed.

Lemma seats_trans (ps qs rs : list Player) :
  Forall2 seat_step ps qs → Forall2 seat_step qs rs → Forall2 seat_step ps rs.
Proof. apply Forall2_trans. apply seat_step_trans. Qed.

Lemma seats_update (ps : list Player) (i : nat) (p p' : Player) :
  ps !! i = Some p → seat_step p p' → Forall2 seat_step ps (<[i := p']> ps).
Proof.
  intros Hp Hstep. apply Forall2_same_length_lookup_2.
  - by rewrite length_insert.
  - intros j x y Hx Hy. destruct (decide (i = j)) as [->|Hne].
    + rewrite list_lookup_insert_eq in Hy by (by eapply lookup_lt_Some).
      by simplify_eq.
    + rewrite list_lookup_insert_ne in Hy by done. simplify_eq.
      apply seat_step_refl.
Qed.

Lemma seat_step_commit (p : Player) (pd : Z) :
  pd ≤ stack p → seat_step p (commit p pd).
Proof. intros Hpd. repeat split; simpl; try done. lia. Qed.

Lemma seats_set_bet (ps : list Player) (v : Z) :
  Forall2 seat_step ps (map (λ p, set_bet p v) ps).
Proof.
  change (map (λ p, set_bet p v) ps) with ((λ p, set_bet p v) <$> ps).
  apply Forall2_fmap_r, Forall_Forall2_diag, Forall_forall.
  intros p _. by repeat split.
Qed.

Lemma post_blind_seats (st st' : State) (i : nat) (a : Z) :
  post_blind st i a = Some st' →
  Forall2 seat_step (players st) (players st') ∧
  SB st' = SB st ∧ BB st' = BB st ∧ dealer st' = dealer st ∧
  (0 ≤ a → Forall (λ p, 0 ≤ stack p) (players st) → pot st ≤ pot st').
Proof.
  unfold post_blind. intros H. apply bind_Some in H as (p & Hp & H).
  simplify_eq. simpl. split_and!; try done.
  - apply (seats_update _ _ p); [done|]. apply seat_step_commit. lia.
  - intros Ha Hpos. pose proof (Forall_lookup_1 _ _ _ _ Hpos Hp) as Hs.
    simpl in Hs. lia.
Qed.

Ltac keeps_same :=
  simplify_eq; simpl; split_and!; try done; try apply seats_refl;
  try apply seats_set_bet; try (intros; lia).

(** What one handler keeps: the players, the blinds and the dealer; and it
    takes nothing out of the pot when the event is [event_ok] and no stack
    or blind is negative. *)
Lemma handle_keeps (st st' : State) (ev : Event) (nx : Next) :
  handle st ev = Some (st', nx) →
  Forall2 seat_step (players st) (players st') ∧
  SB st' = SB st ∧ BB st' = BB st ∧ dealer st' = dealer st ∧
  (event_ok ev → 0 ≤ SB st → 0 ≤ BB st →
   Forall (λ p, 0 ≤ stack p) (players st) → pot st ≤ pot st').
Proof.
  destruct ev as [| |idx act amt call mr| |cards]; simpl; intros H.
  - unfold preflop in H.
    apply bind_Some in H as (seats & _ & H).
    case_bool_decide; [by keeps_same|].
    apply bind_Some in H as (sbi & _ & H).
    apply bind_Some in H as (bbi & _ & H).
    apply bind_Some in H as (st1 & H1 & H).
    apply bind_Some in H as (st2 & H2 & H).
    apply bind_Some in H as (bb & _ & H).
    apply bind_Some in H as (start & _ & H).
    apply bind_Some in H as (order & _ & H). simplify_eq.
    apply post_blind_seats in H1 as (S1 & Sb1 & Bb1 & D1 & P1).
    apply post_blind_seats in H2 as (S2 & Sb2 & Bb2 & D2 & P2).
    cbn [players pot SB BB dealer set_hbet set_aq] in *.
    split_and!; try congruence.
    + by eapply seats_trans.
    + intros _ HSB HBB Hpos. etrans; [by apply P1|]. apply P2; [lia|].
      eapply Forall2_Forall_r; [exact S1|].
      eapply Forall_impl; [exact Hpos|]. intros p Hp q [_ Hq]. by apply Hq.
  - unfold next_action in H.
    case_bool_decide; [by keeps_same|].
    destruct (aq st) as [|i rest]; [by keeps_same|].
    apply bind_Some in H as (p & _ & H).
    destruct (folded p || (stack p =? 0)); by keeps_same.
  - unfold apply in H. apply bind_Some in H as (p & Hp & H).
    destruct act.
    + simplify_eq. simpl. split_and!; try done; try (intros; lia).
      apply (seats_update _ _ p); [done|]. by repeat split.
    + by keeps_same.
    + simplify_eq. simpl. split_and!; try done.
      * apply (seats_update _ _ p); [done|]. apply seat_step_commit. lia.
      * intros Hc _ _ Hpos. pose proof (Forall_lookup_1 _ _ _ _ Hpos Hp) as Hs.
        simpl in Hs. lia.
    + cbn zeta in H.
      assert (Forall2 seat_step (players st)
                (<[idx:=commit p ((call + amt) `min` stack p)]> (players st)))
        as Hseats.
      { apply (seats_update _ _ p); [done|]. apply seat_step_commit. lia. }
      destruct (_ >? _); simplify_eq; simpl; split_and!; try done;
        intros Hc _ _ Hpos; pose proof (Forall_lookup_1 _ _ _ _ Hpos Hp) as Hs;
        simpl in Hs; lia.
  - unfold advance in H.
    assert (∀ k, (cs_d ← pop_n k (deck st);
                  let '(cs, d) := cs_d in street (set_deck st d) cs)
                 = Some (st', nx) →
                 Forall2 seat_step (players st) (players st') ∧
                 SB st' = SB st ∧ BB st' = BB st ∧ dealer st' = dealer st ∧
                 pot st' = pot st) as Hdeal.
    { intros k Hk. apply bind_Some in Hk as ([cs d] & _ & Hstreet).
      unfold street in Hstreet.
      apply bind_Some in Hstreet as (q & _ & Hstreet). by keeps_same. }
    case_bool_decide; [by keeps_same|].
    case_bool_decide;
      [destruct (Hdeal _ H) as (? & ? & ? & ? & ?);
       split_and!; try done; intros; lia|].
    case_bool_decide;
      [destruct (Hdeal _ H) as (? & ? & ? & ? & ?);
       split_and!; try done; intros; lia|].
    case_bool_decide;
      [destruct (Hdeal _ H) as (? & ? & ? & ? & ?);
       split_and!; try done; intros; lia|].
    by keeps_same.
  - unfold street in H. apply bind_Some in H as (q & _ & H). by keeps_same.
Qed.

Lemma seats_personas (ps qs : list Player) :
  Forall2 seat_step ps qs → persona <$> qs = persona <$> ps.
Proof.
  induction 1 as [|p q ps qs [(_ & _ & Hp & _) _] _ IH]; [done|].
  rewrite !fmap_cons. by f_equal.
Qed.

Lemma seats_nonneg (ps qs : list Player) :
  Forall2 seat_step ps qs → Forall (λ p, 0 ≤ stack p) ps →
  Forall (λ p, 0 ≤ stack p) qs.
Proof.
  intros Hs Hpos. eapply Forall2_Forall_r; [exact Hs|].
  eapply Forall_impl; [exact Hpos|]. intros p Hp q [_ Hq]. by apply Hq.
Qed.

Lemma handle_table_ok (st st' : State) (ev : Event) (nx : Next) :
  table_ok st → event_ok ev → handle st ev = Some (st', nx) →
  table_ok st' ∧ pot st ≤ pot st'.
Proof.
  intros (Hlen & Hnd & Hpos & Hpot & HSB & HBB) Hev H.
  apply handle_keeps in H as (Hs & ESB & EBB & _ & Hmono).
  specialize (Hmono Hev HSB HBB Hpos).
  split; [|done]. unfold table_ok. rewrite ESB, EBB.
  split_and!; try done; try lia.
  - by rewrite <-(Forall2_length _ _ _ Hs).
  - by rewrite (seats_personas _ _ Hs).
  - by eapply seats_nonneg.
Qed.

(** X18.  A table of four with distinct personas and no negative stack,
    pot or blind stays one through every sequence of the handlers of a
    hand, and the pot never shrinks, provided no event asks for a negative
    call or a negative commitment. *)
Theorem run_table_ok (st st' : State) (evs : list Event) :
  table_ok st → Forall event_ok evs → run st evs = Some st' →
  table_ok st' ∧ pot st ≤ pot st'.
Proof.
  revert st. induction evs as [|ev evs IH]; intros st Hok Hevs H; simpl in H.
  - simplify_eq. split; [done | lia].
  - apply Forall_cons in Hevs as [Hev Hevs].
    apply bind_Some in H as ([st1 nx] & H1 & H).
    destruct (handle_table_ok _ _ _ _ Hok Hev H1) as [Hok1 Hp1].
    destruct (IH st1 Hok1 Hevs H) as [Hok' Hp']. split; [done | lia].
Qed.

(** X19.  No handler of a hand changes who sits where: through every
    sequence of them the table keeps its seats, and each player keeps its
    name, human flag, persona and hole cards; a player who has folded
    stays folded. *)
Theorem run_keeps_seats (st st' : State) (evs : list Event) :
  run st evs = Some st' →
  Forall2 seat_kept (players st) (players st').
Proof.
  intros H.
  assert (Forall2 seat_step (players st) (players st')) as Hs.
  { revert st H. induction evs as [|ev evs IH]; intros st H; simpl in H.
    - simplify_eq. apply seats_refl.
    - apply bind_Some in H as ([st1 nx] & H1 & H).
      apply handle_keeps in H1 as (Hs1 & _).
      eapply seats_trans; [exact Hs1 | by apply IH]. }
  eapply Forall2_impl; [exact Hs|]. by intros p q [? _].
Qed.

Lemma award_seats (ps : list Player) (i : nat) (v : Z) :
  0 ≤ v → Forall2 seat_step ps (award ps i v).
Proof.
  intros Hv. unfold award. destruct (ps !! i) as [w|] eqn:Hw; [|apply seats_refl].
  apply (seats_update _ _ w); [done|]. repeat split; simpl; try done. lia.
Qed.

Lemma awards_seats (ws : list nat) (ps : list Player) (v : Z) :
  0 ≤ v → Forall2 seat_step ps (fold_left (λ ps i, award ps i v) ws ps).
Proof.
  intros Hv. revert ps. induction ws as [|w ws IH]; intros ps; simpl.
  - apply seats_refl.
  - eapply seats_trans; [by apply award_seats | apply IH].
Qed.

Lemma hand_winners_nonempty (st : State) (ws : list nat) :
  hand_winners st = Some ws →
  ws ≠ [] ∧ NoDup ws ∧ ∀ i, i ∈ ws → (i < length (players st))%nat.
Proof.
  unfold hand_winners. intros H.
  destruct (active_seats (players st)) as [|[i w] [|iw2 more]] eqn:Hact.
  - destruct (showdown_winners_spec _ _ _ H) as (? & ? & top & Hel & _).
    split_and!; try done. intros j (p & Hp & _)%Hel. by eapply lookup_lt_Some.
  - simplify_eq. split_and!; [done | apply NoDup_singleton |].
    intros j ->%list_elem_of_singleton.
    assert ((i, w) ∈ active_seats (players st)) as Hin by (rewrite Hact; by left).
    apply active_seats_elem in Hin as [Hp _]. by eapply lookup_lt_Some.
  - destruct (showdown_winners_spec _ _ _ H) as (? & ? & top & Hel & _).
    split_and!; try done. intros j (p & Hp & _)%Hel. by eapply lookup_lt_Some.
Qed.

(** X20.  The table stays a table of four with distinct personas and no
    negative stack, pot or blind through [end_hand] and through
    [start_hand]. *)
Theorem hand_cycle_table_ok (st : State) :
  table_ok st →
  (∀ st' nx, end_hand st = Some (st', nx) → table_ok st') ∧
  (∀ shuffled st' nx, start_hand st shuffled = Some (st', nx) → table_ok st').
Proof.
  intros (Hlen & Hnd & Hpos & Hpot & HSB & HBB). split.
  - intros st' nx H. rewrite end_hand_pays in H.
    apply bind_Some in H as (ws & Hws & H). simplify_eq.
    destruct (hand_winners_nonempty _ _ Hws) as (Hne & _ & _).
    set (v := pot st `div` Z.of_nat (length ws)).
    assert (0 ≤ v) as Hv.
    { apply Z.div_pos; [done|]. destruct ws; [done | simpl; lia]. }
    pose proof (awards_seats ws (players st) v Hv) as Hs.
    unfold table_ok, rotate_dealer.
    destruct (next_alive _ _); simpl;
      (split_and!; try done;
       [ by rewrite <-(Forall2_length _ _ _ Hs)
       | by rewrite (seats_personas _ _ Hs)
       | by eapply seats_nonneg ]).
  - intros shuffled st' nx H. unfold start_hand in H.
    apply bind_Some in H as (me & _ & H).
    destruct (stack me =? 0); [by simplify_eq|].
    destruct (_ && _); [by simplify_eq|].
    apply bind_Some in H as ([ps d] & Hd & H). simplify_eq.
    apply deal_hands_spec in Hd as [Hall _]. simpl in Hall.
    unfold table_ok; simpl. split_and!; try done.
    + by rewrite <-(Forall2_length _ _ _ Hall).
    + replace (persona <$> ps) with (persona <$> players st); [done|].
      clear -Hall. induction Hall as [|p q l k (_ & _ & _ & Hp & _) _ IH];
        [done|]. rewrite !fmap_cons. by f_equal.
    + eapply Forall2_Forall_r; [exact Hall|].
      eapply Forall_impl; [exact Hpos|].
      intros p Hp q (_ & Hq & _). by rewrite Hq.
Qed.

(** ** The action queue *)

Lemma preflop_order_NoDup (ps : list Player) (n i : nat) (order o : list nat) :
  NoDup order → preflop_order ps n i order = Some o → NoDup o.
Proof.
  revert i order. induction n as [|n IH]; intros i order Hnd H; simpl in H.
  - by simplify_eq.
  - apply bind_Some in H as (p & _ & H). eapply IH; [|exact H].
    destruct (bool_decide (0 < stack p) && negb (folded p)); simpl; [|done].
    case_bool_decide as Hin; [|done].
    apply NoDup_app. split_and!; [done | | apply NoDup_singleton].
    intros x Hx ->%list_elem_of_singleton. done.
Qed.

Lemma handle_queue_NoDup (st st' : State) (ev : Event) (nx : Next) :
  NoDup (aq st) → handle st ev = Some (st', nx) → NoDup (aq st').
Proof.
  intros Hnd. destruct ev as [| |idx act amt call mr| |cards]; simpl; intros H.
  - unfold preflop in H.
    apply bind_Some in H as (seats & _ & H).
    case_bool_decide; [by simplify_eq|].
    apply bind_Some in H as (sbi & _ & H).
    apply bind_Some in H as (bbi & _ & H).
    apply bind_Some in H as (st1 & _ & H).
    apply bind_Some in H as (st2 & _ & H).
    apply bind_Some in H as (bb & _ & H).
    apply bind_Some in H as (start & _ & H).
    apply bind_Some in H as (order & Horder & H). simplify_eq. simpl.
    eapply preflop_order_NoDup; [|exact Horder]. constructor.
  - unfold next_action in H.
    case_bool_decide; [by simplify_eq|].
    destruct (aq st) as [|i rest] eqn:Haq; [simplify_eq; by rewrite Haq|].
    apply NoDup_cons in Hnd as [_ Hrest].
    apply bind_Some in H as (p & _ & H).
    destruct (folded p || (stack p =? 0)); by simplify_eq.
  - unfold apply in H. apply bind_Some in H as (p & Hp & H).
    destruct act; try by simplify_eq.
    cbn zeta in H. destruct (_ >? _); [|by simplify_eq]. simplify_eq. simpl.
    rewrite reopen_spec. apply NoDup_app. split_and!; [done | |].
    + intros x Hx Hadd. apply reopen_added_elem in Hadd as (q & _ & Hw).
      by destruct Hw as (_ & _ & _ & _ & Hnq).
    + apply reopen_added_NoDup.
  - unfold advance in H.
    assert (∀ k, (cs_d ← pop_n k (deck st);
                  let '(cs, d) := cs_d in street (set_deck st d) cs)
                 = Some (st', nx) → NoDup (aq st')) as Hdeal.
    { intros k Hk. apply bind_Some in Hk as ([cs d] & _ & Hstreet).
      unfold street in Hstreet.
      apply bind_Some in Hstreet as (q & Hq & Hstreet). simplify_eq. simpl.
      apply street_queue_spec in Hq; [|by apply Nat.mod_upper_bound].
      rewrite Hq. apply NoDup_filter, clockwise_seats.
      by apply Nat.mod_upper_bound. }
    repeat (case_bool_decide; [first [by simplify_eq | by eapply Hdeal]|]).
    by simplify_eq.
  - unfold street in H. apply bind_Some in H as (q & Hq & H). simplify_eq. simpl.
    apply street_queue_spec in Hq; [|by apply Nat.mod_upper_bound].
    rewrite Hq. apply NoDup_filter, clockwise_seats.
    by apply Nat.mod_upper_bound.
Qed.

(** X21.  The action queue never holds a seat twice: a queue without
    repetition stays without repetition through every sequence of the
    handlers of a hand. *)
Theorem run_queue_NoDup (st st' : State) (evs : list Event) :
  NoDup (aq st) → run st evs = Some st' → NoDup (aq st').
Proof.
  revert st. induction evs as [|ev evs IH]; intros st Hnd H; simpl in H.
  - by simplify_eq.
  - apply bind_Some in H as ([st1 nx] & H1 & H).
    eapply IH; [|exact H]. by eapply handle_queue_NoDup.
Qed.

(** X22.  A player is never queued to answer the own raise: after
    [next_action] has given a seat the turn out of a queue without
    repetition, a raise from that seat leaves a queue that does not hold
    it. *)
Theorem raiser_not_requeued (st st1 st2 : State) (idx : nat)
    (amt call mr : Z) (nx : Next) :
  NoDup (aq st) →
  next_action st = Some (st1, GoTurn idx call mr) →
  apply st1 idx Raise amt call mr = Some (st2, nx) →
  idx ∉ aq st2.
Proof.
  intros Hnd Hturn Happ.
  unfold next_action in Hturn.
  case_bool_decide; [by simplify_eq|].
  destruct (aq st) as [|i rest] eqn:Haq; [by simplify_eq|].
  apply NoDup_cons in Hnd as [Hi _].
  apply bind_Some in Hturn as (p & Hp & Hturn). simpl in Hp.
  destruct (folded p || (stack p =? 0)); simplify_eq.
  rewrite (apply_raise (set_aq st rest) idx p amt _ _ Hp) in Happ.
  cbn zeta in Happ. simpl in Happ.
  destruct (_ >? _); simplify_eq; simpl; [|done].
  rewrite reopen_spec. intros [Hin|Hin]%elem_of_app; [done|].
  apply reopen_added_elem in Hin as (q & Hq & Hw).
  rewrite list_lookup_insert_eq in Hq by (by eapply lookup_lt_Some).
  simplify_eq. by destruct Hw as (_ & Hne & _).
Qed.

(** ** A whole hand *)

(** X23.  Over a whole hand, from [start_hand] through any sequence of
    handlers to [end_hand], the stacks end with the chips they started
    with, less the remainder [pot mod n] of the split among the [n]
    players paid; nothing is lost when one player takes the pot. *)
Theorem hand_accounting (st0 st1 st2 st3 : State) (shuffled : list Card)
    (evs : list Event) (nx : Next) :
  start_hand st0 shuffled = Some (st1, GoPreflop) →
  run st1 evs = Some st2 →
  end_hand st2 = Some (st3, nx) →
  ∃ ws,
    hand_winners st2 = Some ws ∧ ws ≠ [] ∧
    sum_stacks (players st3)
    = sum_stacks (players st0) - pot st2 `mod` Z.of_nat (length ws) ∧
    (length ws = 1%nat → sum_stacks (players st3) = sum_stacks (players st0)).
Proof.
  intros Hs Hr He.
  apply start_hand_deals in Hs as [Hp0 Hsum0].
  apply run_chips in Hr. unfold chips in Hr.
  rewrite end_hand_pays in He. apply bind_Some in He as (ws & Hws & He).
  simplify_eq.
  destruct (hand_winners_nonempty _ _ Hws) as (Hne & _ & Hvalid).
  set (n := Z.of_nat (length ws)) in *.
  assert (0 < n) as Hn by (subst n; destruct ws; [done | simpl; lia]).
  pose proof (rotate_dealer_players
                (set_players st2
                   (fold_left (λ ps i, award ps i (pot st2 `div` n)) ws
                      (players st2)))) as [Hps _].
  assert (sum_stacks (players (rotate_dealer
            (set_players st2
               (fold_left (λ ps i, award ps i (pot st2 `div` n)) ws
                  (players st2)))))
          = sum_stacks (players st0) - pot st2 `mod` n) as Hsum.
  { rewrite Hps. simpl. rewrite awards_sum by done. fold n.
    pose proof (Z.div_mod (pot st2) n ltac:(lia)). lia. }
  exists ws. split_and!; try done.
  intros H1. rewrite Hsum. subst n. rewrite H1. simpl.
  rewrite Z.mod_1_r. lia.
Qed.

(** ** The end of the game *)

Lemma insert_desc_stack_head (x : Player) (l : list Player) :
  head (Py.insert_desc Z.ltb stack x l)
  = match head l with
    | Some h => if stack x <? stack h then Some h else Some x
    | None => Some x
    end.
Proof.
  destruct l as [|y ys]; simpl; [done|]. by destruct (stack x <? stack y).
Qed.

(** X24.  The winner [game_over] announces is the first seat, in table
    order, among those with the largest stack: no player has more chips and
    every earlier seat has strictly fewer.  There is a winner unless the
    table is empty. *)
Theorem game_winner_first_max (ps : list Player) :
  match game_winner ps with
  | Some w =>
      ∃ i, ps !! i = Some w ∧
           (∀ p, p ∈ ps → stack p ≤ stack w) ∧
           (∀ j p, (j < i)%nat → ps !! j = Some p → stack p < stack w)
  | None => ps = []
  end.
Proof.
  unfold game_winner, standings, Py.sorted_rev.
  induction ps as [|x ps IH]; [done|].
  cbn [foldr]. rewrite insert_desc_stack_head.
  destruct (head (foldr (Py.insert_desc Z.ltb stack) [] ps)) as [h|].
  - destruct IH as (i & Hi & Hmax & Hfirst).
    destruct (Z.ltb_spec (stack x) (stack h)) as [Hlt|Hge].
    + exists (S i). split_and!; [done | |].
      * intros p [->|Hp]%elem_of_cons; [lia | by apply Hmax].
      * intros [|j] p Hj Hp; simpl in Hp; simplify_eq; [done|].
        eapply Hfirst; [|done]. lia.
    + exists 0%nat. split_and!; [done | |].
      * intros p [->|Hp]%elem_of_cons; [lia|]. specialize (Hmax p Hp). lia.
      * intros j p Hj. lia.
  - subst ps. exists 0%nat. split_and!; [done | |].
    + by intros p ->%list_elem_of_singleton.
    + intros j p Hj. lia.
Qed.

(** ** The win-rate estimate and the bot's turn *)

Lemma strength_wins_is_Some (shuffle : nat → list Card → list Card)
    (hole comm : list Card) (trials : Z) :
  (∀ k d, shuffle k d ≡ₚ d) →
  length hole = 2%nat → (length comm ≤ 5)%nat →
  strength_wins shuffle hole comm trials
  = Some (Z.of_nat (length (filter (λ k, win_at shuffle hole comm k = true)
                              (seq 0 (Z.to_nat trials))))).
Proof.
  intros Hs Hh Hc. unfold strength_wins.
  rewrite (strength_loop_count shuffle hole comm (Z.to_nat trials) 0
             (strength_deck hole comm) 0); [done | done |].
  intros j.
  destruct (trial_draws hole comm
              (deck_at shuffle (strength_deck hole comm) j) Hh Hc)
    as (_ & _ & _ & _ & h & o & _ & _ & Hwin); [by apply deck_at_perm|].
  rewrite Hwin. by eexists.
Qed.

(** X25.  With two hole cards, at most five community cards and a shuffle
    that rearranges the deck, [estimate_strength] fails only on the division
    by zero of [trials = 0]; a negative [trials] runs no trial and gives
    the quotient of no win, which is zero. *)
Theorem estimate_strength_fails_iff (shuffle : nat → list Card → list Card)
    (hole comm : list Card) (trials : Z) :
  (∀ k d, shuffle k d ≡ₚ d) →
  length hole = 2%nat → (length comm ≤ 5)%nat →
  (estimate_strength shuffle hole comm trials = None ↔ trials = 0) ∧
  (trials < 0 →
   estimate_strength shuffle hole comm trials
   = Some (inject_Z 0 / inject_Z trials)%Q).
Proof.
  intros Hs Hh Hc. unfold estimate_strength.
  rewrite (strength_wins_is_Some _ _ _ _ Hs Hh Hc). cbn [mbind option_bind].
  destruct (Z.eqb_spec trials 0) as [->|Hne].
  - split; [done | lia].
  - split; [split; [done | lia]|].
    intros Hneg. replace (Z.to_nat trials) with 0%nat by lia. done.
Qed.





(** ** Setting the table *)

Lemma pop_is_Some {A} (l : list A) :
  l ≠ [] → ∃ x r, pop l = Some (x, r) ∧ l = r ++ [x].
Proof.
  intros Hne. destruct l as [|y l' _] using rev_ind; [done|].
  exists y, l'. split; [|done].
  unfold pop. by rewrite reverse_snoc, reverse_involutive.
Qed.

Lemma deal_hands_is_Some (ps : list Player) (d : list Card) :
  (2 * length ps ≤ length d)%nat → is_Some (deal_hands ps d).
Proof.
  revert d. induction ps as [|p ps IH]; intros d Hlen; simpl; [by eexists|].
  simpl in Hlen. destruct (0 <? stack p).
  - destruct (pop_is_Some d) as (c1 & d1 & -> & Hd);
      [intros ->; simpl in Hlen; lia|].
    subst d. rewrite length_app in Hlen. simpl in Hlen.
    cbn [mbind option_bind].
    destruct (pop_is_Some d1) as (c2 & d2 & -> & Hd1);
      [intros ->; simpl in Hlen; lia|].
    subst d1. rewrite length_app in Hlen. simpl in Hlen.
    cbn [mbind option_bind].
    destruct (IH d2) as [[ps2 d3] ->]; [lia|]. by eexists.
  - destruct (IH d) as [[ps2 d3] ->]; [lia|]. by eexists.
Qed.

(** X27.  [start_hand] never runs out of cards: with a human at the table
    and two cards in the deck for every seat, it either declares the game
    over or deals the hand.  The full deck of 52 serves a table of up to 26
    seats. *)
Theorem start_hand_never_short (st : State) (shuffled : list Card) :
  is_Some (find_human (players st)) →
  (2 * length (players st) ≤ length shuffled)%nat →
  ∃ st' nx, start_hand st shuffled = Some (st', nx) ∧
            (nx = GoGameOver ∧ st' = st ∨
             nx = GoPreflop ∧
             length (players st') = length (players st) ∧
             (length (deck st') + 2 * length (players st)
              ≥ length shuffled)%nat).
Proof.
  intros [me Hme] Hlen. unfold start_hand. rewrite Hme.
  cbn [mbind option_bind].
  destruct (stack me =? 0); [eexists _, _; split; [done | by left]|].
  destruct (_ && _); [eexists _, _; split; [done | by left]|].
  destruct (deal_hands_is_Some (players st) shuffled Hlen) as [[ps d] Hd].
  cbn [players set_pot set_comm]. rewrite Hd. cbn [mbind option_bind].
  eexists _, _. split; [done|]. right. split; [done|].
  apply deal_hands_spec in Hd as [Hall Hperm]. simpl.
  split; [by rewrite (Forall2_length _ _ _ Hall)|].
  apply Permutation_length in Hperm. rewrite length_app in Hperm.
  assert (length (concat (hand <$> ps)) ≤ 2 * length (players st))%nat; [|lia].
  clear -Hall. induction Hall as [|p q l k Hpq _ IH]; [simpl; lia|].
  rewrite fmap_cons. simpl. rewrite length_app.
  destruct Hpq as (_ & _ & _ & _ & _ & Hd). destruct (decide (0 < stack p)).
  - destruct Hd as [-> _]. lia.
  - destruct Hd as [-> _]. simpl. lia.
Qed.

(** X28.  The setup dialog accepts exactly two numbers that are positive,
    and doubles the small blind for the big one.  The table [App] builds
    from an accepted setup has four seats with distinct personas, holds
    four times the starting stack, is not game over, and its first hand is
    dealt from any deck of at least eight cards. *)
Theorem setup_opens_table (stack_entry sb_entry : option Z) :
  match setup_start stack_entry sb_entry with
  | Some (stk, sb, bb) =>
      stack_entry = Some stk ∧ sb_entry = Some sb ∧
      0 < stk ∧ 0 < sb ∧ bb = sb * 2 ∧
      ∀ nm b1 b2 b3 d,
        let st := init_table nm b1 b2 b3 stk sb bb d in
        table_ok st ∧ chips st = 4 * stk ∧ deal_btn st = Some false ∧
        ∀ shuffled, (8 ≤ length shuffled)%nat →
          ∃ st', start_hand st shuffled = Some (st', GoPreflop)
  | None =>
      ¬ ∃ stk sb, stack_entry = Some stk ∧ sb_entry = Some sb ∧
                  0 < stk ∧ 0 < sb
  end.
Proof.
  unfold setup_start.
  destruct stack_entry as [stk|], sb_entry as [sb|];
    try (intros (a & b & ? & ? & _); congruence).
  destruct (Z.ltb_spec 0 stk) as [Hstk|Hstk]; simpl;
    [|intros (a & b & ? & ? & ? & ?); simplify_eq; lia].
  destruct (Z.ltb_spec 0 sb) as [Hsb|Hsb];
    [|intros (a & b & ? & ? & ? & ?); simplify_eq; lia].
  do 5 (split; [first [done | lia]|]).
  intros nm b1 b2 b3 d.
  set (st := init_table nm b1 b2 b3 stk sb (sb * 2) d).
  assert (filter (λ p, 0 < stack p) (players st) = players st) as Halive.
  { subst st. unfold init_table. cbn [players].
    by rewrite !filter_cons_True by (simpl; lia). }
  split_and!.
  - subst st. unfold table_ok, init_table. simpl. split_and!; try lia.
    + repeat (apply NoDup_cons; split;
              [rewrite ?elem_of_cons, elem_of_nil; intros H;
               repeat destruct H as [H|H]; done|]).
      apply NoDup_nil_2.
    + repeat (constructor; [simpl; lia|]). constructor.
  - subst st. unfold chips, init_table. simpl. lia.
  - unfold deal_btn. rewrite Halive. subst st. unfold init_table. simpl.
    by destruct (Z.eqb_spec stk 0) as [?|_]; [lia|].
  - intros shuffled Hlen. unfold start_hand.
    assert (find_human (players st)
            = Some (mkPlayer nm stk true [] false 0 "")) as -> by reflexivity.
    cbn [mbind option_bind stack].
    destruct (Z.eqb_spec stk 0) as [?|_]; [lia|].
    rewrite Halive.
    replace (bool_decide (length (players st) = 1%nat)) with false by done.
    cbn [andb].
    destruct (deal_hands_is_Some (players st) shuffled) as [[ps dk] Hd];
      [simpl; lia|].
    change (players (set_pot (set_comm st []) 0)) with (players st).
    rewrite Hd. by eexists.
Qed.

(** X29.  "Play Again" rebuilds the table of the constructor: whatever the
    stacks, cards, bets and fold marks at the end of a game, [reset] leaves
    the players as [App] would build them from the same setup with the new
    bot names, an empty board, an empty pot and the dealer drawn. *)
Theorem reset_rebuilds_table (st : State) (nm b1 b2 b3 c1 c2 c3 : string)
    (stk sb bb : Z) (d0 d : nat) :
  Forall2 same_player (players (init_table nm b1 b2 b3 stk sb bb d0))
    (players st) →
  ∃ st',
    reset st stk [c1; c2; c3] d = Some st' ∧
    players st' = players (init_table nm c1 c2 c3 stk sb bb d) ∧
    comm st' = [] ∧ pot st' = 0 ∧ dealer st' = d ∧
    SB st' = SB st ∧ BB st' = BB st.
Proof.
  unfold init_table. cbn [players]. intros H.
  destruct (players st) as [|p0 [|p1 [|p2 [|p3 [|p4 more]]]]] eqn:Hps;
    repeat match goal with
           | H : Forall2 _ _ _ |- _ => inversion H; clear H; subst
           end.
  repeat match goal with
         | H : same_player _ _ |- _ =>
             destruct H as (? & ? & ?); simpl in *
         end.
  unfold reset. rewrite Hps. eexists. split; [reflexivity|].
  simpl. split_and!; try done. unfold set_name; simpl. congruence.
Qed.

(** ** When [end_hand] fails *)

Lemma showdown_ranked_None (ps : list Player) (cm : list Card) :
  showdown_ranked ps cm = None ↔
  ∃ i p, (i, p) ∈ active_seats ps ∧ (length (hand p ++ cm) < 5)%nat.
Proof.
  unfold showdown_ranked.
  set (f := λ e : option HandRank * nat, r ← e.1; Some (r, e.2)).
  set (g := λ ip : nat * Player, (hand_rank (hand ip.2 ++ cm), ip.1)).
  split.
  - intros H. destruct (mapM f (g <$> active_seats ps)) as [keyed|] eqn:Hk;
      [done|].
    assert (¬ Forall (is_Some ∘ f) (g <$> active_seats ps)) as Hnot.
    { intros Hall%mapM_is_Some_2. rewrite Hk in Hall. by destruct Hall. }
    apply not_Forall_Exists in Hnot; [|apply _].
    apply Exists_exists in Hnot as (e & He & Hn).
    apply list_elem_of_fmap in He as ([i p] & -> & Hin).
    exists i, p. split; [done|]. simpl in Hn.
    destruct (decide (length (hand p ++ cm) < 5)%nat) as [|Hge]; [done|].
    destruct (hand_rank_is_Some (hand p ++ cm)) as [r Hr]; [lia|].
    exfalso. apply Hn. unfold f, g. simpl. rewrite Hr. by eexists.
  - intros (i & p & Hin & Hlt).
    destruct (mapM f (g <$> active_seats ps)) as [keyed|] eqn:Hk; [|done].
    exfalso.
    assert (is_Some (mapM f (g <$> active_seats ps))) as Hs by (by eexists).
    apply mapM_is_Some_1 in Hs.
    rewrite Forall_forall in Hs.
    destruct (Hs (g (i, p))) as [x Hx];
      [apply list_elem_of_fmap; by exists (i, p)|].
    unfold f, g in Hx. simpl in Hx.
    by rewrite (hand_rank_short _ Hlt) in Hx.
Qed.

Lemma end_hand_fails_when (st : State) :
  end_hand st = None ↔
  active_seats (players st) = [] ∨
  ((2 ≤ length (active_seats (players st)))%nat ∧
   ∃ i p, players st !! i = Some p ∧ folded p = false ∧
          (length (hand p) + length (comm st) < 5)%nat).
Proof.
  assert (∀ ranked : list (HandRank * nat),
            (best ← head ranked;
             Some ((filter (λ rp, rp.1 = best.1) ranked).*2)) = None
            ↔ ranked = []) as Hhead.
  { intros [|x l]; simpl; [done|]. split; intros; done. }
  assert (showdown_winners (players st) (comm st) = None ↔
          active_seats (players st) = [] ∨
          ∃ i p, (i, p) ∈ active_seats (players st) ∧
                 (length (hand p ++ comm st) < 5)%nat) as Hshow.
  { unfold showdown_winners.
    destruct (showdown_ranked (players st) (comm st)) as [ranked|] eqn:Hr.
    - cbn [mbind option_bind]. rewrite Hhead.
      assert (ranked = [] ↔ active_seats (players st) = []) as ->.
      { unfold showdown_ranked in Hr.
        apply bind_Some in Hr as (keyed & Hk & Hr). simplify_eq.
        apply showdown_keyed in Hk as [Hsnd _].
        pose proof (sorted_rev_permutation hr_ltb fst keyed) as Hperm.
        apply Permutation_length in Hperm.
        apply (f_equal length) in Hsnd. rewrite !length_fmap in Hsnd.
        split; intros E.
        - rewrite E in Hperm. simpl in Hperm.
          destruct (active_seats (players st)); [done | simpl in *; lia].
        - rewrite E in Hsnd. simpl in Hsnd.
          destruct (Py.sorted_rev hr_ltb fst keyed); [done | simpl in *; lia]. }
      split; [by left|]. intros [?|Hex]; [done|].
      apply showdown_ranked_None in Hex. congruence.
    - split; [|done]. intros _. right. by apply showdown_ranked_None. }
  unfold end_hand.
  destruct (active_seats (players st)) as [|[i w] [|iw2 more]] eqn:Hact.
  - split; [by left|]. intros _. apply bind_None. left. apply Hshow. by left.
  - split; [done|]. intros [?|[Hlen _]]; [done | simpl in Hlen; lia].
  - rewrite <-Hact in *.
    assert (2 ≤ length (active_seats (players st)))%nat as Hlen
      by (rewrite Hact; simpl; lia).
    split.
    + intros H. apply bind_None in H as [H|(ws & _ & ?)]; [|done].
      apply Hshow in H as [H|(j & p & Hin & Hlt)]; [by left|].
      right. split; [done|]. exists j, p.
      apply active_seats_elem in Hin as [Hp Hf].
      rewrite length_app in Hlt. done.
    + intros H. apply bind_None. left. apply Hshow.
      destruct H as [H|(_ & j & p & Hp & Hf & Hlt)]; [by left|].
      right. exists j, p. split; [by apply active_seats_elem|].
      by rewrite length_app.
Qed.

Lemma award_kept (ps : list Player) (i : nat) (v : Z) :
  Forall2 seat_kept ps (award ps i v).
Proof.
  assert (Forall2 seat_kept ps ps) as Hrefl.
  { apply Forall_Forall2_diag, Forall_forall. intros p _. by repeat split. }
  unfold award. destruct (ps !! i) as [w|] eqn:Hw; [|done].
  apply Forall2_same_length_lookup_2; [by rewrite length_insert|].
  intros j x y Hx Hy. destruct (decide (i = j)) as [->|Hne].
  - rewrite list_lookup_insert_eq in Hy by (by eapply lookup_lt_Some).
    simplify_eq. by repeat split.
  - rewrite list_lookup_insert_ne in Hy by done. simplify_eq.
    by repeat split.
Qed.

Lemma awards_kept (ws : list nat) (ps : list Player) (v : Z) :
  Forall2 seat_kept ps (fold_left (λ ps i, award ps i v) ws ps).
Proof.
  revert ps. induction ws as [|w ws IH]; intros ps; simpl.
  - apply Forall_Forall2_diag, Forall_forall. intros p _. by repeat split.
  - eapply Forall2_trans; [|apply award_kept|apply IH].
    intros p q r (? & ? & ? & ? & ?) (? & ? & ? & ? & ?).
    repeat split; try congruence; auto.
Qed.

Lemma find_human_kept (ps ps' : list Player) (me : Player) :
  Forall2 seat_kept ps ps' → find_human ps = Some me →
  ∃ me', find_human ps' = Some me' ∧ hand me' = hand me.
Proof.
  unfold find_human. induction 1 as [|p q ps ps' Hpq _ IH]; [done|].
  destruct Hpq as (_ & Hh & _ & Hhand & _).
  destruct (decide (human p = true)) as [Hp|Hp].
  - rewrite !filter_cons_True by congruence. simpl. intros ?; simplify_eq.
    by exists q.
  - rewrite !filter_cons_False by congruence. apply IH.
Qed.

Lemma best_hand_name_is_Some (hole comm : list Card) :
  (5 ≤ length (hole ++ comm))%nat → is_Some (best_hand_name hole comm).
Proof.
  intros Hlen. unfold best_hand_name.
  destruct (hand_rank_sublists _ Hlen) as (b & -> & (five & _ & _ & Hsc) & _).
  simpl. apply HNAMES_is_Some. rewrite <-Hsc. apply score_five_category.
Qed.

(** X30.  On a table of four with a seated human who holds no or two
    cards, as [App] builds it, [end_hand] fails in two cases only: every
    player has folded, or two or more players are left and one of them
    holds, with the board, fewer than five cards to rank; one player left
    is paid whatever the cards.  When the payout succeeds, the refresh of
    the hand panel that follows it is defined too. *)
Theorem end_hand_fails_iff (st : State) (me : Player) :
  length (players st) = 4%nat →
  find_human (players st) = Some me →
  hand me = [] ∨ length (hand me) = 2%nat →
  (end_hand st = None ↔
   active_seats (players st) = [] ∨
   ((2 ≤ length (active_seats (players st)))%nat ∧
    ∃ i p, players st !! i = Some p ∧ folded p = false ∧
           (length (hand p) + length (comm st) < 5)%nat)) ∧
  (∀ st' nx, end_hand st = Some (st', nx) →
             is_Some (update_hand_info st')).
Proof.
  intros Hfour Hme Hhand. split; [apply end_hand_fails_when|].
  intros st' nx Hend. rewrite end_hand_pays in Hend.
  apply bind_Some in Hend as (ws & _ & Hend). simplify_eq.
  pose proof (rotate_dealer_players
                (set_players st
                   (fold_left
                      (λ ps i, award ps i (pot st `div` Z.of_nat (length ws)))
                      ws (players st)))) as [Hps _].
  assert (comm (rotate_dealer
            (set_players st
               (fold_left
                  (λ ps i, award ps i (pot st `div` Z.of_nat (length ws)))
                  ws (players st)))) = comm st) as Hcomm.
  { unfold rotate_dealer. by destruct (next_alive _ _). }
  unfold update_hand_info. rewrite Hps, Hcomm. cbn [players set_players].
  destruct (find_human_kept _ _ me
              (awards_kept ws (players st)
                 (pot st `div` Z.of_nat (length ws))) Hme)
    as (me' & -> & Hsame).
  cbn [mbind option_bind]. rewrite Hsame.
  destruct Hhand as [->|Hlen]; [by eexists|].
  destruct (hand me) as [|c1 [|c2 rest]] eqn:Hhd; simpl in Hlen; try lia.
  destruct (Nat.leb_spec 3 (length (comm st))) as [Hflop|Hpre].
  - destruct (best_hand_name_is_Some (c1 :: c2 :: rest) (comm st))
      as [hn ->]; [rewrite length_app; simpl; lia|].
    destruct (hand_rank_is_Some ((c1 :: c2 :: rest) ++ comm st))
      as [rank ->]; [rewrite length_app; simpl; lia|].
    by eexists.
  - by eexists.
Qed.

(** * Instances of the further properties *)

Lemma sample_table_ok (st : State) :
  length (players st) = 4%nat →
  bool_decide (NoDup (persona <$> players st)) = true →
  forallb (λ p, 0 <=? stack p) (players st) = true →
  (0 <=? pot st) && (0 <=? SB st) && (0 <=? BB st) = true →
  table_ok st.
Proof.
  intros Hlen Hnd Hst Hz.
  apply andb_true_iff in Hz as [Hz HBB].
  apply andb_true_iff in Hz as [Hpot HSB].
  apply Z.leb_le in Hpot, HSB, HBB. apply bool_decide_eq_true in Hnd.
  unfold table_ok. do 2 (split; [done|]). split; [|done].
  apply Forall_forall. intros p Hp.
  rewrite forallb_forall in Hst. apply Z.leb_le, Hst. by apply list_elem_of_In.
Qed.

Lemma hand_rank_monotone_witness :
  ∃ b, hand_rank sample_seven = Some b ∧ hr_le (2, [13; 5; 2]) b.
Proof.
  apply (hand_rank_monotone (take 5 sample_seven) sample_seven (2, [13; 5; 2])).
  - apply sublist_take.
  - vm_compute. reflexivity.
Defined.

Lemma hand_rank_perm_witness :
  hand_rank sample_seven = hand_rank (reverse sample_seven).
Proof.
  apply (hand_rank_perm sample_seven (reverse sample_seven)).
  - apply (bool_decide_unpack _). vm_compute. exact I.
  - symmetry. apply reverse_Permutation.
Defined.

Lemma score_five_classifies_witness :
  straight_vals (rank_vals sample_wheel) ∧ is_flush sample_wheel ≠ true.
Proof.
  destruct (score_five_classifies sample_wheel eq_refl)
    as [(H & _)|[(H & _)|[(H & _)|[(H & _)|[(_ & Hs & Hf)|[(H & _)|[(H & _)|
        [(H & _)|(H & _)]]]]]]]];
    try (vm_compute in H; discriminate).
  split; [exact Hs | exact Hf].
Defined.

Lemma next_action_turn_witness :
  ∃ st' rest p,
    next_action table_preflop = Some (st', GoTurn 3 20 40) ∧
    aq table_preflop = 3%nat :: rest ∧ aq st' = rest ∧
    players table_preflop !! 3%nat = Some p ∧ folded p = false.
Proof.
  assert (∃ st', next_action table_preflop = Some (st', GoTurn 3 20 40))
    as [st' Hturn] by (eexists; vm_compute; reflexivity).
  destruct (next_action_turn table_preflop st' 3 20 40 Hturn)
    as (rest & p & Haq & Hst & Hp & Hf & _).
  exists st', rest, p. split; [exact Hturn|]. split; [exact Haq|].
  split; [by rewrite Hst|]. split; [exact Hp | exact Hf].
Defined.

Lemma turn_call_matches_witness :
  ∃ st' p',
    apply table_short_stack 1 Call 0 180 380 = Some (st', GoNextAction) ∧
    players st' !! 1%nat = Some p' ∧
    (bet p' = 200 ∨ (stack p' = 0 ∧ bet p' < 200)).
Proof.
  destruct (turn_call_matches table_short_stack 1
              (seat "Ann" 50 false [] false 20 "aggressive") 0 380)
    as (st' & p' & Happ & Hp' & Hbet & _).
  - reflexivity.
  - simpl. lia.
  - simpl. lia.
  - exists st', p'. split; [exact Happ|]. split; [exact Hp' | exact Hbet].
Defined.

Lemma all_in_commits_stack_witness :
  ∃ st' p',
    human_turn table_equal_bets 0 0 20 BtnAllIn = Some (inr (st', GoNextAction)) ∧
    players st' !! 0%nat = Some p' ∧ stack p' = 0 ∧ bet p' = 1000 ∧
    hbet st' = 1000.
Proof.
  destruct (all_in_commits_stack table_equal_bets 0
              (seat "You" 980 true [] false 20 "") 0 20 eq_refl)
    as (st' & p' & Hturn & Hp' & Hs & Hb & _ & Hh).
  exists st', p'. split; [exact Hturn|]. split; [exact Hp'|].
  split; [exact Hs|]. split; [exact Hb | exact Hh].
Defined.

Lemma human_raise_checked_witness :
  ∃ st' p',
    human_turn table_short_blind 0 0 10 (BtnRaise (Some 10))
    = Some (inr (st', GoNextAction)) ∧
    players st' !! 0%nat = Some p' ∧
    stack p' = 980 ∧ bet p' = 20 ∧ hbet st' = 20.
Proof.
  pose proof (human_raise_checked table_short_blind 0
                (seat "You" 990 true [] false 10 "") 10 (Some 10) eq_refl)
    as H.
  hnf in H. destruct H as (st' & p' & Hturn & Hp' & Hs & Hb & Hh & _).
  exists st', p'. split; [exact Hturn|]. split; [exact Hp'|].
  split; [exact Hs|]. split; [exact Hb|]. rewrite Hh, Hb. reflexivity.
Defined.

Lemma preflop_posts_blinds_witness :
  ∃ st' sb bb,
    preflop table1 = Some (st', GoNextAction) ∧
    players table1 !! 1%nat = Some sb ∧ players table1 !! 2%nat = Some bb ∧
    hbet st' = bet bb + Z.min (BB table1) (stack bb).
Proof.
  assert (∃ st', preflop table1 = Some (st', GoNextAction))
    as [st' Hpre] by (eexists; vm_compute; reflexivity).
  destruct (preflop_posts_blinds table1 st' Hpre)
    as (sbi & bbi & sb & bb & Hsbi & Hbbi & _ & Hsb & Hbb & _ & _ & _ & _ & Hh).
  vm_compute in Hsbi. injection Hsbi as <-.
  vm_compute in Hbbi. injection Hbbi as <-.
  exists st', sb, bb. split; [exact Hpre|]. split; [exact Hsb|].
  split; [exact Hbb | exact Hh].
Defined.

Lemma preflop_queue_witness :
  ∃ st', preflop table1 = Some (st', GoNextAction) ∧ NoDup (aq st') ∧
         ∀ j, j ∈ aq st' ↔ (j < 4)%nat ∧ seat_live (players st') j = true.
Proof.
  assert (∃ st', preflop table1 = Some (st', GoNextAction))
    as [st' Hpre] by (eexists; vm_compute; reflexivity).
  destruct (preflop_queue table1 st' Hpre)
    as (sbi & bbi & start & _ & _ & _ & _ & Hnd & Hel).
  exists st'. split; [exact Hpre|]. split; [exact Hnd | exact Hel].
Defined.

Lemma street_spec_witness :
  ∃ st', street table_equal_bets sample_flop = Some (st', GoNextAction) ∧
         comm st' = sample_flop ∧ hbet st' = 0 ∧
         pot st' = pot table_equal_bets.
Proof.
  assert (∃ st', street table_equal_bets sample_flop = Some (st', GoNextAction))
    as [st' Hst] by (eexists; vm_compute; reflexivity).
  destruct (street_spec table_equal_bets st' sample_flop GoNextAction Hst)
    as (_ & Hc & _ & Hh & Hp & _).
  exists st'. split; [exact Hst|]. split; [exact Hc|].
  split; [exact Hh | exact Hp].
Defined.

Lemma advance_spec_witness :
  ∃ st' cards,
    advance table_before_flop = Some (st', GoNextAction) ∧
    comm st' = comm table_before_flop ++ cards ∧ length cards = 3%nat ∧
    deck table_before_flop = deck st' ++ reverse cards.
Proof.
  assert (∃ st', advance table_before_flop = Some (st', GoNextAction))
    as [st' Hadv] by (eexists; vm_compute; reflexivity).
  destruct (advance_spec table_before_flop st' GoNextAction Hadv)
    as [(Hnx & _)|(_ & _ & cards & Hc & Hd & Hl & _)]; [discriminate|].
  exists st', cards. split; [exact Hadv|]. split; [exact Hc|].
  split; [exact Hl | exact Hd].
Defined.

Lemma start_hand_deal_witness :
  Forall2 dealt (players table0) (players table1) ∧
  concat (hand <$> players table1) ++ deck table1 ≡ₚ make_deck.
Proof.
  assert (start_hand table0 make_deck = Some (table1, GoPreflop)) as Hs
    by (vm_compute; reflexivity).
  destruct (start_hand_deal table0 table1 make_deck Hs)
    as (_ & _ & _ & Hd & Hp & _).
  split; [exact Hd | exact Hp].
Defined.

Lemma game_over_tests_agree_witness :
  deal_btn table0 = Some false.
Proof.
  assert (Forall (λ p, 0 ≤ stack p) (players table0)) as Hpos
    by (repeat (constructor; [simpl; lia|]); constructor).
  assert (start_hand table0 make_deck = Some (table1, GoPreflop)) as Hs
    by (vm_compute; reflexivity).
  exact (proj1 (proj2 (game_over_tests_agree table0 make_deck Hpos) table1 Hs)).
Defined.

Lemma run_table_ok_witness :
  table_ok table2 ∧ pot table1 ≤ pot table2.
Proof.
  apply (run_table_ok table1 table2 sample_events).
  - by apply sample_table_ok.
  - repeat (constructor; [simpl; first [exact I | lia]|]). constructor.
  - vm_compute. reflexivity.
Defined.

Lemma run_keeps_seats_witness :
  Forall2 seat_kept (players table1) (players table2).
Proof.
  apply (run_keeps_seats table1 table2 sample_events).
  vm_compute. reflexivity.
Defined.

Lemma hand_cycle_table_ok_witness :
  ∃ st', end_hand table_showdown = Some (st', GoDealBtn) ∧ table_ok st'.
Proof.
  assert (table_ok table_showdown) as Hok by (by apply sample_table_ok).
  assert (∃ st', end_hand table_showdown = Some (st', GoDealBtn))
    as [st' Hend] by (eexists; vm_compute; reflexivity).
  exists st'. split; [exact Hend|].
  exact (proj1 (hand_cycle_table_ok table_showdown Hok) st' GoDealBtn Hend).
Defined.

Lemma run_queue_NoDup_witness :
  NoDup (aq table2).
Proof.
  apply (run_queue_NoDup table1 table2 sample_events).
  - apply NoDup_nil_2.
  - vm_compute. reflexivity.
Defined.

Lemma raiser_not_requeued_witness :
  ∃ st1 st2,
    next_action table_preflop = Some (st1, GoTurn 3 20 40) ∧
    apply st1 3 Raise 40 20 40 = Some (st2, GoNextAction) ∧
    3%nat ∉ aq st2.
Proof.
  assert (∃ st1 st2,
            next_action table_preflop = Some (st1, GoTurn 3 20 40) ∧
            apply st1 3 Raise 40 20 40 = Some (st2, GoNextAction))
    as (st1 & st2 & Hturn & Happ)
    by (eexists _, _; split; vm_compute; reflexivity).
  exists st1, st2. split; [exact Hturn|]. split; [exact Happ|].
  apply (raiser_not_requeued table_preflop st1 st2 3 40 20 40 GoNextAction);
    [|exact Hturn | exact Happ].
  apply (bool_decide_unpack _). vm_compute. exact I.
Defined.

Lemma hand_accounting_witness :
  ∃ st3 ws,
    end_hand table2 = Some (st3, GoDealBtn) ∧
    hand_winners table2 = Some ws ∧
    sum_stacks (players st3)
    = sum_stacks (players table0) - pot table2 `mod` Z.of_nat (length ws).
Proof.
  assert (∃ st3, end_hand table2 = Some (st3, GoDealBtn))
    as [st3 Hend] by (eexists; vm_compute; reflexivity).
  destruct (hand_accounting table0 table1 table2 st3 make_deck sample_events
              GoDealBtn) as (ws & Hws & _ & Hsum & _).
  - vm_compute. reflexivity.
  - vm_compute. reflexivity.
  - exact Hend.
  - exists st3, ws. split; [exact Hend|]. split; [exact Hws | exact Hsum].
Defined.

Lemma estimate_strength_fails_iff_witness :
  estimate_strength reverse_shuffle sample_hole sample_flop 0 = None.
Proof.
  apply (estimate_strength_fails_iff reverse_shuffle sample_hole sample_flop 0).
  - intros k d. apply reverse_Permutation.
  - reflexivity.
  - simpl. lia.
  - reflexivity.
Defined.


Lemma start_hand_never_short_witness :
  ∃ st' nx, start_hand table0 make_deck = Some (st', nx).
Proof.
  destruct (start_hand_never_short table0 make_deck)
    as (st' & nx & Hs & _).
  - eexists. reflexivity.
  - vm_compute. lia.
  - exists st', nx. exact Hs.
Defined.

Lemma reset_rebuilds_table_witness :
  ∃ st',
    reset table2 1000 ["Dee"; "Eve"; "Fay"]%string 2 = Some st' ∧
    players st' = players (init_table "You" "Dee" "Eve" "Fay" 1000 10 20 2).
Proof.
  destruct (reset_rebuilds_table table2 "You" "Ann" "Bob" "Cy" "Dee" "Eve" "Fay"
              1000 10 20 0 2) as (st' & Hr & Hp & _).
  - repeat (constructor; [by repeat split|]). constructor.
  - exists st'. split; [exact Hr | exact Hp].
Defined.

Lemma end_hand_fails_iff_witness :
  ∃ st', end_hand table_showdown = Some (st', GoDealBtn) ∧
         is_Some (update_hand_info st').
Proof.
  assert (∃ st', end_hand table_showdown = Some (st', GoDealBtn))
    as [st' Hend] by (eexists; vm_compute; reflexivity).
  exists st'. split; [exact Hend|].
  exact (proj2 (end_hand_fails_iff table_showdown
                  (seat "You" 950 true [(R10, Spade); (R2, Club)] false 0 "")
                  eq_refl eq_refl (or_intror eq_refl))
           st' GoDealBtn Hend).
Defined.
